(** * stackdriver_exporter: the monitoring collector

    A shallow embedding of [collectors/monitoring_collector.go] and the
    properties its design document states about it.

    Conventions of the embedding:
    - Go [int64]/[uint64]/[time.Duration] values are [Z] with the wrap-around
      written out ([wrap_int64], [wrap_uint64]); [float64] is Rocq's primitive
      binary64 [float]; a Go [string] is a [string] (a byte sequence).
    - A pointer that the code tests against [nil], or that the API leaves unset
      for some value kinds, is an [option]; dereferencing [None] is [Panic].
    - A Go [map] with string keys is a [gmap]; [range] over it enumerates it in
      an order the runtime chooses, which is a parameter of the embedding
      ([go_range]) constrained only to be a permutation of the entries.
    - Functions of Go's standard library and of the API client that the
      collector calls ([time.Parse], [time.ParseDuration], [json.Unmarshal],
      [math.Pow]) are fields of the class [GoLib].
    - Logging and the collector's own counters and gauges (API calls,
      scrapes, durations) have no effect on what is modelled and are left
      out. *)

From Stdlib Require Import ZArith String Ascii Floats Uint63 Lia.
From stdpp Require Import base option list gmap strings.

Local Open Scope Z_scope.

(** ** Go runtime *)

(** Outcome of a Go function that may return an [error] or panic. *)
Inductive result (A : Type) : Type :=
| Ok (a : A)
| Err (msg : string)
| Panic.
Arguments Ok {A} a.
Arguments Err {A} msg.
Arguments Panic {A}.

#[export] Instance result_ret : MRet result := fun _ a => Ok a.

#[export] Instance result_bind : MBind result := fun _ _ k r =>
  match r with
  | Ok a => k a
  | Err e => Err e
  | Panic => Panic
  end.

Definition two_63 : Z := 2 ^ 63.
Definition two_64 : Z := 2 ^ 64.
Definition max_int64 : Z := two_63 - 1.
Definition min_int64 : Z := - two_63.

(** Two's-complement reduction into [int64]. *)
Definition wrap_int64 (z : Z) : Z := (z + two_63) mod two_64 - two_63.

(** Reduction into [uint64]; on an [int64] argument this is the conversion
    [uint64(x)]. *)
Definition wrap_uint64 (z : Z) : Z := z mod two_64.

(** An instant, in nanoseconds since the Unix epoch ([time.Time] after
    [UTC()], which drops the monotonic reading). *)
Definition Instant : Type := Z.

(** [time.Unix(0, 0)]. *)
Definition time_Unix_0_0 : Instant := 0.

(** [t.After(u)]. *)
Definition time_After (t u : Instant) : bool := u <? t.

(** [t.Add(d)]. *)
Definition time_Add (t : Instant) (d : Z) : Instant := t + d.

(** [strings.HasPrefix(s, prefix)]. *)
Definition strings_HasPrefix (s pre : string) : bool := String.prefix pre s.

(** [strings.Contains(s, substr)]. *)
Fixpoint strings_Contains (s substr : string) : bool :=
  String.prefix substr s
  || match s with
     | EmptyString => false
     | String _ s' => strings_Contains s' substr
     end.

(** [strings.Split(s, sep)] for a one-byte separator: the pieces of [s]
    between occurrences of [sep]; never the empty list. *)
Fixpoint strings_Split (s : string) (sep : ascii) : list string :=
  match s with
  | EmptyString => [EmptyString]
  | String c s' =>
      if Ascii.eqb c sep then EmptyString :: strings_Split s' sep
      else match strings_Split s' sep with
           | p :: ps => String c p :: ps
           | [] => [String c EmptyString]
           end
  end.

Definition slash : ascii := "/"%char.

(** The double-quote byte, and [fmt.Sprintf] of a string between quotes. *)
Definition dquote : ascii := ascii_of_nat 34.

Definition quoted_s (s : string) : string :=
  String dquote (s +:+ String dquote EmptyString).

(** ** API data model (the fields the collector reads) *)

Record MetricDescriptorMetadata := {
  IngestDelay : string
}.

Record MetricDescriptor := {
  md_Name : string;
  md_Type : string;
  md_Unit : string;
  md_Metadata : option MetricDescriptorMetadata
}.

(** ** Descriptor caches *)

Definition isGoogleMetric (name : string) : bool :=
  match strings_Split name slash with
  | part0 :: _ => strings_Contains part0 "googleapis.com"
  | [] => false
  end.

(** The interface [DescriptorCache].  A cache is mutable state behind a
    pointer: [Store] returns the state after the call.  [Lookup] returning
    [None] is the [nil] slice, which the collector reads as a miss.  The
    clock reading [now] is what [time.Now()] returns during the call. *)
Class DescriptorCache (C : Type) := {
  Lookup : C -> Instant -> string -> option (list MetricDescriptor);
  Store : C -> Instant -> string -> option (list MetricDescriptor) -> C
}.

(** Modelled from the spec: the no-op cache selected for a zero TTL is not
    part of this source file; "a zero TTL must disable caching entirely
    (every lookup misses)". *)
Inductive noopDescriptorCache := NoopCache.

#[export] Instance noop_cache : DescriptorCache noopDescriptorCache := {
  Lookup _ _ _ := None;
  Store c _ _ _ := c
}.

(** Modelled from the spec: the TTL cache [descriptorCache] is not part of
    this source file; an entry is "(prefix -> list of descriptors, expiry
    instant)", "read on hit while now < expiry, otherwise treated as miss and
    overwritten". *)
Record descriptorEntry := {
  entry_data : option (list MetricDescriptor);
  entry_expiry : Instant
}.

Record descriptorCache := {
  cache_ttl : Z;
  cache_entries : gmap string descriptorEntry
}.

Definition newDescriptorCache (ttl : Z) : descriptorCache :=
  {| cache_ttl := ttl; cache_entries := ∅ |}.

#[export] Instance ttl_cache : DescriptorCache descriptorCache := {
  Lookup c now prefix :=
    match cache_entries c !! prefix with
    | Some e => if now <? entry_expiry e then entry_data e else None
    | None => None
    end;
  Store c now prefix data :=
    {| cache_ttl := cache_ttl c;
       cache_entries :=
         <[prefix := {| entry_data := data;
                        entry_expiry := time_Add now (cache_ttl c) |}]>
           (cache_entries c) |}
}.

(** [googleDescriptorCache]: the wrapper that caches vendor metrics only. *)
Record googleDescriptorCache (Inner : Type) := {
  inner : Inner
}.
Arguments inner {Inner} _.

Definition google_Lookup {Inner} `{DescriptorCache Inner}
    (d : googleDescriptorCache Inner) (now : Instant) (prefix : string)
  : option (list MetricDescriptor) :=
  if negb (isGoogleMetric prefix) then None
  else Lookup (inner d) now prefix.

Definition google_Store {Inner} `{DescriptorCache Inner}
    (d : googleDescriptorCache Inner) (now : Instant) (prefix : string)
    (data : option (list MetricDescriptor)) : googleDescriptorCache Inner :=
  if negb (isGoogleMetric prefix) then d
  else {| inner := Store (inner d) now prefix data |}.

#[export] Instance google_cache {Inner} `{DescriptorCache Inner}
  : DescriptorCache (googleDescriptorCache Inner) := {
  Lookup := google_Lookup;
  Store := google_Store
}.

(** The cache variant [NewMonitoringCollector] selects from the options. *)
Inductive collectorCache :=
| CacheNoop (c : noopDescriptorCache)
| CacheGoogle (c : googleDescriptorCache descriptorCache)
| CachePlain (c : descriptorCache).

#[export] Instance collector_cache : DescriptorCache collectorCache := {
  Lookup c now prefix :=
    match c with
    | CacheNoop c => Lookup c now prefix
    | CacheGoogle c => Lookup c now prefix
    | CachePlain c => Lookup c now prefix
    end;
  Store c now prefix data :=
    match c with
    | CacheNoop c => CacheNoop (Store c now prefix data)
    | CacheGoogle c => CacheGoogle (Store c now prefix data)
    | CachePlain c => CachePlain (Store c now prefix data)
    end
}.

(** The cache-selection part of [NewMonitoringCollector]. *)
Definition NewMonitoringCollector_cache
    (DescriptorCacheTTL : Z) (DescriptorCacheOnlyGoogle : bool) : collectorCache :=
  if DescriptorCacheTTL =? 0 then CacheNoop NoopCache
  else if DescriptorCacheOnlyGoogle
       then CacheGoogle {| inner := newDescriptorCache DescriptorCacheTTL |}
       else CachePlain (newDescriptorCache DescriptorCacheTTL).

(** ** Library functions the collector calls *)

(** Go's standard library, as far as the collector uses it.  A parse that
    fails returns [None]; the library's error text is not modelled. *)
Class GoLib := {
  (** [time.Parse(time.RFC3339Nano, s)] *)
  time_Parse : string -> option Instant;
  (** [time.ParseDuration(s)], in nanoseconds *)
  time_ParseDuration : string -> option Z;
  (** [json.Unmarshal(data, &m)] for [m : map[string]string] *)
  json_Unmarshal : string -> option (gmap string string);
  (** [math.Pow(x, y)] *)
  math_Pow : float -> float -> float;
  (** whether the allocator finds [size] bytes for a slice; when it does
      not, the process dies of [out of memory] *)
  runtime_mallocgc : Z -> bool;
  (** the order in which [range] enumerates a map *)
  go_range : forall {V : Type}, gmap string V -> list (string * V)
}.

(** What the language guarantees about [range]: every entry once. *)
Class GoLibLaws (L : GoLib) : Prop := {
  go_range_perm : forall (V : Type) (m : gmap string V), go_range m ≡ₚ map_to_list m
}.

(** ** Histogram bucket builder *)

Record Explicit := {
  Bounds : list float
}.

Record Linear := {
  lin_NumFiniteBuckets : Z;
  lin_Offset : float;
  lin_Width : float
}.

Record Exponential := {
  exp_GrowthFactor : float;
  exp_NumFiniteBuckets : Z;
  exp_Scale : float
}.

Record BucketOptions := {
  ExplicitBuckets : option Explicit;
  ExponentialBuckets : option Exponential;
  LinearBuckets : option Linear
}.

Record Distribution := {
  BucketCounts : list Z;
  dist_BucketOptions : BucketOptions
}.

(** [float64(i)] for an [int] [i >= 0]. *)
Definition float64_of_int (i : Z) : float := PrimFloat.of_uint63 (Uint63.of_Z i).

(** [math.Inf(1)]. *)
Definition math_Inf_1 : float := PrimFloat.infinity.

(** The largest allocation the runtime accepts, in bytes (a 64-bit
    platform with 48 heap address bits). *)
Definition maxAlloc : Z := 2 ^ 48.

(** Whether [make([]float64, n)] returns.  [makeslice] panics with
    [len out of range] on a negative length and on a slice of more than
    [maxAlloc] bytes; below that the process dies when the allocator
    finds no memory.  A slice of length zero needs none. *)
Definition makeslice_ok {L : GoLib} (n : Z) : bool :=
  (0 <=? n) && (n * 8 <=? maxAlloc) && ((n =? 0) || runtime_mallocgc (n * 8)).

(** [make([]float64, n)]: [n] zeros; [Panic] stands for both ways in
    which it does not return. *)
Definition make_float64s {L : GoLib} (n : Z) : result (list float) :=
  if makeslice_ok n then Ok (replicate (Z.to_nat n) 0%float) else Panic.

(** [copy(dst, src)]: the first [min(len(dst), len(src))] elements. *)
Definition go_copy {A} (dst src : list A) : list A :=
  take (length dst) src ++ drop (length src) dst.

(** [for i := 0; i <= num; i++ { keys[i] = f(i) }], entered at [i] with
    [n] iterations left. *)
Fixpoint fill_keys (f : Z -> float) (i : Z) (n : nat) (keys : list float) : list float :=
  match n with
  | O => keys
  | S n' => fill_keys f (i + 1) n' (<[Z.to_nat i := f i]> keys)
  end.

(** [bucketKeys[len(bucketKeys)-1] = v]; index [-1] panics. *)
Definition set_last (keys : list float) (v : float) : result (list float) :=
  match length keys with
  | O => Panic
  | S n => Ok (<[n := v]> keys)
  end.

(** A Go [map[float64]uint64]: at most one entry per key under [==]; a NaN
    key is equal to no key, itself included.  Assignment to a key equal to a
    stored one overwrites that entry; reading an absent key gives zero. *)
Definition bucket_map : Type := list (float * Z).

Fixpoint bm_load (m : bucket_map) (k : float) : Z :=
  match m with
  | [] => 0
  | (k', v) :: m' => if PrimFloat.eqb k' k then v else bm_load m' k
  end.

Fixpoint bm_store (m : bucket_map) (k : float) (v : Z) : bucket_map :=
  match m with
  | [] => [(k, v)]
  | (k', v') :: m' =>
      if PrimFloat.eqb k' k then (k, v) :: m' else (k', v') :: bm_store m' k v
  end.

Section histogram.
Context {L : GoLib}.

(** The first half of [generateHistogramBuckets]: the slice [bucketKeys]
    as it stands when the counting loop starts. *)
Definition histogramBucketKeys (dist : Distribution) : result (list float) :=
  let opts := dist_BucketOptions dist in
  bucketKeys ←
    match ExplicitBuckets opts, LinearBuckets opts, ExponentialBuckets opts with
    | Some e, _, _ =>
        keys ← make_float64s (Z.of_nat (length (Bounds e)) + 1);
        Ok (go_copy keys (Bounds e))
    | None, Some l, _ =>
        let num := lin_NumFiniteBuckets l in
        keys ← make_float64s (wrap_int64 (num + 2));
        Ok (fill_keys
              (fun i => PrimFloat.add (lin_Offset l)
                          (PrimFloat.mul (float64_of_int i) (lin_Width l)))
              0 (Z.to_nat (num + 1)) keys)
    | None, None, Some x =>
        let num := exp_NumFiniteBuckets x in
        keys ← make_float64s (wrap_int64 (num + 2));
        Ok (fill_keys
              (fun i => PrimFloat.mul (exp_Scale x)
                          (math_Pow (exp_GrowthFactor x) (float64_of_int i)))
              0 (Z.to_nat (num + 1)) keys)
    | None, None, None => Err "Unknown distribution buckets"
    end;
  set_last bucketKeys math_Inf_1.

(** The counting loop of [generateHistogramBuckets], entered at index [i]
    with the map [buckets] and the running total [last]. *)
Fixpoint cumulate (counts : list Z) (keys : list float) (i : nat)
    (buckets : bucket_map) (last : Z) : bucket_map :=
  match keys with
  | [] => buckets
  | b :: keys' =>
      match counts !! i with
      | Some c =>
          let buckets' := bm_store buckets b (wrap_uint64 (wrap_uint64 c + last)) in
          cumulate counts keys' (S i) buckets' (bm_load buckets' b)
      | None =>
          cumulate counts keys' (S i) (bm_store buckets b last) last
      end
  end.

Definition generateHistogramBuckets (dist : Distribution) : result bucket_map :=
  bucketKeys ← histogramBucketKeys dist;
  Ok (cumulate (BucketCounts dist) bucketKeys 0 [] 0).

End histogram.

(** ** Time series translator *)

Record TimeInterval := {
  EndTime : string;
  StartTime : string
}.

(** A typed value: the API sets the field of the point's value kind and
    leaves the other pointers [nil]. *)
Record TypedValue := {
  BoolValue : option bool;
  Int64Value : option Z;
  DoubleValue : option float;
  DistributionValue : option Distribution
}.

Record Point := {
  Interval : TimeInterval;
  Value : TypedValue
}.

Record Metric := {
  metric_Labels : gmap string string;
  metric_Type : string
}.

Record MonitoredResource := {
  resource_Labels : gmap string string;
  resource_Type : string
}.

Record MonitoredResourceMetadata := {
  SystemLabels : option string
}.

Record TimeSeries := {
  ts_Metric : Metric;
  ts_Resource : MonitoredResource;
  ts_Metadata : option MonitoredResourceMetadata;
  ts_MetricKind : string;
  ts_ValueType : string;
  ts_Points : list Point
}.

(** [prometheus.ValueType], the two values the collector assigns. *)
Inductive ValueType := CounterValue | GaugeValue.

(** The calls the translator makes on its [timeSeriesMetrics], with their
    arguments in source order.  The callee lives outside this file; a call
    is what the translator emits for a series. *)
Inductive emission :=
| CollectNewConstMetric (timeSeries : TimeSeries) (reportTime : Instant)
    (labelKeys : list string) (metricValueType : ValueType) (metricValue : float)
    (labelValues : list string) (metricKind : string)
| CollectNewConstHistogram (timeSeries : TimeSeries) (reportTime : Instant)
    (labelKeys : list string) (dist : Distribution) (buckets : bucket_map)
    (labelValues : list string) (metricKind : string).

(** The collector's configuration (the fields set from the options). *)
Record MetricFilter := {
  mf_TargetedMetricPrefix : string;
  FilterQuery : string
}.

Record MetricAggregationConfig := {
  mac_TargetedMetricPrefix : string;
  AlignmentPeriod : string;
  CrossSeriesReducer : string;
  GroupByFields : list string;
  PerSeriesAligner : string
}.

Record MonitoringCollector := {
  projectID : string;
  metricsTypePrefixes : list string;
  metricsFilters : list MetricFilter;
  metricsAggregationConfigs : list MetricAggregationConfig;
  metricsInterval : Z;
  metricsOffset : Z;
  metricsIngestDelay : bool;
  collectorFillMissingLabels : bool;
  monitoringDropDelegatedProjects : bool;
  aggregateDeltas : bool
}.

(** [float64(x)] for an [int64] [x]. *)
Definition float64_of_int64 (x : Z) : float :=
  if 0 <=? x then float64_of_int x
  else if x =? min_int64
       then PrimFloat.opp (PrimFloat.mul 2 (float64_of_int (2 ^ 62)))
       else PrimFloat.opp (float64_of_int (- x)).

Fixpoint keyExists (labelKeys : list string) (key : string) : bool :=
  match labelKeys with
  | [] => false
  | item :: rest => if String.eqb item key then true else keyExists rest key
  end.

(** One of the three label loops: [for key, value := range labels], each
    pair appended unless [keyExists]. *)
Definition addLabels (labels : list (string * string))
    (acc : list string * list string) : list string * list string :=
  foldl (fun acc kv =>
           if negb (keyExists (fst acc) (fst kv))
           then (fst acc ++ [fst kv], snd acc ++ [snd kv])
           else acc)
        acc labels.

(** The scan for a delegated project:
    [for idx, val := range labelKeys], entered at index [idx]. *)
Fixpoint dropDelegatedProject (project : string) (labelKeys labelValues : list string)
    (idx : nat) : bool :=
  match labelKeys with
  | [] => false
  | val :: rest =>
      if String.eqb val "project_id"
         && negb (String.eqb (default "" (labelValues !! idx)) project)
      then true
      else dropDelegatedProject project rest labelValues (S idx)
  end.

(** The [switch timeSeries.MetricKind]; [None] is the [default: continue]. *)
Definition metricValueTypeOf (aggregateDeltas : bool) (metricKind : string)
  : option ValueType :=
  if String.eqb metricKind "GAUGE" then Some GaugeValue
  else if String.eqb metricKind "DELTA"
       then (if aggregateDeltas then Some CounterValue else Some GaugeValue)
  else if String.eqb metricKind "CUMULATIVE" then Some CounterValue
  else None.

(** Dereference of a pointer that may be [nil]. *)
Definition deref {A} (p : option A) : result A :=
  match p with
  | Some a => Ok a
  | None => Panic
  end.

Section translator.
Context {L : GoLib}.

(** The loop over [timeSeries.Points], entered with the current
    [newestEndTime] and [newestTSPoint]. *)
Fixpoint scanPoints (points : list Point) (newestEndTime : Instant)
    (newestTSPoint : option Point) : result (Instant * option Point) :=
  match points with
  | [] => Ok (newestEndTime, newestTSPoint)
  | point :: rest =>
      match time_Parse (EndTime (Interval point)) with
      | None =>
          Err ("Error parsing TimeSeries Point interval end time `"
               +:+ EndTime (Interval point) +:+ "`")
      | Some endTime =>
          if time_After endTime newestEndTime
          then scanPoints rest endTime (Some point)
          else scanPoints rest newestEndTime newestTSPoint
      end
  end.

(** The label keys and values of a series, after the three label loops. *)
Definition seriesLabels (metricDescriptor : MetricDescriptor) (timeSeries : TimeSeries)
  : list string * list string :=
  let acc := (["unit"], [md_Unit metricDescriptor]) in
  let acc := addLabels (go_range (metric_Labels (ts_Metric timeSeries))) acc in
  let acc := addLabels (go_range (resource_Labels (ts_Resource timeSeries))) acc in
  match ts_Metadata timeSeries with
  | Some md =>
      match SystemLabels md with
      | Some raw =>
          match json_Unmarshal raw with
          | None => acc
          | Some systemLabels => addLabels (go_range systemLabels) acc
          end
      | None => acc
      end
  | None => acc
  end.

(** The [switch timeSeries.ValueType] and the call that follows it;
    [None] is a [continue] without a call. *)
Definition emitSeries (c : MonitoringCollector) (timeSeries : TimeSeries)
    (newestEndTime : Instant) (newestTSPoint : option Point)
    (labelKeys labelValues : list string) (metricValueType : ValueType)
  : result (option emission) :=
  let scalar (metricValue : float) :=
    Some (CollectNewConstMetric timeSeries newestEndTime labelKeys metricValueType
            metricValue labelValues (ts_MetricKind timeSeries)) in
  if String.eqb (ts_ValueType timeSeries) "BOOL" then
    p ← deref newestTSPoint;
    b ← deref (BoolValue (Value p));
    Ok (scalar (if b : bool then 1%float else 0%float))
  else if String.eqb (ts_ValueType timeSeries) "INT64" then
    p ← deref newestTSPoint;
    x ← deref (Int64Value (Value p));
    Ok (scalar (float64_of_int64 x))
  else if String.eqb (ts_ValueType timeSeries) "DOUBLE" then
    p ← deref newestTSPoint;
    x ← deref (DoubleValue (Value p));
    Ok (scalar x)
  else if String.eqb (ts_ValueType timeSeries) "DISTRIBUTION" then
    p ← deref newestTSPoint;
    dist ← deref (DistributionValue (Value p));
    match generateHistogramBuckets dist with
    | Ok buckets =>
        Ok (Some (CollectNewConstHistogram timeSeries newestEndTime labelKeys dist
                    buckets labelValues (ts_MetricKind timeSeries)))
    | Err _ => Ok None
    | Panic => Panic
    end
  else Ok None.

(** One iteration of [for _, timeSeries := range page.TimeSeries]: the
    value of [newestTSPoint] after it, and the call it made if any.
    [newestTSPoint] is declared before the loop, so each iteration starts
    from the value the previous one left. *)
Definition translateSeries (c : MonitoringCollector) (metricDescriptor : MetricDescriptor)
    (newestTSPoint : option Point) (timeSeries : TimeSeries)
  : result (option Point * option emission) :=
  '(newestEndTime, newestTSPoint) ←
     scanPoints (ts_Points timeSeries) time_Unix_0_0 newestTSPoint;
  let '(labelKeys, labelValues) := seriesLabels metricDescriptor timeSeries in
  if monitoringDropDelegatedProjects c
     && dropDelegatedProject (projectID c) labelKeys labelValues 0
  then Ok (newestTSPoint, None)
  else
    match metricValueTypeOf (aggregateDeltas c) (ts_MetricKind timeSeries) with
    | None => Ok (newestTSPoint, None)
    | Some metricValueType =>
        e ← emitSeries c timeSeries newestEndTime newestTSPoint
              labelKeys labelValues metricValueType;
        Ok (newestTSPoint, e)
    end.

(** The loop over the page: the calls made so far, and how the loop ended. *)
Fixpoint translatePage (c : MonitoringCollector) (metricDescriptor : MetricDescriptor)
    (series : list TimeSeries) (newestTSPoint : option Point)
  : list emission * result unit :=
  match series with
  | [] => ([], Ok tt)
  | timeSeries :: rest =>
      match translateSeries c metricDescriptor newestTSPoint timeSeries with
      | Ok (newestTSPoint', e) =>
          let '(es, r) := translatePage c metricDescriptor rest newestTSPoint' in
          (option_list e ++ es, r)
      | Err msg => ([], Err msg)
      | Panic => ([], Panic)
      end
  end.

(** [reportTimeSeriesMetrics]: the calls made on the series of one page
    and the returned error.  [newTimeSeriesMetrics] belongs to another
    file; [newMetrics] is the error it returned, if any.  The closing
    [Complete(begun)] of a successful run is not recorded. *)
Definition reportTimeSeriesMetrics (c : MonitoringCollector) (newMetrics : option string)
    (page : list TimeSeries) (metricDescriptor : MetricDescriptor)
  : list emission * result unit :=
  match newMetrics with
  | Some err => ([], Err ("error creating the TimeSeriesMetrics " +:+ err))
  | None => translatePage c metricDescriptor page None
  end.

End translator.

(** ** Scrape orchestrator *)

(** A [ProjectsTimeSeriesListCall] as built for one descriptor.  The
    interval bounds are sent formatted as RFC 3339; the instants
    themselves are recorded here. *)
Record TimeSeriesQuery := {
  q_Filter : string;
  q_IntervalStartTime : Instant;
  q_IntervalEndTime : Instant;
  q_Aggregation : option MetricAggregationConfig
}.

(** What the API answers to a list call and to its follow-up calls: the
    outcome of [Do()], and for a page with a next-page token the answer
    to the call made with that token. *)
Inductive TimeSeriesPages :=
| TSErr (err : string)
| TSNil
| TSPage (series : list TimeSeries) (NextPageToken : string) (next : TimeSeriesPages).

(** The same for the descriptor listing that [Pages] walks. *)
Inductive DescriptorPages :=
| MDErr (err : string)
| MDPage (descriptors : list MetricDescriptor) (NextPageToken : string)
    (next : DescriptorPages).

(** The collector's surroundings during one scrape. *)
Record Env := {
  (** the API's answer to a time-series list call *)
  ListTimeSeries : TimeSeriesQuery -> TimeSeriesPages;
  (** the API's answer to a descriptor list call with the given filter *)
  ListMetricDescriptors : string -> DescriptorPages;
  (** the error [newTimeSeriesMetrics] returns for a descriptor, if any *)
  newMetricsError : MetricDescriptor -> option string;
  (** [time.Now()] in the [n]-th descriptor batch of a prefix *)
  clock : string -> nat -> Instant;
  (** the interleaving of the units of the [n]-th descriptor batch of a prefix *)
  schedule : string -> nat -> list nat
}.

(** What a unit does, one step at a time: a [Do()] call, a call on the
    time series metrics, a send on the error channel, a store into the
    descriptor cache, a panic. *)
Inductive action :=
| Fetch (q : TimeSeriesQuery) (pageToken : string)
| Emit (e : emission)
| Send (err : string)
| StoreDescriptors (prefix : string) (data : option (list MetricDescriptor))
| Crash.

(** *** Fan-out: goroutines, a wait group and a buffered error channel *)

Inductive mainState :=
| Waiting                        (* in [wg.Wait()] *)
| Closed                         (* after [close(errChannel)] *)
| Returned (err : option string) (* after [return <-errChannel] *)
| Crashed.                       (* the process died of a panic *)

Record fanout := {
  threads : list (list action);   (* what each goroutine has left to do *)
  chan : list string;             (* the buffer of [errChannel] *)
  cap : nat;                      (* its capacity *)
  trace : list (nat * action);    (* what was done, by which goroutine *)
  main : mainState
}.

Definition fanout_init (units : list (list action)) : fanout :=
  {| threads := units; chan := []; cap := length units; trace := []; main := Waiting |}.

Definition set_main (st : fanout) (m : mainState) : fanout :=
  {| threads := threads st; chan := chan st; cap := cap st; trace := trace st; main := m |}.

(** One step of the main goroutine: [wg.Wait()] returns once every
    goroutine is done, then the channel is closed; the receive on the
    closed channel yields the first buffered error, or [nil]. *)
Definition step_main (st : fanout) : fanout :=
  match main st with
  | Waiting => if forallb (fun t => bool_decide (t = [])) (threads st)
               then set_main st Closed else st
  | Closed => set_main st (Returned (head (chan st)))
  | Returned _ | Crashed => st
  end.

(** One step of goroutine [i]: its next action.  A send blocks while the
    buffer is full. *)
Definition step_thread (i : nat) (st : fanout) : fanout :=
  match main st with
  | Crashed => st
  | _ =>
      match threads st !! i with
      | Some (a :: rest) =>
          let done (ch : list string) (m : mainState) :=
            {| threads := <[i := rest]> (threads st); chan := ch; cap := cap st;
               trace := trace st ++ [(i, a)]; main := m |} in
          match a with
          | Send err =>
              if bool_decide (length (chan st) < cap st)%nat
              then done (chan st ++ [err]) (main st)
              else st
          | Crash => done (chan st) Crashed
          | _ => done (chan st) (main st)
          end
      | _ => st
      end
  end.

(** A scheduler choice: [0] runs the main goroutine, [S i] goroutine [i]. *)
Definition step (st : fanout) (k : nat) : fanout :=
  match k with
  | O => step_main st
  | S i => step_thread i st
  end.

Definition run (st : fanout) (sched : list nat) : fanout := foldl step st sched.

(** The schedule that lets every goroutine run to its end in turn, from
    goroutine [i] on, and then the main goroutine. *)
Fixpoint finish_from (i : nat) (units : list (list action)) : list nat :=
  match units with
  | [] => []
  | script :: rest => replicate (length script) (S i) ++ finish_from (S i) rest
  end.

Definition finish_schedule (units : list (list action)) : list nat :=
  finish_from 0 units ++ [O; O].

(** A complete execution: any interleaving [sched], followed by whatever
    is left to do. *)
Definition run_to_end (units : list (list action)) (sched : list nat) : fanout :=
  run (fanout_init units) (sched ++ finish_schedule units).

Definition is_send (a : action) : bool :=
  match a with
  | Send _ => true
  | _ => false
  end.

(** What the goroutines of a fan-out did apart from sending on its own
    error channel. *)
Definition actions_of (st : fanout) : list action :=
  filter (fun a => is_send a = false) (snd <$> trace st).

Section orchestrator.
Context {L : GoLib}.
Context {C : Type} `{DescriptorCache C}.

(** The page loop of one descriptor's goroutine, at the call made with
    [pageToken]. *)
Fixpoint fetchPages (c : MonitoringCollector) (env : Env) (metricDescriptor : MetricDescriptor)
    (q : TimeSeriesQuery) (pageToken : string) (pages : TimeSeriesPages) : list action :=
  Fetch q pageToken ::
  match pages with
  | TSErr err => [Send err]
  | TSNil => []
  | TSPage series token next =>
      let '(es, r) := reportTimeSeriesMetrics c (newMetricsError env metricDescriptor)
                        series metricDescriptor in
      (Emit <$> es) ++
      match r with
      | Err err => [Send err]
      | Panic => [Crash]
      | Ok _ =>
          if String.eqb token "" then []
          else fetchPages c env metricDescriptor q token next
      end
  end.

(** The filter of a descriptor's time-series query. *)
Definition timeSeriesFilter (c : MonitoringCollector) (metricDescriptor : MetricDescriptor)
  : string :=
  let filter :=
    if monitoringDropDelegatedProjects c
    then "project=" +:+ quoted_s (projectID c) +:+ " AND metric.type="
         +:+ quoted_s (md_Type metricDescriptor)
    else "metric.type=" +:+ quoted_s (md_Type metricDescriptor) in
  foldl (fun filter ef =>
           if strings_HasPrefix (md_Type metricDescriptor) (mf_TargetedMetricPrefix ef)
           then filter +:+ " AND (" +:+ FilterQuery ef +:+ ")"
           else filter)
        filter (metricsFilters c).

(** The ingest-delay adjustment of the goroutine's own [startTime] and
    [endTime]; [None] when the delay does not parse. *)
Definition queryWindow (c : MonitoringCollector) (metricDescriptor : MetricDescriptor)
    (startTime endTime : Instant) : option (Instant * Instant) :=
  match md_Metadata metricDescriptor with
  | Some meta =>
      if metricsIngestDelay c && negb (String.eqb (IngestDelay meta) "")
      then
        match time_ParseDuration (IngestDelay meta) with
        | None => None
        | Some ingestDelayDuration =>
            Some (time_Add startTime (wrap_int64 (ingestDelayDuration * -1)),
                  time_Add endTime (wrap_int64 (ingestDelayDuration * -1)))
        end
      else Some (startTime, endTime)
  | None => Some (startTime, endTime)
  end.

(** The goroutine started for one descriptor, with the [startTime] and
    [endTime] it is passed. *)
Definition descriptorUnit (c : MonitoringCollector) (env : Env)
    (metricDescriptor : MetricDescriptor) (startTime endTime : Instant) : list action :=
  match queryWindow c metricDescriptor startTime endTime with
  | None =>
      [Send ("time: invalid duration "
             +:+ quoted_s (from_option IngestDelay "" (md_Metadata metricDescriptor)))]
  | Some (startTime, endTime) =>
      let q := {| q_Filter := timeSeriesFilter c metricDescriptor;
                  q_IntervalStartTime := startTime;
                  q_IntervalEndTime := endTime;
                  q_Aggregation :=
                    find (fun ef => strings_HasPrefix (md_Type metricDescriptor)
                                      (mac_TargetedMetricPrefix ef))
                         (metricsAggregationConfigs c) |} in
      fetchPages c env metricDescriptor q "" (ListTimeSeries env q)
  end.

(** [uniqueDescriptors]: one descriptor per type, the last one listed. *)
Definition uniqueDescriptors (descriptors : list MetricDescriptor)
  : gmap string MetricDescriptor :=
  foldl (fun m descriptor => <[md_Type descriptor := descriptor]> m) ∅ descriptors.

(** The goroutines [metricDescriptorsFunction] starts for a batch of
    descriptors, [now] being its reading of the clock. *)
Definition descriptorUnits (c : MonitoringCollector) (env : Env) (now : Instant)
    (descriptors : list MetricDescriptor) : list (list action) :=
  let endTime := time_Add now (wrap_int64 (metricsOffset c * -1)) in
  let startTime := time_Add endTime (wrap_int64 (metricsInterval c * -1)) in
  (fun kv => descriptorUnit c env (snd kv) startTime endTime)
    <$> go_range (uniqueDescriptors descriptors).

(** [metricDescriptorsFunction] under the interleaving [sched]. *)
Definition metricDescriptorsFunction (c : MonitoringCollector) (env : Env) (now : Instant)
    (descriptors : list MetricDescriptor) (sched : list nat) : fanout :=
  run_to_end (descriptorUnits c env now descriptors) sched.

(** [Pages(ctx, callback)] on a cache miss, at the [n]-th page: the
    callback runs [metricDescriptorsFunction] on the page and the walk
    stops at the first error.  Returns what was done, the descriptors
    accumulated in [cache], and whether the walk came back at all (it
    does not when a goroutine panicked). *)
Fixpoint listPages (c : MonitoringCollector) (env : Env) (prefix : string) (n : nat)
    (pages : DescriptorPages) (cache : list MetricDescriptor)
  : list action * list MetricDescriptor * bool :=
  match pages with
  | MDErr err => ([Send err], cache, true)
  | MDPage descriptors token next =>
      let cache := cache ++ descriptors in
      let st := metricDescriptorsFunction c env (clock env prefix n) descriptors
                  (schedule env prefix n) in
      match main st with
      | Returned None =>
          if String.eqb token "" then (actions_of st, cache, true)
          else let '(acts, cache, back) := listPages c env prefix (S n) next cache in
               (actions_of st ++ acts, cache, back)
      | Returned (Some err) => (actions_of st ++ [Send err], cache, true)
      | Crashed | Waiting | Closed => (actions_of st, cache, false)
      end
  end.

(** The filter of a prefix's descriptor listing. *)
Definition descriptorFilter (c : MonitoringCollector) (metricsTypePrefix : string) : string :=
  if monitoringDropDelegatedProjects c
  then "project = " +:+ quoted_s (projectID c) +:+ " AND metric.type = starts_with("
       +:+ quoted_s metricsTypePrefix +:+ ")"
  else "metric.type = starts_with(" +:+ quoted_s metricsTypePrefix +:+ ")".

(** The goroutine started for one configured prefix; [cache] is the
    descriptor cache as the goroutine finds it at time [now]. *)
Definition prefixUnit (c : MonitoringCollector) (env : Env) (cache : C) (now : Instant)
    (metricsTypePrefix : string) : list action :=
  match Lookup cache now metricsTypePrefix with
  | Some cached =>
      let st := metricDescriptorsFunction c env (clock env metricsTypePrefix 0) cached
                  (schedule env metricsTypePrefix 0) in
      actions_of st ++
      match main st with
      | Returned (Some err) => [Send err]
      | _ => []
      end
  | None =>
      let '(acts, data, back) :=
        listPages c env metricsTypePrefix 0
          (ListMetricDescriptors env (descriptorFilter c metricsTypePrefix)) [] in
      if back : bool
      then acts ++ [StoreDescriptors metricsTypePrefix
                      (match data with [] => None | _ => Some data end)]
      else acts
  end.

(** [reportMonitoringMetrics] under the interleaving [sched] of the
    prefix goroutines. *)
Definition reportMonitoringMetrics (c : MonitoringCollector) (env : Env) (cache : C)
    (now : Instant) (sched : list nat) : fanout :=
  run_to_end ((prefixUnit c env cache now) <$> metricsTypePrefixes c) sched.

End orchestrator.

(** ** A reference library instance

    An executable [GoLib] covering the inputs of the examples below:
    whole-second UTC timestamps, durations in whole seconds, flat JSON
    objects of unescaped strings, integral powers, and a heap that gives
    out slices of up to 1 GiB. *)
Module Ref.

Definition digit (c : ascii) : option Z :=
  let n := Z.of_nat (nat_of_ascii c) in
  if (48 <=? n) && (n <=? 57) then Some (n - 48) else None.

Fixpoint digits (s : string) (acc : Z) : option Z :=
  match s with
  | EmptyString => Some acc
  | String c s' => d ← digit c; digits s' (10 * acc + d)
  end.

(** Days from 1970-01-01 to the given civil date (proleptic Gregorian). *)
Definition days_from_civil (y m d : Z) : Z :=
  let y' := if m <=? 2 then y - 1 else y in
  let era := y' / 400 in
  let yoe := y' - era * 400 in
  let doy := (153 * (if 2 <? m then m - 3 else m + 9) + 2) / 5 + d - 1 in
  let doe := yoe * 365 + yoe / 4 - yoe / 100 + doy in
  era * 146097 + doe - 719468.

(** Timestamps of the shape [2006-01-02T15:04:05Z]. *)
Definition parse_time (s : string) : option Instant :=
  if negb (String.length s =? 20)%nat then None
  else if negb (String.eqb (substring 4 1 s) "-" && String.eqb (substring 7 1 s) "-"
                && String.eqb (substring 10 1 s) "T" && String.eqb (substring 13 1 s) ":"
                && String.eqb (substring 16 1 s) ":" && String.eqb (substring 19 1 s) "Z")
  then None
  else
    y ← digits (substring 0 4 s) 0;
    m ← digits (substring 5 2 s) 0;
    d ← digits (substring 8 2 s) 0;
    hh ← digits (substring 11 2 s) 0;
    mm ← digits (substring 14 2 s) 0;
    ss ← digits (substring 17 2 s) 0;
    if (1 <=? m) && (m <=? 12) && (1 <=? d) && (d <=? 31)
       && (hh <=? 23) && (mm <=? 59) && (ss <=? 59)
    then Some ((days_from_civil y m d * 86400 + hh * 3600 + mm * 60 + ss) * 1000000000)
    else None.

(** Durations of the shape [210s]. *)
Definition parse_duration (s : string) : option Z :=
  match String.length s with
  | O => None
  | S n =>
      if String.eqb (substring n 1 s) "s" && negb (n =? 0)%nat
      then secs ← digits (substring 0 n s) 0; Some (secs * 1000000000)
      else None
  end.

(** The text of a JSON string up to its closing quote, and what follows. *)
Fixpoint until_quote (s : string) : option (string * string) :=
  match s with
  | EmptyString => None
  | String c s' =>
      if Ascii.eqb c dquote then Some (EmptyString, s')
      else p ← until_quote s'; Some (String c (fst p), snd p)
  end.

Definition quoted (s : string) : option (string * string) :=
  match s with
  | String c s' => if Ascii.eqb c dquote then until_quote s' else None
  | EmptyString => None
  end.

(** The members of a JSON object after its opening brace. *)
Fixpoint members (fuel : nat) (s : string) (m : gmap string string)
  : option (gmap string string) :=
  match fuel with
  | O => None
  | S fuel' =>
      '(k, s1) ← quoted s;
      match s1 with
      | String ":" s2 =>
          '(v, s3) ← quoted s2;
          match s3 with
          | String "," s4 => members fuel' s4 (<[k := v]> m)
          | String "}" EmptyString => Some (<[k := v]> m)
          | _ => None
          end
      | _ => None
      end
  end.

Definition parse_json (s : string) : option (gmap string string) :=
  if String.eqb s "null" then Some ∅
  else if String.eqb s "{}" then Some ∅
  else match s with
       | String "{" s' => members (String.length s) s' ∅
       | _ => None
       end.

Fixpoint pow_nat (x : float) (n : nat) : float :=
  match n with
  | O => 1%float
  | S n' => PrimFloat.mul x (pow_nat x n')
  end.

(** The least [i < bound] with [float64(i) == y], if any. *)
Fixpoint integral (y : float) (bound : nat) : option nat :=
  match bound with
  | O => None
  | S b =>
      match integral y b with
      | Some i => Some i
      | None => if PrimFloat.eqb (float64_of_int (Z.of_nat b)) y then Some b else None
      end
  end.

Definition pow (x y : float) : float :=
  match integral y 64 with
  | Some n => pow_nat x n
  | None => PrimFloat.nan
  end.

#[export] Instance lib : GoLib := {
  time_Parse := parse_time;
  time_ParseDuration := parse_duration;
  json_Unmarshal := parse_json;
  math_Pow := pow;
  runtime_mallocgc size := size <=? 2 ^ 30;
  go_range V m := map_to_list m
}.

End Ref.

(** ** Vocabulary of the properties *)

(** The first path segment of a type string: what precedes its first
    slash. *)
Fixpoint firstSegment (s : string) : string :=
  match s with
  | EmptyString => EmptyString
  | String c s' => if Ascii.eqb c slash then EmptyString else String c (firstSegment s')
  end.

(** The boundaries the design assigns to each variant, before the
    trailing infinity. *)
Definition linearBounds (l : Linear) : list float :=
  (fun i => PrimFloat.add (lin_Offset l) (PrimFloat.mul (float64_of_int i) (lin_Width l)))
    <$> seqZ 0 (lin_NumFiniteBuckets l + 1).

Definition exponentialBounds {L : GoLib} (x : Exponential) : list float :=
  (fun i => PrimFloat.mul (exp_Scale x) (math_Pow (exp_GrowthFactor x) (float64_of_int i)))
    <$> seqZ 0 (exp_NumFiniteBuckets x + 1).

(** The sum of a list of source counts, in [uint64] arithmetic. *)
Definition uint64_sum (counts : list Z) : Z := wrap_uint64 (foldr Z.add 0 counts).

(** The running total before boundary [i]: the sum of the source counts
    that exist at indices below [i]. *)
Definition runningTotal (counts : list Z) (i : nat) : Z := uint64_sum (take i counts).

(** Boundaries that are pairwise different keys of a Go map: two of them
    compare equal under [==] exactly when they are the same entry of the
    list (so none is NaN). *)
Definition distinct_keys (keys : list float) : Prop :=
  forall i j a b, keys !! i = Some a -> keys !! j = Some b ->
    (PrimFloat.eqb a b = true <-> i = j).

(** The same, as a check that computes. *)
Fixpoint distinct_keysb (keys : list float) : bool :=
  match keys with
  | [] => true
  | k :: keys' =>
      PrimFloat.eqb k k
      && forallb (fun b => negb (PrimFloat.eqb k b) && negb (PrimFloat.eqb b k)) keys'
      && distinct_keysb keys'
  end.

(** The reading of the design's count reconstruction on the returned map:
    every boundary holds the running total through its own index, and the
    infinite boundary holds the total of all source counts. *)
Definition counts_as_designed {L : GoLib} (dist : Distribution) (buckets : bucket_map) : Prop :=
  exists keys, histogramBucketKeys dist = Ok keys
    /\ (forall i b, keys !! i = Some b ->
          bm_load buckets b = runningTotal (BucketCounts dist) (S i))
    /\ bm_load buckets math_Inf_1 = uint64_sum (BucketCounts dist).

(** The entries the loop leaves for pairwise different boundaries. *)
Fixpoint entries_from (counts : list Z) (keys : list float) (i : nat) : bucket_map :=
  match keys with
  | [] => []
  | b :: keys' => (b, runningTotal counts (S i)) :: entries_from counts keys' (S i)
  end.

(** The decoded system labels of a series: empty when the series has no
    metadata or system labels, or when they fail to decode. *)
Definition systemLabelsOf {L : GoLib} (timeSeries : TimeSeries) : gmap string string :=
  match ts_Metadata timeSeries with
  | Some md =>
      match SystemLabels md with
      | Some raw => default ∅ (json_Unmarshal raw)
      | None => ∅
      end
  | None => ∅
  end.

(** The label value seen first for each key: the unit, then the metric
    labels, then the resource labels, then the system labels. *)
Definition firstSeen {L : GoLib} (metricDescriptor : MetricDescriptor) (timeSeries : TimeSeries)
  : gmap string string :=
  {[ "unit"%string := md_Unit metricDescriptor ]}
  ∪ metric_Labels (ts_Metric timeSeries)
  ∪ resource_Labels (ts_Resource timeSeries)
  ∪ systemLabelsOf timeSeries.

(** The state of the label lists between two loops: keys without
    duplicates, one value per key, each value the one of [seen]. *)
Record labels_ok (seen : gmap string string) (ks vs : list string) : Prop := {
  ok_NoDup : NoDup ks;
  ok_length : length vs = length ks;
  ok_keys : forall k, k ∈ ks <-> is_Some (seen !! k);
  ok_values : forall i k, ks !! i = Some k -> vs !! i = seen !! k
}.

(** The parsed interval end of a point. *)
Definition endOf {L : GoLib} (point : Point) : option Instant :=
  time_Parse (EndTime (Interval point)).

(** [point] is the first point of [points] whose interval end [t] is the
    latest. *)
Definition is_newest {L : GoLib} (points : list Point) (point : Point) (t : Instant) : Prop :=
  exists i, points !! i = Some point /\ endOf point = Some t
    /\ forall j q tq, points !! j = Some q -> endOf q = Some tq ->
         tq <= t /\ (tq = t -> (i <= j)%nat).

(** The scalar a point exposes for a value kind. *)
Definition scalarOf (valueType : string) (point : Point) : option float :=
  if String.eqb valueType "BOOL"
  then (fun b : bool => if b then 1%float else 0%float) <$> BoolValue (Value point)
  else if String.eqb valueType "INT64" then float64_of_int64 <$> Int64Value (Value point)
  else if String.eqb valueType "DOUBLE" then DoubleValue (Value point)
  else None.

(** The call [e] reports time [t] and the value of [point]. *)
Definition exposes (valueType : string) (e : emission) (t : Instant) (point : Point) : Prop :=
  match e with
  | CollectNewConstMetric _ reportTime _ _ metricValue _ _ =>
      reportTime = t /\ scalarOf valueType point = Some metricValue
  | CollectNewConstHistogram _ reportTime _ dist _ _ _ =>
      reportTime = t /\ DistributionValue (Value point) = Some dist
  end.

(** What is added to both bounds of a descriptor's query window: the
    negated ingest delay when the collector uses ingest delays and the
    descriptor declares one that parses, nothing otherwise. *)
Definition shiftOf {L : GoLib} (c : MonitoringCollector) (metricDescriptor : MetricDescriptor) : Z :=
  match md_Metadata metricDescriptor with
  | Some meta =>
      if metricsIngestDelay c && negb (String.eqb (IngestDelay meta) "")
      then match time_ParseDuration (IngestDelay meta) with
           | Some delay => wrap_int64 (delay * -1)
           | None => 0
           end
      else 0
  | None => 0
  end.

Local Open Scope nat_scope.

(** What goroutine [i] did, in order. *)
Definition thread_trace (i : nat) (tr : list (nat * action)) : list action :=
  (filter (fun p => p.1 = i) tr).*2.

(** The errors sent on the channel, in order. *)
Definition sends (tr : list (nat * action)) : list string :=
  omap (fun p => match p.2 with Send err => Some err | _ => None end) tr.

Definition count_sends (script : list action) : nat :=
  length (filter (fun a => is_send a = true) script).

(** The sends the goroutines have still to do. *)
Definition pending (ths : list (list action)) : nat := sum_list (count_sends <$> ths).

(** What holds of a fan-out over [units] at every point of every
    execution. *)
Record fanout_inv (units : list (list action)) (st : fanout) : Prop := {
  inv_cap : cap st = length units;
  inv_len : length (threads st) = length units;
  inv_script : forall i script, units !! i = Some script ->
    exists rest, threads st !! i = Some rest /\ script = thread_trace i (trace st) ++ rest;
  inv_chan : chan st = sends (trace st);
  inv_room : length (chan st) + pending (threads st) <= cap st;
  inv_main :
    match main st with
    | Waiting | Crashed => True
    | Closed => Forall (fun t => t = []) (threads st)
    | Returned r => Forall (fun t => t = []) (threads st) /\ r = head (chan st)
    end
}.

(** What every complete execution of a fan-out over [units] satisfies. *)
Definition waits_and_returns_first_error (units : list (list action)) (st : fanout) : Prop :=
  (main st = Crashed \/ exists r, main st = Returned r)
  /\ forall r, main st = Returned r ->
       (forall i script, units !! i = Some script -> thread_trace i (trace st) = script)
       /\ chan st = sends (trace st)
       /\ r = head (chan st).

Local Open Scope Z_scope.

(** ** Example inputs *)
Module Ex.

Definition now : Instant := 1709251500000000000.

Definition collector : MonitoringCollector := {|
  projectID := "p1";
  metricsTypePrefixes := ["custom.googleapis.com/app"%string];
  metricsFilters := [];
  metricsAggregationConfigs := [];
  metricsInterval := 300000000000;
  metricsOffset := 0;
  metricsIngestDelay := true;
  collectorFillMissingLabels := true;
  monitoringDropDelegatedProjects := false;
  aggregateDeltas := false
|}.

(** The descriptor of one metric type, as listed under the scope [name]. *)
Definition requests (name : string) : MetricDescriptor := {|
  md_Name := name;
  md_Type := "custom.googleapis.com/app/requests";
  md_Unit := "1";
  md_Metadata := None
|}.

(** A descriptor of another type that declares an ingest delay. *)
Definition latency : MetricDescriptor := {|
  md_Name := "projects/p1/metricDescriptors/custom.googleapis.com/app/latency";
  md_Type := "custom.googleapis.com/app/latency";
  md_Unit := "ms";
  md_Metadata := Some {| IngestDelay := "210s" |}
|}.

Definition int64Point (endTime : string) (v : Z) : Point := {|
  Interval := {| EndTime := endTime; StartTime := endTime |};
  Value := {| BoolValue := None; Int64Value := Some v;
              DoubleValue := None; DistributionValue := None |}
|}.

(** The system labels [{"zone":"sys","region":"eu"}]. *)
Definition systemLabels : string :=
  "{" +:+ quoted_s "zone" +:+ ":" +:+ quoted_s "sys" +:+ ","
      +:+ quoted_s "region" +:+ ":" +:+ quoted_s "eu" +:+ "}".

(** A gauge of integers; the label [zone] occurs in all three groups. *)
Definition series (zone : string) (points : list Point) : TimeSeries := {|
  ts_Metric := {| metric_Labels := {[ "zone"%string := zone ]};
                  metric_Type := "custom.googleapis.com/app/requests" |};
  ts_Resource := {| resource_Labels := {[ "project_id"%string := "p1"%string;
                                          "zone"%string := "other"%string ]};
                    resource_Type := "global" |};
  ts_Metadata := Some {| SystemLabels := Some systemLabels |};
  ts_MetricKind := "GAUGE";
  ts_ValueType := "INT64";
  ts_Points := points
|}.

Definition point_5 : Point := int64Point "2024-03-01T00:00:05Z" 5.

(** A series with one point, one with none, one with a point at the epoch
    and one with three points out of order. *)
Definition series_a : TimeSeries := series "a" [point_5].
Definition series_empty : TimeSeries := series "b" [].
Definition series_epoch : TimeSeries := series "c" [int64Point "1970-01-01T00:00:00Z" 7].
Definition series_unordered : TimeSeries :=
  series "d" [int64Point "2024-03-01T00:00:01Z" 1;
              int64Point "2024-03-01T00:00:03Z" 3;
              int64Point "2024-03-01T00:00:02Z" 2].

(** The same type listed under two scopes, on two pages of the
    descriptor listing; every time-series call answers one empty page. *)
Definition two_pages : Env := {|
  ListTimeSeries _ := TSPage [] "" TSNil;
  ListMetricDescriptors _ :=
    MDPage [requests "projects/p1/metricDescriptors/custom.googleapis.com/app/requests"]
      "page-2"
      (MDPage [requests "projects/p2/metricDescriptors/custom.googleapis.com/app/requests"]
         "" (MDErr "no further page"));
  newMetricsError _ := None;
  clock _ _ := now;
  schedule _ _ := []
|}.

(** The query both pages lead to. *)
Definition requests_query : TimeSeriesQuery := {|
  q_Filter := "metric.type=" +:+ quoted_s "custom.googleapis.com/app/requests";
  q_IntervalStartTime := now - 300000000000;
  q_IntervalEndTime := now;
  q_Aggregation := None
|}.

(** A cache that holds both descriptors under the prefix. *)
Definition warm_cache : collectorCache :=
  Store (NewMonitoringCollector_cache 3600000000000 false) (now - 1000000000)
    "custom.googleapis.com/app"
    (Some [requests "projects/p1/metricDescriptors/custom.googleapis.com/app/requests";
           requests "projects/p2/metricDescriptors/custom.googleapis.com/app/requests"]).

Definition cpu : MetricDescriptor := {|
  md_Name := "projects/p1/metricDescriptors/compute.googleapis.com/instance/cpu";
  md_Type := "compute.googleapis.com/instance/cpu";
  md_Unit := "1";
  md_Metadata := None
|}.

(** A vendor-only cache whose wrapped cache holds a vendor prefix and a
    foreign one. *)
Definition google_only : googleDescriptorCache descriptorCache :=
  {| inner :=
       Store
         (Store (newDescriptorCache 3600000000000) now
            "compute.googleapis.com/instance" (Some [cpu]))
         now "custom.example.org/requests" (Some [requests "projects/p1"]) |}.

Definition explicitBuckets (bounds : list float) (counts : list Z) : Distribution := {|
  BucketCounts := counts;
  dist_BucketOptions := {| ExplicitBuckets := Some {| Bounds := bounds |};
                           ExponentialBuckets := None; LinearBuckets := None |}
|}.

Definition linearBuckets (num : Z) (offset width : float) (counts : list Z) : Distribution := {|
  BucketCounts := counts;
  dist_BucketOptions := {| ExplicitBuckets := None; ExponentialBuckets := None;
                           LinearBuckets := Some {| lin_NumFiniteBuckets := num;
                                                    lin_Offset := offset;
                                                    lin_Width := width |} |}
|}.

Definition is_fetch (a : action) : bool :=
  match a with
  | Fetch _ _ => true
  | _ => false
  end.

(** The [Do()] calls of an execution, in order. *)
Definition fetches (st : fanout) : list action :=
  filter (fun a => is_fetch a = true) (snd <$> trace st).

End Ex.

(** ** Vocabulary of the further properties *)

(** Whether a string holds a slash. *)
Fixpoint has_slash (s : string) : bool :=
  match s with
  | EmptyString => false
  | String c s' => Ascii.eqb c slash || has_slash s'
  end.

(** The distribution with its counts cut to the first [n]. *)
Definition truncateCounts (n : nat) (dist : Distribution) : Distribution :=
  {| BucketCounts := take n (BucketCounts dist);
     dist_BucketOptions := dist_BucketOptions dist |}.

(** The number of finite buckets the builder reads, for the variants that
    have one. *)
Definition numFiniteBucketsOf (opts : BucketOptions) : option Z :=
  match ExplicitBuckets opts, LinearBuckets opts, ExponentialBuckets opts with
  | Some _, _, _ => None
  | None, Some l, _ => Some (lin_NumFiniteBuckets l)
  | None, None, Some x => Some (exp_NumFiniteBuckets x)
  | None, None, None => None
  end.

(** The collector with the delegated-project filter switched off. *)
Definition withoutProjectFilter (c : MonitoringCollector) : MonitoringCollector :=
  {| projectID := projectID c;
     metricsTypePrefixes := metricsTypePrefixes c;
     metricsFilters := metricsFilters c;
     metricsAggregationConfigs := metricsAggregationConfigs c;
     metricsInterval := metricsInterval c;
     metricsOffset := metricsOffset c;
     metricsIngestDelay := metricsIngestDelay c;
     collectorFillMissingLabels := collectorFillMissingLabels c;
     monitoringDropDelegatedProjects := false;
     aggregateDeltas := aggregateDeltas c |}.

(** The series a call is made for. *)
Definition seriesOf (e : emission) : TimeSeries :=
  match e with
  | CollectNewConstMetric timeSeries _ _ _ _ _ _ => timeSeries
  | CollectNewConstHistogram timeSeries _ _ _ _ _ _ => timeSeries
  end.

(** The error the translator returns for an interval end that does not
    parse. *)
Definition endTimeError (point : Point) : string :=
  "Error parsing TimeSeries Point interval end time `" +:+ EndTime (Interval point) +:+ "`".

(** Whether a script holds a send on the error channel. *)
Definition fails (script : list action) : Prop := exists err, Send err ∈ script.

(** The collector with no extra filters configured. *)
Definition withoutExtraFilters (c : MonitoringCollector) : MonitoringCollector :=
  {| projectID := projectID c;
     metricsTypePrefixes := metricsTypePrefixes c;
     metricsFilters := [];
     metricsAggregationConfigs := metricsAggregationConfigs c;
     metricsInterval := metricsInterval c;
     metricsOffset := metricsOffset c;
     metricsIngestDelay := metricsIngestDelay c;
     collectorFillMissingLabels := collectorFillMissingLabels c;
     monitoringDropDelegatedProjects := monitoringDropDelegatedProjects c;
     aggregateDeltas := aggregateDeltas c |}.

(** The clause an extra filter adds to a query. *)
Definition filterClause (ef : MetricFilter) : string :=
  " AND (" +:+ FilterQuery ef +:+ ")".

(** Whether an extra filter targets a metric type. *)
Definition targets (metricType : string) (ef : MetricFilter) : bool :=
  strings_HasPrefix metricType (mf_TargetedMetricPrefix ef).

Definition is_store (a : action) : bool :=
  match a with
  | StoreDescriptors _ _ => true
  | _ => false
  end.

(** An action after which a goroutine is over: a send on the error
    channel or a panic. *)
Definition is_stop (a : action) : bool :=
  match a with
  | Send _ | Crash => true
  | _ => false
  end.

(** A script in which nothing follows a send or a panic. *)
Definition stops_last (script : list action) : Prop :=
  forall pre a post, script = pre ++ a :: post -> is_stop a = true -> post = [].

(** The page tokens of the [Do()] calls of a script, in order. *)
Definition fetchTokens (script : list action) : list string :=
  omap (fun a => match a with Fetch _ pageToken => Some pageToken | _ => None end) script.

(** The tokens the API hands out along a listing: each page's
    [NextPageToken] up to the first empty one. *)
Fixpoint pageTokens (pages : TimeSeriesPages) : list string :=
  match pages with
  | TSPage _ token next => if String.eqb token "" then [] else token :: pageTokens next
  | _ => []
  end.

(** The descriptor pages of a listing, in order. *)
Fixpoint listing (pages : DescriptorPages) : list (list MetricDescriptor) :=
  match pages with
  | MDErr _ => []
  | MDPage descriptors _ next => descriptors :: listing next
  end.

(** A fan-out returned an error of one of its goroutines, and none only
    if none of them sent one. *)
Definition returns_error_of_a_unit (units : list (list action)) (st : fanout) : Prop :=
  forall r, main st = Returned r ->
    match r with
    | None => forall script, script ∈ units -> ~ fails script
    | Some err => exists script, script ∈ units /\ Send err ∈ script
    end.

(** The process died in a fan-out exactly when one of its goroutines
    panics, and the fan-out returned exactly when none does. *)
Definition crashes_iff_a_unit_panics (units : list (list action)) (st : fanout) : Prop :=
  (main st = Crashed <-> exists script, script ∈ units /\ Crash ∈ script)
  /\ ((exists r, main st = Returned r) <->
      forall script, script ∈ units -> Crash ∉ script).

(** Two executions that differ in the order of their actions only. *)
Definition same_outcome (st st' : fanout) : Prop :=
  match main st, main st' with
  | Crashed, Crashed => True
  | Returned r, Returned r' =>
      (r = None <-> r' = None) /\ snd <$> trace st ≡ₚ snd <$> trace st'
  | _, _ => False
  end.

Section pages_walked.
Context {L : GoLib}.

(** The number of descriptor pages [Pages] passes to the callback, from
    the [n]-th page on. *)
Fixpoint pagesWalked (c : MonitoringCollector) (env : Env) (prefix : string) (n : nat)
    (pages : DescriptorPages) : nat :=
  match pages with
  | MDErr _ => 0
  | MDPage descriptors token next =>
      S (match main (metricDescriptorsFunction c env (clock env prefix n) descriptors
                       (schedule env prefix n)) with
         | Returned None =>
             if String.eqb token "" then 0 else pagesWalked c env prefix (S n) next
         | _ => 0
         end)
  end.

End pages_walked.

(** ** Self-metrics *)

(** The collector's own metrics: three counters, which are only ever
    incremented and so hold a [uint64], and three gauges, which hold the
    [float64] last set. *)
Record selfMetrics := {
  apiCallsTotalMetric : Z;
  scrapesTotalMetric : Z;
  scrapeErrorsTotalMetric : Z;
  lastScrapeErrorMetric : float;
  lastScrapeTimestampMetric : float;
  lastScrapeDurationSecondsMetric : float
}.

(** The metrics as [NewMonitoringCollector] creates them. *)
Definition newSelfMetrics : selfMetrics := {|
  apiCallsTotalMetric := 0;
  scrapesTotalMetric := 0;
  scrapeErrorsTotalMetric := 0;
  lastScrapeErrorMetric := 0;
  lastScrapeTimestampMetric := 0;
  lastScrapeDurationSecondsMetric := 0
|}.

(** [Counter.Inc()]. *)
Definition counter_Inc (v : Z) : Z := wrap_uint64 (v + 1).

(** [time.Second]. *)
Definition time_Second : Z := 1000000000.

(** [t.Unix()]. *)
Definition time_Unix (t : Instant) : Z := t `div` time_Second.

(** [t.Sub(u)]: the difference, kept within [int64]. *)
Definition time_Sub (t u : Instant) : Z := Z.max min_int64 (Z.min max_int64 (t - u)).

(** [d.Seconds()]. *)
Definition duration_Seconds (d : Z) : float :=
  PrimFloat.add (float64_of_int64 (d `quot` time_Second))
                (PrimFloat.div (float64_of_int64 (d `rem` time_Second)) 1000000000%float).

(** The clock readings of one [Collect]: [begun], the reading of the
    cache lookups, the reading for the timestamp gauge and the reading of
    [time.Since(begun)]. *)
Record scrapeClock := {
  begun : Instant;
  lookedUp : Instant;
  stamped : Instant;
  measured : Instant
}.

Section collect.
Context {L : GoLib}.
Context {C : Type} `{DescriptorCache C}.

(** The increments of [apiCallsTotalMetric] in a scrape that returned:
    one before each [Do()] call, and one in each run of the callback of
    a descriptor listing. *)
Definition apiCallsOf (c : MonitoringCollector) (env : Env) (cache : C) (now : Instant)
    (st : fanout) : nat :=
  (length (fetchTokens (snd <$> trace st))
   + sum_list ((fun metricsTypePrefix =>
                  match Lookup cache now metricsTypePrefix with
                  | Some _ => 0
                  | None =>
                      pagesWalked c env metricsTypePrefix 0
                        (ListMetricDescriptors env (descriptorFilter c metricsTypePrefix))
                  end) <$> metricsTypePrefixes c))%nat.

(** [Collect]: the self-metrics after it, which are also the values it
    sends on the channel; [None] when a goroutine panicked. *)
Definition Collect (c : MonitoringCollector) (env : Env) (cache : C) (m : selfMetrics)
    (clk : scrapeClock) (sched : list nat) : option selfMetrics :=
  let st := reportMonitoringMetrics c env cache (lookedUp clk) sched in
  match main st with
  | Returned err =>
      Some {| apiCallsTotalMetric :=
                Nat.iter (apiCallsOf c env cache (lookedUp clk) st) counter_Inc
                  (apiCallsTotalMetric m);
              scrapesTotalMetric := counter_Inc (scrapesTotalMetric m);
              scrapeErrorsTotalMetric :=
                match err with
                | Some _ => counter_Inc (scrapeErrorsTotalMetric m)
                | None => scrapeErrorsTotalMetric m
                end;
              lastScrapeErrorMetric :=
                match err with
                | Some _ => 1%float
                | None => 0%float
                end;
              lastScrapeTimestampMetric := float64_of_int64 (time_Unix (stamped clk));
              lastScrapeDurationSecondsMetric :=
                duration_Seconds (time_Sub (measured clk) (begun clk)) |}
  | _ => None
  end.

(** One scrape of a sequence: its surroundings, the cache as it finds it,
    its clock readings and its interleaving. *)
Record scrape := {
  s_env : Env;
  s_cache : C;
  s_clock : scrapeClock;
  s_sched : list nat
}.

(** Whether a scrape returns an error. *)
Definition scrapeFails (c : MonitoringCollector) (s : scrape) : bool :=
  match main (reportMonitoringMetrics c (s_env s) (s_cache s) (lookedUp (s_clock s))
                (s_sched s)) with
  | Returned (Some _) => true
  | _ => false
  end.

(** Successive calls of [Collect]. *)
Definition collects (c : MonitoringCollector) (scrapes : list scrape) (m : selfMetrics)
  : option selfMetrics :=
  foldl (fun m s => m ← m; Collect c (s_env s) (s_cache s) m (s_clock s) (s_sched s))
        (Some m) scrapes.

End collect.

(** ** Further example inputs *)
Module Cases.

(** The example collector with the delegated-project filter on. *)
Definition strict : MonitoringCollector := {|
  projectID := "p1";
  metricsTypePrefixes := ["custom.googleapis.com/app"%string];
  metricsFilters := [];
  metricsAggregationConfigs := [];
  metricsInterval := 300000000000;
  metricsOffset := 0;
  metricsIngestDelay := true;
  collectorFillMissingLabels := true;
  monitoringDropDelegatedProjects := true;
  aggregateDeltas := false
|}.

(** A series whose second point carries no timestamp. *)
Definition series_undated : TimeSeries :=
  Ex.series "e" [Ex.point_5; Ex.int64Point "yesterday" 1; Ex.int64Point "2024-03-01T00:00:09Z" 9].

(** A series of a value type the collector does not expose. *)
Definition series_string : TimeSeries := {|
  ts_Metric := {| metric_Labels := ∅; metric_Type := "custom.googleapis.com/app/version" |};
  ts_Resource := {| resource_Labels := ∅; resource_Type := "global" |};
  ts_Metadata := None;
  ts_MetricKind := "GAUGE";
  ts_ValueType := "STRING";
  ts_Points := [Ex.point_5]
|}.

(** A distribution that names no bucket layout, and a point and a series
    that carry it. *)
Definition no_layout : Distribution := {|
  BucketCounts := [1; 2];
  dist_BucketOptions := {| ExplicitBuckets := None; ExponentialBuckets := None;
                           LinearBuckets := None |}
|}.

Definition point_dist : Point := {|
  Interval := {| EndTime := "2024-03-01T00:00:05Z"; StartTime := "2024-03-01T00:00:05Z" |};
  Value := {| BoolValue := None; Int64Value := None;
              DoubleValue := None; DistributionValue := Some no_layout |}
|}.

Definition series_dist : TimeSeries := {|
  ts_Metric := {| metric_Labels := ∅; metric_Type := "custom.googleapis.com/app/latency" |};
  ts_Resource := {| resource_Labels := ∅; resource_Type := "global" |};
  ts_Metadata := None;
  ts_MetricKind := "DELTA";
  ts_ValueType := "DISTRIBUTION";
  ts_Points := [point_dist]
|}.

(** A descriptor whose ingest delay is no duration. *)
Definition delayed : MetricDescriptor := {|
  md_Name := "projects/p1/metricDescriptors/custom.googleapis.com/app/queue";
  md_Type := "custom.googleapis.com/app/queue";
  md_Unit := "1";
  md_Metadata := Some {| IngestDelay := "soon" |}
|}.

(** Every time-series call answers two pages, the second reached with
    the token [t2]. *)
Definition paged : Env := {|
  ListTimeSeries _ := TSPage [Ex.series_a] "t2" (TSPage [] "" TSNil);
  ListMetricDescriptors _ := MDPage [Ex.requests "projects/p1"] "" (MDErr "no further page");
  newMetricsError _ := None;
  clock _ _ := Ex.now;
  schedule _ _ := []
|}.

(** Every time-series call answers one page whose first series has no
    points. *)
Definition empty_first : Env := {|
  ListTimeSeries _ := TSPage [Ex.series_empty; Ex.series_a] "" TSNil;
  ListMetricDescriptors _ := MDPage [Ex.requests "projects/p1"] "" (MDErr "no further page");
  newMetricsError _ := None;
  clock _ _ := Ex.now;
  schedule _ _ := []
|}.

(** The descriptor listing fails at its first request. *)
Definition unlisted : Env := {|
  ListTimeSeries _ := TSNil;
  ListMetricDescriptors _ := MDErr "listing failed";
  newMetricsError _ := None;
  clock _ _ := Ex.now;
  schedule _ _ := []
|}.

(** A scrape that takes two seconds. *)
Definition two_seconds : scrapeClock := {|
  begun := Ex.now;
  lookedUp := Ex.now;
  stamped := Ex.now + 2000000000;
  measured := Ex.now + 2000000000
|}.

(** A scrape that succeeds followed by one whose listing fails, both
    without descriptor cache. *)
Definition good_then_bad : list (scrape (C := collectorCache)) :=
  [ {| s_env := Ex.two_pages; s_cache := NewMonitoringCollector_cache 0 false;
       s_clock := two_seconds; s_sched := [] |};
    {| s_env := unlisted; s_cache := NewMonitoringCollector_cache 0 false;
       s_clock := two_seconds; s_sched := [] |} ].

End Cases.

(** * Properties *)

(** ** Descriptor cache *)

Section cache_properties.
Context {Inner : Type} `{DescriptorCache Inner}.

Lemma strings_Split_head (s : string) :
  head (strings_Split s slash) = Some (firstSegment s).
Proof.
  induction s as [|c s IH]; simpl; [done|].
  destruct (Ascii.eqb c slash); [done|].
  destruct (strings_Split s slash) as [|p ps]; simplify_eq/=; done.
Qed.

Lemma isGoogleMetric_firstSegment (name : string) :
  isGoogleMetric name = strings_Contains (firstSegment name) "googleapis.com".
Proof.
  unfold isGoogleMetric. pose proof (strings_Split_head name) as Hh.
  destruct (strings_Split name slash); simplify_eq/=; done.
Qed.


End cache_properties.

(** The vendor-only cache is what the collector is given when caching is
    on and restricted to vendor metrics. *)
Lemma NewMonitoringCollector_cache_google (ttl : Z) :
  ttl <> 0 ->
  NewMonitoringCollector_cache ttl true = CacheGoogle {| inner := newDescriptorCache ttl |}.
Proof.
  intros Httl. unfold NewMonitoringCollector_cache.
  by destruct (Z.eqb_spec ttl 0).
Qed.


(** The wrapped cache of the example holds both prefixes; through the
    wrapper only the vendor's is found. *)
Example google_only_lookups :
  Lookup (inner Ex.google_only) Ex.now "custom.example.org/requests"
  = Some [Ex.requests "projects/p1"]
  /\ Lookup Ex.google_only Ex.now "custom.example.org/requests" = None
  /\ Lookup Ex.google_only Ex.now "compute.googleapis.com/instance" = Some [Ex.cpu].
Proof. repeat split; vm_compute; reflexivity. Qed.

#[export] Instance ref_laws : GoLibLaws Ref.lib.
Proof. split. intros V m. reflexivity. Qed.

(** ** Histogram bucket builder *)

Section histogram_properties.
Context {L : GoLib}.

Lemma wrap_int64_small (z : Z) : min_int64 <= z <= max_int64 -> wrap_int64 z = z.
Proof.
  unfold wrap_int64, min_int64, max_int64, two_64, two_63. intros Hz.
  rewrite Z.mod_small; lia.
Qed.

Lemma fill_keys_spec (f : Z -> float) (n : nat) : forall (i : Z) (pre tail : list float),
  0 <= i -> length pre = Z.to_nat i ->
  fill_keys f i n (pre ++ replicate n 0%float ++ tail)
  = pre ++ (f <$> seqZ i (Z.of_nat n)) ++ tail.
Proof.
  induction n as [|n IH]; intros i pre tail Hi Hlen; [done|].
  cbn [fill_keys replicate app].
  replace (Z.to_nat i) with (length pre + 0)%nat by lia.
  rewrite insert_app_r. cbn [insert list_insert].
  rewrite (cons_middle (f i)), app_assoc.
  rewrite IH by (rewrite ?length_app; simpl; lia).
  rewrite (seqZ_cons i) by lia. rewrite <- app_assoc. cbn.
  replace (Z.pred (Z.of_nat (S n))) with (Z.of_nat n) by lia. done.
Qed.

Lemma set_last_snoc (keys : list float) (x v : float) :
  set_last (keys ++ [x]) v = Ok (keys ++ [v]).
Proof.
  unfold set_last. rewrite length_app, Nat.add_1_r.
  f_equal. rewrite <- (Nat.add_0_r (length keys)). by rewrite insert_app_r.
Qed.

Lemma makeslice_ok_range (n : Z) : makeslice_ok n = true -> 0 <= n <= 2 ^ 45.
Proof. unfold makeslice_ok, maxAlloc. intros Hok. lia. Qed.

Lemma wrap_int64_add_2 (num : Z) :
  min_int64 <= num <= max_int64 ->
  wrap_int64 (num + 2) = if decide (num <= max_int64 - 2) then num + 2 else num + 2 - two_64.
Proof.
  intros Hnum. case_decide.
  - apply wrap_int64_small. unfold min_int64, max_int64, two_63 in *. lia.
  - unfold wrap_int64, min_int64, max_int64, two_64, two_63 in *.
    replace (num + 2 + 2 ^ 63) with (num + 2 - 2 ^ 63 + 1 * 2 ^ 64) by lia.
    rewrite Z_mod_plus_full, Z.mod_small; lia.
Qed.

(** The slice of a layout with [num] finite buckets, filled and closed by
    the infinite boundary: it is there when [num] is at least -1 and the
    slice of [num + 2] boundaries can be made, and the builder panics
    otherwise. *)
Lemma make_fill_outcome (f : Z -> float) (num : Z) :
  min_int64 <= num <= max_int64 ->
  (keys ← make_float64s (wrap_int64 (num + 2));
   set_last (fill_keys f 0 (Z.to_nat (num + 1)) keys) math_Inf_1)
  = if (-1 <=? num) && makeslice_ok (num + 2)
    then Ok ((f <$> seqZ 0 (num + 1)) ++ [math_Inf_1])
    else Panic.
Proof.
  intros Hnum. rewrite (wrap_int64_add_2 num Hnum). unfold make_float64s. case_decide as Hle.
  - destruct (makeslice_ok (num + 2)) eqn:Hok; cbn [mbind result_bind].
    + apply makeslice_ok_range in Hok.
      destruct (Z.leb_spec (-1) num) as [Hpos|Hneg]; cbn [andb].
      * replace (Z.to_nat (num + 2)) with (Z.to_nat (num + 1) + 1)%nat by lia.
        rewrite replicate_add. cbn [replicate].
        pose proof (fill_keys_spec f (Z.to_nat (num + 1)) 0 [] [0%float]) as Hfill.
        cbn [app] in Hfill. rewrite Hfill by done.
        rewrite set_last_snoc. by rewrite Z2Nat.id by lia.
      * replace num with (-2) by lia. done.
    + by rewrite andb_false_r.
  - assert (Hneg : makeslice_ok (num + 2 - two_64) = false).
    { unfold makeslice_ok. destruct (Z.leb_spec 0 (num + 2 - two_64)); [|done].
      unfold max_int64, two_64, two_63 in *. lia. }
    assert (Hbig : makeslice_ok (num + 2) = false).
    { destruct (makeslice_ok (num + 2)) eqn:Hok; [|done].
      apply makeslice_ok_range in Hok. unfold max_int64, two_63 in *. lia. }
    by rewrite Hneg, Hbig, andb_false_r.
Qed.

Lemma go_copy_make (bounds : list float) :
  go_copy (replicate (S (length bounds)) 0%float) bounds = bounds ++ [0%float].
Proof.
  unfold go_copy. rewrite length_replicate, take_ge by lia.
  by rewrite drop_replicate, Nat.sub_succ_l, Nat.sub_diag by lia.
Qed.

Lemma bm_store_elem (m : bucket_map) (k : float) (v : Z) : (k, v) ∈ bm_store m k v.
Proof.
  induction m as [|[k' v'] m IH]; simpl; [set_solver|].
  destruct (PrimFloat.eqb k' k); set_solver.
Qed.

Lemma cumulate_last_key (counts : list Z) (keys : list float) (k : float) :
  forall (i : nat) (buckets : bucket_map) (last : Z),
  exists v, (k, v) ∈ cumulate counts (keys ++ [k]) i buckets last.
Proof.
  induction keys as [|b keys IH]; intros i buckets last; cbn [app cumulate].
  - destruct (counts !! i); eexists; apply bm_store_elem.
  - destruct (counts !! i); apply IH.
Qed.

Lemma histogramBucketKeys_last (dist : Distribution) (keys : list float) :
  histogramBucketKeys dist = Ok keys -> exists keys', keys = keys' ++ [math_Inf_1].
Proof.
  unfold histogramBucketKeys.
  match goal with |- mbind _ ?r = _ -> _ => destruct r as [ks| |] end;
    cbn [mbind result_bind]; try done.
  unfold set_last. destruct ks as [|k ks _] using rev_ind; [done|].
  rewrite length_app, Nat.add_1_r. intros [= <-]. exists ks.
  rewrite <- (Nat.add_0_r (length ks)). by rewrite insert_app_r.
Qed.

(** C4. The boundary list of a distribution, by bucket-option variant,
    for bucket numbers that are [int64]s.  Explicit bounds give the
    declared bounds, provided the slice for them can be made.  Linear and
    exponential bounds give one boundary per index in
    [0, numFiniteBuckets] when numFiniteBuckets is at least -1 and a
    slice of numFiniteBuckets + 2 boundaries can be made; otherwise the
    builder panics.  Each list ends with one infinite boundary, so the
    latter two have numFiniteBuckets + 2 boundaries.  Every bucket set
    returned has an entry for the infinite boundary.  With no variant
    present the builder returns an error, and the translator makes no
    call for the series. *)
Theorem histogram_boundaries_by_variant (dist : Distribution) :
  let opts := dist_BucketOptions dist in
  (forall e, ExplicitBuckets opts = Some e ->
     histogramBucketKeys dist
     = if makeslice_ok (Z.of_nat (length (Bounds e)) + 1)
       then Ok (Bounds e ++ [math_Inf_1])
       else Panic)
  /\ (forall l, ExplicitBuckets opts = None -> LinearBuckets opts = Some l ->
        min_int64 <= lin_NumFiniteBuckets l <= max_int64 ->
        histogramBucketKeys dist
        = (if (-1 <=? lin_NumFiniteBuckets l) && makeslice_ok (lin_NumFiniteBuckets l + 2)
           then Ok (linearBounds l ++ [math_Inf_1])
           else Panic)
        /\ (-1 <= lin_NumFiniteBuckets l ->
            Z.of_nat (length (linearBounds l ++ [math_Inf_1])) = lin_NumFiniteBuckets l + 2))
  /\ (forall x, ExplicitBuckets opts = None -> LinearBuckets opts = None ->
        ExponentialBuckets opts = Some x ->
        min_int64 <= exp_NumFiniteBuckets x <= max_int64 ->
        histogramBucketKeys dist
        = (if (-1 <=? exp_NumFiniteBuckets x) && makeslice_ok (exp_NumFiniteBuckets x + 2)
           then Ok (exponentialBounds x ++ [math_Inf_1])
           else Panic)
        /\ (-1 <= exp_NumFiniteBuckets x ->
            Z.of_nat (length (exponentialBounds x ++ [math_Inf_1]))
            = exp_NumFiniteBuckets x + 2))
  /\ (forall buckets, generateHistogramBuckets dist = Ok buckets ->
        exists keys v, histogramBucketKeys dist = Ok (keys ++ [math_Inf_1])
                       /\ (math_Inf_1, v) ∈ buckets)
  /\ (ExplicitBuckets opts = None -> LinearBuckets opts = None ->
      ExponentialBuckets opts = None ->
        generateHistogramBuckets dist = Err "Unknown distribution buckets"
        /\ forall c timeSeries newestEndTime point labelKeys labelValues metricValueType,
             ts_ValueType timeSeries = "DISTRIBUTION" ->
             DistributionValue (Value point) = Some dist ->
             emitSeries c timeSeries newestEndTime (Some point) labelKeys labelValues
               metricValueType = Ok None).
Proof.
  intros opts.
  assert (Hnone : ExplicitBuckets opts = None -> LinearBuckets opts = None ->
                  ExponentialBuckets opts = None ->
                  generateHistogramBuckets dist = Err "Unknown distribution buckets").
  { intros He Hl Hx. unfold generateHistogramBuckets, histogramBucketKeys.
    fold opts. by rewrite He, Hl, Hx. }
  split_and!.
  - intros e He. unfold histogramBucketKeys. fold opts. rewrite He.
    unfold make_float64s.
    destruct (makeslice_ok (Z.of_nat (length (Bounds e)) + 1)); cbn [mbind result_bind]; [|done].
    replace (Z.to_nat (Z.of_nat (length (Bounds e)) + 1)) with (S (length (Bounds e))) by lia.
    by rewrite go_copy_make, set_last_snoc.
  - intros l He Hl Hnum. split.
    + unfold histogramBucketKeys. fold opts. rewrite He, Hl.
      etrans; [|apply (make_fill_outcome _ _ Hnum)].
      by destruct (make_float64s _).
    + intros Hpos. unfold linearBounds. rewrite length_app, length_fmap, length_seqZ.
      simpl. lia.
  - intros x He Hl Hx Hnum. split.
    + unfold histogramBucketKeys. fold opts. rewrite He, Hl, Hx.
      etrans; [|apply (make_fill_outcome _ _ Hnum)].
      by destruct (make_float64s _).
    + intros Hpos. unfold exponentialBounds. rewrite length_app, length_fmap, length_seqZ.
      simpl. lia.
  - intros buckets. unfold generateHistogramBuckets.
    destruct (histogramBucketKeys dist) as [keys| |] eqn:Hkeys; cbn [mbind result_bind]; try done.
    intros [= <-]. destruct (histogramBucketKeys_last _ _ Hkeys) as [keys' ->].
    destruct (cumulate_last_key (BucketCounts dist) keys' math_Inf_1 0 [] 0) as [v Hv].
    by exists keys', v.
  - intros He Hl Hx. split; [by apply Hnone|].
    intros c ts t p ks vs vt Hvt Hdist. unfold emitSeries. rewrite Hvt. cbn.
    rewrite Hdist. cbn. by rewrite Hnone.
Qed.

End histogram_properties.

Section count_properties.
Context {L : GoLib}.

Lemma uint64_sum_snoc (counts : list Z) (c : Z) :
  uint64_sum (counts ++ [c]) = wrap_uint64 (wrap_uint64 c + uint64_sum counts).
Proof.
  unfold uint64_sum, wrap_uint64. rewrite foldr_app. cbn [foldr].
  assert (Hsum : forall l a, foldr Z.add a l = foldr Z.add 0 l + a).
  { induction l as [|x l IH]; intros a; cbn [foldr]; [lia|]. rewrite IH. lia. }
  rewrite Hsum, Z.add_0_r, (Z.add_comm (foldr Z.add 0 counts)).
  by rewrite <- Zplus_mod.
Qed.

Lemma runningTotal_S_Some (counts : list Z) (i : nat) (c : Z) :
  counts !! i = Some c ->
  runningTotal counts (S i) = wrap_uint64 (wrap_uint64 c + runningTotal counts i).
Proof.
  intros Hc. unfold runningTotal. by rewrite (take_S_r _ _ _ Hc), uint64_sum_snoc.
Qed.

Lemma runningTotal_S_None (counts : list Z) (i : nat) :
  counts !! i = None -> runningTotal counts (S i) = runningTotal counts i.
Proof.
  intros Hc%lookup_ge_None. unfold runningTotal. by rewrite !take_ge by lia.
Qed.

Lemma runningTotal_all (counts : list Z) (n : nat) :
  (length counts <= n)%nat -> runningTotal counts n = uint64_sum counts.
Proof. intros Hn. unfold runningTotal. by rewrite take_ge. Qed.

Lemma bm_load_store_same (m : bucket_map) (k : float) (v : Z) :
  PrimFloat.eqb k k = true -> bm_load (bm_store m k v) k = v.
Proof.
  intros Hk. induction m as [|[k' v'] m IH]; cbn [bm_store bm_load].
  - by rewrite Hk.
  - destruct (PrimFloat.eqb k' k) eqn:Hk'; cbn [bm_load]; by rewrite ?Hk, ?Hk'.
Qed.

(** The counting loop assigns to each boundary the running total through
    its index, as long as no boundary so far was NaN. *)
Lemma cumulate_snoc (counts : list Z) (keys : list float) (k : float) :
  Forall (fun b => PrimFloat.eqb b b = true) keys ->
  forall (i : nat) (buckets : bucket_map),
  exists buckets',
    cumulate counts (keys ++ [k]) i buckets (runningTotal counts i)
    = bm_store buckets' k (runningTotal counts (S (i + length keys))).
Proof.
  induction 1 as [|b keys Hb _ IH]; intros i buckets; cbn [app cumulate length].
  - rewrite Nat.add_0_r. destruct (counts !! i) as [c|] eqn:Hc.
    + eexists. by rewrite (runningTotal_S_Some _ _ _ Hc).
    + eexists. by rewrite (runningTotal_S_None _ _ Hc).
  - rewrite <- Nat.add_succ_comm. destruct (counts !! i) as [c|] eqn:Hc.
    + rewrite bm_load_store_same, <- (runningTotal_S_Some _ _ _ Hc) by done. apply IH.
    + rewrite <- (runningTotal_S_None _ _ Hc). apply IH.
Qed.

Lemma entries_from_app counts keys1 keys2 i :
  entries_from counts (keys1 ++ keys2) i
  = entries_from counts keys1 i ++ entries_from counts keys2 (i + length keys1).
Proof.
  revert i. induction keys1 as [|b keys1 IH]; intros i; cbn [app entries_from length].
  - by rewrite Nat.add_0_r.
  - by rewrite IH, Nat.add_succ_comm.
Qed.

Lemma entries_from_lookup counts keys i0 j e :
  entries_from counts keys i0 !! j = Some e ->
  exists b, keys !! j = Some b /\ e = (b, runningTotal counts (S (i0 + j))).
Proof.
  revert i0 j. induction keys as [|b keys IH]; intros i0 j; cbn [entries_from]; [done|].
  destruct j as [|j]; cbn.
  - intros [= <-]. exists b. by rewrite Nat.add_0_r.
  - intros He. destruct (IH _ _ He) as (b' & ? & ->). exists b'.
    by rewrite Nat.add_succ_comm.
Qed.

Lemma bm_store_fresh (m : bucket_map) (k : float) (v : Z) :
  Forall (fun e => PrimFloat.eqb (fst e) k = false) m -> bm_store m k v = m ++ [(k, v)].
Proof.
  induction 1 as [|[k' v'] m Hk' _ IH]; cbn [bm_store app]; [done|].
  cbn in Hk'. by rewrite Hk', IH.
Qed.

Lemma bm_load_app_fresh (m : bucket_map) (k : float) (v : Z) :
  Forall (fun e => PrimFloat.eqb (fst e) k = false) m ->
  PrimFloat.eqb k k = true ->
  bm_load (m ++ [(k, v)]) k = v.
Proof.
  intros Hm Hk. induction Hm as [|[k' v'] m Hk' _ IH]; cbn [bm_load app].
  - by rewrite Hk.
  - cbn in Hk'. by rewrite Hk'.
Qed.

Lemma cumulate_distinct (counts : list Z) (keys : list float) :
  forall (pre : list float),
  distinct_keys (pre ++ keys) ->
  cumulate counts keys (length pre) (entries_from counts pre 0)
    (runningTotal counts (length pre))
  = entries_from counts (pre ++ keys) 0.
Proof.
  induction keys as [|b keys IH]; intros pre Hdist; cbn [cumulate].
  - by rewrite app_nil_r.
  - assert (Hfresh : Forall (fun e => PrimFloat.eqb (fst e) b = false)
                       (entries_from counts pre 0)).
    { apply Forall_lookup_2. intros j e He.
      destruct (entries_from_lookup _ _ _ _ _ He) as (b' & Hb' & ->). cbn.
      destruct (PrimFloat.eqb b' b) eqn:Heq; [|done].
      destruct (Hdist j (length pre) b' b) as [Hfwd _];
        [by apply lookup_app_l_Some | by apply list_lookup_middle |].
      specialize (Hfwd Heq). apply lookup_lt_Some in Hb'. lia. }
    assert (Hb : PrimFloat.eqb b b = true).
    { apply (Hdist (length pre) (length pre) b b); by try apply list_lookup_middle. }
    assert (Hstep : forall v,
      bm_store (entries_from counts pre 0) b v = entries_from counts pre 0 ++ [(b, v)])
      by (intros; by apply bm_store_fresh).
    specialize (IH (pre ++ [b])). rewrite <- app_assoc in IH. cbn [app] in IH.
    rewrite entries_from_app, length_app, Nat.add_1_r in IH. cbn [entries_from] in IH.
    rewrite Nat.add_0_l in IH.
    destruct (counts !! length pre) as [c|] eqn:Hc.
    + rewrite Hstep, bm_load_app_fresh, <- (runningTotal_S_Some _ _ _ Hc) by done.
      by apply IH.
    + rewrite Hstep, <- (runningTotal_S_None _ _ Hc) at 1.
      rewrite <- (runningTotal_S_None _ _ Hc). by apply IH.
Qed.

Lemma bm_load_entries (counts : list Z) (keys : list float) (i : nat) (b : float) :
  distinct_keys keys -> keys !! i = Some b ->
  bm_load (entries_from counts keys 0) b = runningTotal counts (S i).
Proof.
  intros Hdist Hb.
  assert (Hgen : forall pre rest, keys = pre ++ rest -> (length pre <= i)%nat ->
            bm_load (entries_from counts rest (length pre)) b = runningTotal counts (S i)).
  { intros pre rest. revert pre. induction rest as [|k rest IH]; intros pre -> Hle.
    - rewrite app_nil_r in Hb. apply lookup_lt_Some in Hb. lia.
    - cbn [entries_from bm_load].
      destruct (PrimFloat.eqb k b) eqn:Heq.
      + destruct (Hdist (length pre) i k b) as [Hfwd _];
          [by apply list_lookup_middle | done |].
        specialize (Hfwd Heq). subst i.
        rewrite list_lookup_middle in Hb by done. by simplify_eq.
      + assert (length pre <> i).
        { intros <-. rewrite list_lookup_middle in Hb by done. simplify_eq.
          assert (PrimFloat.eqb b b = true) as Hbb; [|congruence].
          apply (Hdist (length pre) (length pre) b b); by try apply list_lookup_middle. }
        specialize (IH (pre ++ [k])). rewrite length_app, Nat.add_1_r in IH.
        apply IH; [by rewrite <- app_assoc | lia]. }
  apply (Hgen [] keys); [done | simpl; lia].
Qed.

(** C3 (as amended). The counting loop carries a running total over the
    boundaries in index order.  When the boundaries are pairwise
    different map keys, the returned map holds at boundary [i] the source
    count at [i] plus the running total if that count exists, and the
    running total unchanged if the count array is shorter.  When no
    boundary is NaN, the infinite boundary holds the total of the source
    counts at indices below the number of boundaries, which is the total
    of all source counts unless there are more counts than boundaries. *)
Theorem histogram_counts_running_total (dist : Distribution) (keys : list float)
    (buckets : bucket_map) :
  histogramBucketKeys dist = Ok keys ->
  generateHistogramBuckets dist = Ok buckets ->
  let counts := BucketCounts dist in
  (distinct_keys keys ->
     forall i b, keys !! i = Some b ->
       (forall c, counts !! i = Some c ->
          bm_load buckets b = wrap_uint64 (wrap_uint64 c + runningTotal counts i))
       /\ (counts !! i = None -> bm_load buckets b = runningTotal counts i))
  /\ (Forall (fun b => PrimFloat.eqb b b = true) keys ->
        bm_load buckets math_Inf_1 = runningTotal counts (length keys)
        /\ ((length counts <= length keys)%nat ->
              bm_load buckets math_Inf_1 = uint64_sum counts)).
Proof.
  intros Hkeys. unfold generateHistogramBuckets. rewrite Hkeys. cbn [mbind result_bind].
  intros [= <-]. set (counts := BucketCounts dist). split.
  - intros Hdist i b Hb.
    pose proof (cumulate_distinct counts keys [] Hdist) as Hcum.
    cbn [length entries_from app] in Hcum.
    replace (runningTotal counts 0) with 0 in Hcum by done.
    rewrite Hcum, (bm_load_entries _ _ _ _ Hdist Hb). split.
    + intros c Hc. by apply runningTotal_S_Some.
    + intros Hc. by apply runningTotal_S_None.
  - intros Hnan.
    destruct (histogramBucketKeys_last _ _ Hkeys) as [keys' ->].
    apply Forall_app in Hnan as [Hnan' [Hinf _]%Forall_cons].
    destruct (cumulate_snoc counts keys' math_Inf_1 Hnan' 0 []) as [buckets' Hcum].
    replace (runningTotal counts 0) with 0 in Hcum by done.
    rewrite Hcum, bm_load_store_same, length_app, Nat.add_1_r by done.
    split; [done|]. intros Hlen. apply runningTotal_all. simpl in Hlen. lia.
Qed.

End count_properties.

Lemma distinct_keysb_correct (keys : list float) :
  distinct_keysb keys = true -> distinct_keys keys.
Proof.
  induction keys as [|k keys IH]; intros Hb i j a b Hi Hj; [done|].
  cbn [distinct_keysb] in Hb. apply andb_prop in Hb as [[Hk Hfresh]%andb_prop Hrest].
  rewrite forallb_forall in Hfresh.
  destruct i as [|i], j as [|j]; cbn in Hi, Hj; simplify_eq.
  - by rewrite Hk.
  - apply list_elem_of_lookup_2, list_elem_of_In, Hfresh in Hj.
    apply andb_prop in Hj as [Hkb _]. apply negb_true_iff in Hkb. by rewrite Hkb.
  - apply list_elem_of_lookup_2, list_elem_of_In, Hfresh in Hi.
    apply andb_prop in Hi as [_ Hak]. apply negb_true_iff in Hak. by rewrite Hak.
  - rewrite (IH Hrest i j a b Hi Hj). split; [by intros -> | by intros [= ->]].
Qed.

(** Linear buckets with offset 0, width 2 and 3 finite buckets have the
    five boundaries 0, 2, 4, 6 and infinity. *)
Example linear_boundaries :
  histogramBucketKeys (L := Ref.lib) (Ex.linearBuckets 3 0 2 [])
  = Ok [0%float; 2%float; 4%float; 6%float; math_Inf_1].
Proof. vm_compute. reflexivity. Qed.

(** Exponential buckets with scale 1, growth factor 2 and 2 finite
    buckets have the boundaries 1, 2, 4 and infinity. *)
Example exponential_boundaries :
  histogramBucketKeys (L := Ref.lib)
    {| BucketCounts := [];
       dist_BucketOptions :=
         {| ExplicitBuckets := None;
            ExponentialBuckets := Some {| exp_GrowthFactor := 2; exp_NumFiniteBuckets := 2;
                                          exp_Scale := 1 |};
            LinearBuckets := None |} |}
  = Ok [1%float; 2%float; 4%float; math_Inf_1].
Proof. vm_compute. reflexivity. Qed.

(** Linear buckets with offset 0, width 2 and 3 finite buckets: the slice
    of five boundaries can be made, and the boundaries are those of the
    indices 0 to 3 followed by the infinite one. *)
Lemma histogram_boundaries_by_variant_witness :
  histogramBucketKeys (L := Ref.lib) (Ex.linearBuckets 3 0 2 [])
  = Ok (linearBounds {| lin_NumFiniteBuckets := 3; lin_Offset := 0; lin_Width := 2 |}
        ++ [math_Inf_1])
  /\ Z.of_nat (length (linearBounds {| lin_NumFiniteBuckets := 3; lin_Offset := 0;
                                       lin_Width := 2 |} ++ [math_Inf_1]))
     = 3 + 2.
Proof.
  destruct (histogram_boundaries_by_variant (L := Ref.lib) (Ex.linearBuckets 3 0 2 []))
    as (_ & Hlin & _).
  destruct (Hlin {| lin_NumFiniteBuckets := 3; lin_Offset := 0; lin_Width := 2 |}
              eq_refl eq_refl) as [Hkeys Hlen].
  - vm_compute. split; discriminate.
  - split; [exact Hkeys|]. apply Hlen. vm_compute. discriminate.
Defined.

(** With -2 finite buckets the builder sets the last element of an empty
    slice, and with 2^60 it asks for a slice beyond the largest
    allocation: either way it panics, and returns neither boundaries nor
    an error. *)
Lemma histogram_boundaries_counterexample :
  generateHistogramBuckets (L := Ref.lib) (Ex.linearBuckets (-2) 0 1 []) = Panic
  /\ generateHistogramBuckets (L := Ref.lib) (Ex.linearBuckets (2 ^ 60) 0 1 []) = Panic.
Proof. split; vm_compute; reflexivity. Qed.

(** Explicit bounds 1 and 2 with the counts 3, 4 and 5: boundary 2 holds
    3 + 4, the infinite boundary 3 + 4 + 5. *)
Lemma histogram_counts_running_total_witness :
  generateHistogramBuckets (L := Ref.lib) (Ex.explicitBuckets [1%float; 2%float] [3; 4; 5])
  = Ok [(1%float, 3); (2%float, 7); (math_Inf_1, 12)]
  /\ bm_load [(1%float, 3); (2%float, 7); (math_Inf_1, 12)] 2%float
     = wrap_uint64 (wrap_uint64 4 + runningTotal [3; 4; 5] 1)
  /\ bm_load [(1%float, 3); (2%float, 7); (math_Inf_1, 12)] math_Inf_1
     = uint64_sum [3; 4; 5].
Proof.
  assert (Hkeys : histogramBucketKeys (L := Ref.lib)
                    (Ex.explicitBuckets [1%float; 2%float] [3; 4; 5])
                  = Ok [1%float; 2%float; math_Inf_1]) by (vm_compute; reflexivity).
  assert (Hbuckets : generateHistogramBuckets (L := Ref.lib)
                       (Ex.explicitBuckets [1%float; 2%float] [3; 4; 5])
                     = Ok [(1%float, 3); (2%float, 7); (math_Inf_1, 12)])
    by (vm_compute; reflexivity).
  destruct (histogram_counts_running_total (L := Ref.lib) _ _ _ Hkeys Hbuckets)
    as [Hindex Hinf].
  split; [exact Hbuckets|]. split.
  - apply (proj1 (Hindex (distinct_keysb_correct [1%float; 2%float; math_Inf_1] eq_refl)
                    1%nat 2%float eq_refl)).
    reflexivity.
  - apply Hinf; [by repeat constructor | cbn; lia].
Defined.

(** With more source counts than boundaries the infinite boundary does
    not hold the total of all counts (here 1 instead of 1 + 2), and equal
    boundaries share one entry (here boundary 5 at index 0 holds 2, not 1). *)
Lemma histogram_counts_counterexample :
  (generateHistogramBuckets (L := Ref.lib) (Ex.explicitBuckets [] [1; 2])
   = Ok [(math_Inf_1, 1)]
   /\ ~ counts_as_designed (L := Ref.lib) (Ex.explicitBuckets [] [1; 2]) [(math_Inf_1, 1)])
  /\ (generateHistogramBuckets (L := Ref.lib) (Ex.linearBuckets 1 5 0 [1; 1; 1])
      = Ok [(5%float, 2); (math_Inf_1, 3)]
      /\ ~ counts_as_designed (L := Ref.lib) (Ex.linearBuckets 1 5 0 [1; 1; 1])
            [(5%float, 2); (math_Inf_1, 3)]).
Proof.
  split; (split; [vm_compute; reflexivity|]).
  - intros (keys & _ & _ & Hinf). vm_compute in Hinf. discriminate.
  - intros (keys & Hkeys & Hindex & _).
    assert (keys = [5%float; 5%float; math_Inf_1]) as ->
      by (vm_compute in Hkeys; by injection Hkeys as <-).
    specialize (Hindex 0%nat 5%float eq_refl). vm_compute in Hindex. discriminate.
Qed.

(** ** Time series translator *)

Section label_properties.
Context {L : GoLib} {Laws : GoLibLaws L}.

Lemma keyExists_spec (labelKeys : list string) (key : string) :
  keyExists labelKeys key = true <-> key ∈ labelKeys.
Proof.
  induction labelKeys as [|item rest IH]; cbn [keyExists].
  - split; [done|]. intros Hin. by apply elem_of_nil in Hin.
  - rewrite elem_of_cons. destruct (String.eqb_spec item key) as [->|Hne].
    + split; [by left|done].
    + rewrite IH. split; [by right|]. by intros [->|?].
Qed.

Lemma keyExists_false (labelKeys : list string) (key : string) :
  keyExists labelKeys key = false <-> key ∉ labelKeys.
Proof. rewrite <- keyExists_spec. by destruct (keyExists labelKeys key). Qed.

Lemma filter_ext_elem {A} (P Q : A -> Prop) `{!forall x, Decision (P x)}
    `{!forall x, Decision (Q x)} (l : list A) :
  (forall x, x ∈ l -> (P x <-> Q x)) -> filter P l = filter Q l.
Proof.
  induction l as [|x l IH]; intros HPQ; [done|].
  rewrite !filter_cons. rewrite IH by (intros y Hy; apply HPQ; by right).
  assert (HPQx : P x <-> Q x) by (apply HPQ; by left).
  destruct (decide (P x)) as [HP|HP], (decide (Q x)) as [HQ|HQ]; tauto || done.
Qed.

(** One label loop appends, in enumeration order, the entries whose key
    is not yet present. *)
Lemma addLabels_filter (labels : list (string * string)) :
  forall (ks vs : list string),
  NoDup labels.*1 ->
  addLabels labels (ks, vs)
  = (ks ++ (filter (fun kv => kv.1 ∉ ks) labels).*1,
     vs ++ (filter (fun kv => kv.1 ∉ ks) labels).*2).
Proof.
  unfold addLabels.
  induction labels as [|[k v] labels IH]; intros ks vs Hnd; cbn [foldl fst snd].
  - by rewrite !app_nil_r.
  - apply NoDup_cons in Hnd as [Hk Hnd]. cbn [fmap list_fmap fst] in Hk.
    destruct (keyExists ks k) eqn:Hex; cbn [negb].
    + apply keyExists_spec in Hex. rewrite IH by done.
      rewrite filter_cons_False by (cbn; auto). done.
    + apply keyExists_false in Hex. rewrite IH by done.
      rewrite filter_cons_True by done. cbn [fmap list_fmap fst snd].
      rewrite <- !app_assoc. cbn [app].
      assert (Hfilter : filter (fun kv : string * string => kv.1 ∉ ks ++ [k]) labels
                        = filter (fun kv : string * string => kv.1 ∉ ks) labels).
      { apply filter_ext_elem. intros [k' v'] Hin. cbn.
        rewrite not_elem_of_app. split; [tauto|]. intros Hk'. split; [done|].
        intros ->%list_elem_of_singleton. apply Hk.
        apply list_elem_of_fmap. by exists (k, v'). }
      by rewrite Hfilter.
Qed.

Lemma go_range_NoDup {V} (m : gmap string V) : NoDup (go_range m).*1.
Proof. rewrite (go_range_perm V m). apply NoDup_fst_map_to_list. Qed.

Lemma go_range_elem {V} (m : gmap string V) k v : (k, v) ∈ go_range m <-> m !! k = Some v.
Proof. rewrite (go_range_perm V m). apply elem_of_map_to_list. Qed.

Lemma addLabels_map (m seen : gmap string string) (ks vs : list string) :
  labels_ok seen ks vs ->
  exists new vals,
    addLabels (go_range m) (ks, vs) = (ks ++ new, vs ++ vals)
    /\ (forall k, k ∈ new <-> is_Some (m !! k) /\ k ∉ ks)
    /\ labels_ok (seen ∪ m) (ks ++ new) (vs ++ vals).
Proof.
  intros [Hnd Hlen Hkeys Hvals].
  set (fresh := filter (fun kv : string * string => kv.1 ∉ ks) (go_range m)).
  exists fresh.*1, fresh.*2.
  assert (Hfresh : forall k v, (k, v) ∈ fresh <-> m !! k = Some v /\ k ∉ ks).
  { intros k v. unfold fresh. rewrite list_elem_of_filter, go_range_elem. cbn. tauto. }
  assert (Hnew : forall k, k ∈ fresh.*1 <-> is_Some (m !! k) /\ k ∉ ks).
  { intros k. rewrite list_elem_of_fmap. split.
    - intros ([k' v] & -> & Hin). apply Hfresh in Hin as [? ?]. cbn. eauto.
    - intros [[v Hv] Hk]. exists (k, v). split; [done|]. by apply Hfresh. }
  assert (Hndf : NoDup fresh.*1).
  { unfold fresh. eapply NoDup_fmap_fst.
    - intros k v1 v2 [_ H1]%list_elem_of_filter [_ H2]%list_elem_of_filter.
      apply go_range_elem in H1, H2. congruence.
    - apply NoDup_filter. eapply NoDup_fmap_1, go_range_NoDup. }
  split; [by apply addLabels_filter, go_range_NoDup|]. split; [done|]. split.
  - apply NoDup_app. split_and!; [done| |done]. intros k Hk Hk'. apply Hnew in Hk'. tauto.
  - rewrite !length_app, !length_fmap. lia.
  - intros k. rewrite elem_of_app, Hnew, Hkeys, lookup_union_is_Some.
    destruct (decide (is_Some (seen !! k))); tauto.
  - intros i k Hi. apply lookup_app_Some in Hi as [Hi|[Hge Hi]].
    + rewrite lookup_app_l by (rewrite Hlen; by eapply lookup_lt_Some).
      rewrite (Hvals _ _ Hi).
      destruct (proj1 (Hkeys k)) as [v Hv]; [by eapply list_elem_of_lookup_2|].
      rewrite Hv. symmetry. by apply lookup_union_Some_l.
    + rewrite lookup_app_r by (rewrite Hlen; done). rewrite Hlen.
      rewrite list_lookup_fmap in Hi. rewrite list_lookup_fmap.
      destruct (fresh !! (i - length ks)%nat) as [[k' v]|] eqn:Hkv; simplify_eq/=.
      apply list_elem_of_lookup_2, Hfresh in Hkv as [Hm Hk].
      symmetry. rewrite lookup_union_r; [done|].
      apply eq_None_not_Some. by rewrite <- Hkeys.
Qed.

Lemma seriesLabels_unfold (metricDescriptor : MetricDescriptor) (timeSeries : TimeSeries) :
  seriesLabels metricDescriptor timeSeries
  = addLabels (go_range (systemLabelsOf timeSeries))
      (addLabels (go_range (resource_Labels (ts_Resource timeSeries)))
         (addLabels (go_range (metric_Labels (ts_Metric timeSeries)))
            (["unit"%string], [md_Unit metricDescriptor]))).
Proof.
  unfold seriesLabels, systemLabelsOf.
  assert (Hempty : forall acc, addLabels (go_range (∅ : gmap string string)) acc = acc).
  { intros acc. pose proof (go_range_perm _ (∅ : gmap string string)) as Hp.
    rewrite map_to_list_empty in Hp. apply Permutation_nil_r in Hp. by rewrite Hp. }
  destruct (ts_Metadata timeSeries) as [md|]; [|by rewrite Hempty].
  destruct (SystemLabels md) as [raw|]; [|by rewrite Hempty].
  destruct (json_Unmarshal raw); [done|by rewrite Hempty].
Qed.

(** C6. The label keys of a series start with [unit]; then come the
    metric labels, the resource labels and the decoded system labels, a
    key being added only where it is seen first; every key carries the
    value seen first for it. *)
Theorem label_keys_order_and_dedup (metricDescriptor : MetricDescriptor)
    (timeSeries : TimeSeries) :
  exists metricKeys resourceKeys systemKeys,
    let labelKeys := (seriesLabels metricDescriptor timeSeries).1 in
    let labelValues := (seriesLabels metricDescriptor timeSeries).2 in
    labelKeys = "unit"%string :: metricKeys ++ resourceKeys ++ systemKeys
    /\ NoDup labelKeys
    /\ (forall k, k ∈ metricKeys <->
          is_Some (metric_Labels (ts_Metric timeSeries) !! k) /\ k <> "unit"%string)
    /\ (forall k, k ∈ resourceKeys <->
          is_Some (resource_Labels (ts_Resource timeSeries) !! k)
          /\ k ∉ "unit"%string :: metricKeys)
    /\ (forall k, k ∈ systemKeys <->
          is_Some (systemLabelsOf timeSeries !! k)
          /\ k ∉ "unit"%string :: metricKeys ++ resourceKeys)
    /\ length labelValues = length labelKeys
    /\ (forall i k, labelKeys !! i = Some k ->
          labelValues !! i = firstSeen metricDescriptor timeSeries !! k).
Proof.
  rewrite seriesLabels_unfold.
  assert (H0 : labels_ok {[ "unit"%string := md_Unit metricDescriptor ]}
                 ["unit"%string] [md_Unit metricDescriptor]).
  { split.
    - apply NoDup_singleton.
    - done.
    - intros k. rewrite list_elem_of_singleton, lookup_singleton_is_Some. naive_solver.
    - intros [|i] k; [|done]. intros [= <-]. by rewrite lookup_singleton_eq. }
  destruct (addLabels_map (metric_Labels (ts_Metric timeSeries)) _ _ _ H0)
    as (ms & mvs & -> & Hms & H1).
  destruct (addLabels_map (resource_Labels (ts_Resource timeSeries)) _ _ _ H1)
    as (rs & rvs & -> & Hrs & H2).
  destruct (addLabels_map (systemLabelsOf timeSeries) _ _ _ H2)
    as (ss & svs & -> & Hss & [Hnd Hlen _ Hvals]).
  exists ms, rs, ss. cbn [fst snd]. split_and!.
  - by rewrite <- !app_assoc.
  - done.
  - intros k. rewrite Hms, list_elem_of_singleton. done.
  - done.
  - intros k. rewrite Hss. by rewrite <- app_assoc.
  - done.
  - done.
Qed.

End label_properties.

(** The label [zone] occurs among the metric, the resource and the system
    labels of the example series: the metric's value is kept. *)
Example label_dedup_first_seen :
  seriesLabels (L := Ref.lib) (Ex.requests "projects/p1") Ex.series_a
  = (["unit"; "zone"; "project_id"; "region"]%string, ["1"; "a"; "p1"; "eu"]%string).
Proof. vm_compute. reflexivity. Qed.

Lemma label_keys_order_and_dedup_witness :
  exists metricKeys resourceKeys systemKeys,
    let labelKeys := (seriesLabels (L := Ref.lib) (Ex.requests "projects/p1") Ex.series_a).1 in
    let labelValues := (seriesLabels (L := Ref.lib) (Ex.requests "projects/p1") Ex.series_a).2 in
    labelKeys = "unit"%string :: metricKeys ++ resourceKeys ++ systemKeys
    /\ NoDup labelKeys
    /\ (forall k, k ∈ metricKeys <->
          is_Some (metric_Labels (ts_Metric Ex.series_a) !! k) /\ k <> "unit"%string)
    /\ (forall k, k ∈ resourceKeys <->
          is_Some (resource_Labels (ts_Resource Ex.series_a) !! k)
          /\ k ∉ "unit"%string :: metricKeys)
    /\ (forall k, k ∈ systemKeys <->
          is_Some (systemLabelsOf (L := Ref.lib) Ex.series_a !! k)
          /\ k ∉ "unit"%string :: metricKeys ++ resourceKeys)
    /\ length labelValues = length labelKeys
    /\ (forall i k, labelKeys !! i = Some k ->
          labelValues !! i
          = firstSeen (L := Ref.lib) (Ex.requests "projects/p1") Ex.series_a !! k).
Proof.
  exact (label_keys_order_and_dedup (L := Ref.lib) (Laws := ref_laws)
           (Ex.requests "projects/p1") Ex.series_a).
Defined.

Section point_properties.
Context {L : GoLib}.

Lemma scanPoints_spec (points : list Point) :
  Forall (fun p => is_Some (endOf p)) points ->
  forall (t0 : Instant) (p0 : option Point),
  (scanPoints points t0 p0 = Ok (t0, p0)
   /\ forall q tq, q ∈ points -> endOf q = Some tq -> tq <= t0)
  \/ (exists p t, scanPoints points t0 p0 = Ok (t, Some p)
        /\ t0 < t /\ is_newest points p t).
Proof.
  induction 1 as [|pt points [te Hte] _ IH]; intros t0 p0.
  - left. split; [done|]. intros q tq Hq. by apply elem_of_nil in Hq.
  - cbn [scanPoints]. unfold endOf in Hte. rewrite Hte. unfold time_After.
    destruct (Z.ltb_spec t0 te) as [Hlt|Hge].
    + right. destruct (IH te (Some pt)) as [[-> Hall]|(p & t & -> & Hlt' & Hnew)].
      * exists pt, te. split_and!; [done..|]. exists 0%nat. split_and!; [done..|].
        intros [|j] q tq Hq Htq; cbn in Hq.
        -- simplify_eq. unfold endOf in Htq. split; [|lia]. by simplify_eq.
        -- split; [|lia]. eapply Hall; [|done]. by eapply list_elem_of_lookup_2.
      * exists p, t. split_and!; [done|lia|].
        destruct Hnew as (i & Hi & Hend & Hmax). exists (S i). split_and!; [done..|].
        intros [|j] q tq Hq Htq; cbn in Hq.
        -- simplify_eq. unfold endOf in Htq. simplify_eq. lia.
        -- destruct (Hmax _ _ _ Hq Htq). split; [done|lia].
    + destruct (IH t0 p0) as [[-> Hall]|(p & t & -> & Hlt' & Hnew)].
      * left. split; [done|]. intros q tq [->|Hq]%elem_of_cons Htq.
        -- unfold endOf in Htq. by simplify_eq.
        -- by eapply Hall.
      * right. exists p, t. split_and!; [done..|].
        destruct Hnew as (i & Hi & Hend & Hmax). exists (S i). split_and!; [done..|].
        intros [|j] q tq Hq Htq; cbn in Hq.
        -- simplify_eq. unfold endOf in Htq. simplify_eq. lia.
        -- destruct (Hmax _ _ _ Hq Htq). split; [done|lia].
Qed.

Lemma scanPoints_newest (points : list Point) (p0 : option Point) :
  Forall (fun p => is_Some (endOf p)) points ->
  Exists (fun p => exists t, endOf p = Some t /\ time_Unix_0_0 < t) points ->
  exists p t, scanPoints points time_Unix_0_0 p0 = Ok (t, Some p) /\ is_newest points p t.
Proof.
  intros Hparse Hex.
  destruct (scanPoints_spec points Hparse time_Unix_0_0 p0)
    as [[_ Hall]|(p & t & ? & _ & ?)]; [|by eauto].
  apply Exists_exists in Hex as (q & Hq & tq & Htq & Hlt).
  specialize (Hall _ _ Hq Htq). lia.
Qed.

Lemma is_newest_unique (points points' : list Point) (p p' : Point) (t t' : Instant) :
  points' ≡ₚ points ->
  NoDup (endOf <$> points) ->
  is_newest points p t -> is_newest points' p' t' -> p' = p /\ t' = t.
Proof.
  intros Hperm Hnd (i & Hi & Hend & Hmax) (i' & Hi' & Hend' & Hmax').
  assert (Hin' : p' ∈ points) by (rewrite <- Hperm; by eapply list_elem_of_lookup_2).
  assert (Hin : p ∈ points') by (rewrite Hperm; by eapply list_elem_of_lookup_2).
  apply list_elem_of_lookup in Hin' as [j Hj], Hin as [j' Hj'].
  destruct (Hmax _ _ _ Hj Hend') as [Hle _], (Hmax' _ _ _ Hj' Hend) as [Hle' _].
  assert (t' = t) as -> by lia. split; [|done].
  assert (i = j); [|by simplify_eq].
  eapply NoDup_lookup; [done|..]; rewrite list_lookup_fmap.
  - by rewrite Hi; cbn; rewrite Hend.
  - by rewrite Hj; cbn; rewrite Hend'.
Qed.

Lemma emitSeries_exposes c timeSeries t point labelKeys labelValues metricValueType e :
  emitSeries c timeSeries t (Some point) labelKeys labelValues metricValueType = Ok (Some e) ->
  exposes (ts_ValueType timeSeries) e t point.
Proof.
  unfold emitSeries, exposes, scalarOf. cbn [deref mbind result_bind].
  destruct (String.eqb (ts_ValueType timeSeries) "BOOL").
  { destruct (BoolValue (Value point)); cbn; intros; by simplify_eq. }
  destruct (String.eqb (ts_ValueType timeSeries) "INT64").
  { destruct (Int64Value (Value point)); cbn; intros; by simplify_eq. }
  destruct (String.eqb (ts_ValueType timeSeries) "DOUBLE").
  { destruct (DoubleValue (Value point)); cbn; intros; by simplify_eq. }
  destruct (String.eqb (ts_ValueType timeSeries) "DISTRIBUTION"); [|done].
  destruct (DistributionValue (Value point)) as [dist|]; cbn; [|done].
  destruct (generateHistogramBuckets dist); intros; by simplify_eq.
Qed.

Lemma emitSeries_scalar c timeSeries t newest labelKeys labelValues metricValueType
    ts' t' ks' vt' v vs' mk :
  emitSeries c timeSeries t newest labelKeys labelValues metricValueType
  = Ok (Some (CollectNewConstMetric ts' t' ks' vt' v vs' mk)) ->
  vt' = metricValueType /\ mk = ts_MetricKind timeSeries.
Proof.
  unfold emitSeries.
  destruct (String.eqb (ts_ValueType timeSeries) "BOOL").
  { destruct newest as [p|]; cbn; [|done].
    destruct (BoolValue (Value p)); cbn; intros; by simplify_eq. }
  destruct (String.eqb (ts_ValueType timeSeries) "INT64").
  { destruct newest as [p|]; cbn; [|done].
    destruct (Int64Value (Value p)); cbn; intros; by simplify_eq. }
  destruct (String.eqb (ts_ValueType timeSeries) "DOUBLE").
  { destruct newest as [p|]; cbn; [|done].
    destruct (DoubleValue (Value p)); cbn; intros; by simplify_eq. }
  destruct (String.eqb (ts_ValueType timeSeries) "DISTRIBUTION"); [|done].
  destruct newest as [p|]; cbn; [|done].
  destruct (DistributionValue (Value p)) as [dist|]; cbn; [|done].
  destruct (generateHistogramBuckets dist); intros; by simplify_eq.
Qed.

Lemma translateSeries_newest c metricDescriptor prev timeSeries t newest np e :
  scanPoints (ts_Points timeSeries) time_Unix_0_0 prev = Ok (t, newest) ->
  translateSeries c metricDescriptor prev timeSeries = Ok (np, e) ->
  np = newest
  /\ forall call, e = Some call ->
       exists vt, emitSeries c timeSeries t newest (seriesLabels metricDescriptor timeSeries).1
                    (seriesLabels metricDescriptor timeSeries).2 vt = Ok (Some call)
                  /\ metricValueTypeOf (aggregateDeltas c) (ts_MetricKind timeSeries) = Some vt.
Proof.
  intros Hscan. unfold translateSeries. rewrite Hscan. cbn [mbind result_bind].
  destruct (seriesLabels metricDescriptor timeSeries) as [ks vs]. cbn [fst snd].
  destruct (_ && _); [intros; by simplify_eq|].
  destruct (metricValueTypeOf _ _) as [vt|]; [|intros; by simplify_eq].
  destruct (emitSeries _ _ _ _ _ _ _) as [e'| |] eqn:Hemit; cbn; [|done..].
  intros [= <- <-]. split; [done|]. intros call ->. by exists vt.
Qed.

(** C5 (as amended). For a series whose points all have an interval end
    that parses, at least one of them after the Unix epoch, the value the
    series exposes comes from the first point with the latest interval
    end, and the reported time is that end, whatever was selected for an
    earlier series of the page.  Listing the points in another order
    selects the same point when the interval ends are pairwise different. *)
Theorem newest_point_exposed (c : MonitoringCollector) (metricDescriptor : MetricDescriptor)
    (prev : option Point) (timeSeries : TimeSeries) :
  Forall (fun p => is_Some (endOf p)) (ts_Points timeSeries) ->
  Exists (fun p => exists t, endOf p = Some t /\ time_Unix_0_0 < t) (ts_Points timeSeries) ->
  exists point t,
    is_newest (ts_Points timeSeries) point t
    /\ (forall np e, translateSeries c metricDescriptor prev timeSeries = Ok (np, e) ->
          np = Some point
          /\ forall call, e = Some call -> exposes (ts_ValueType timeSeries) call t point)
    /\ (forall points' point' t',
          points' ≡ₚ ts_Points timeSeries ->
          NoDup (endOf <$> ts_Points timeSeries) ->
          is_newest points' point' t' -> point' = point /\ t' = t).
Proof.
  intros Hparse Hafter.
  destruct (scanPoints_newest _ prev Hparse Hafter) as (point & t & Hscan & Hnew).
  exists point, t. split_and!; [done| |].
  - intros np e Htr. destruct (translateSeries_newest _ _ _ _ _ _ _ _ Hscan Htr) as [-> Hcall].
    split; [done|]. intros call ->. destruct (Hcall _ eq_refl) as (vt & Hemit & _).
    by eapply emitSeries_exposes.
  - intros points' point' t' Hperm Hnd Hnew'. by eapply is_newest_unique.
Qed.

(** C7. The metric kind of a series decides the kind of its sample:
    GAUGE gives a gauge, CUMULATIVE a counter, DELTA a counter when deltas
    are aggregated and a gauge otherwise.  A series of any other kind is
    skipped: no call is made for it and the page loop goes on with the
    next series. *)
Theorem metric_kind_mapping (c : MonitoringCollector) (metricDescriptor : MetricDescriptor)
    (prev : option Point) (timeSeries : TimeSeries) :
  let kind := ts_MetricKind timeSeries in
  let exposition := metricValueTypeOf (aggregateDeltas c) kind in
  (kind = "GAUGE"%string -> exposition = Some GaugeValue)
  /\ (kind = "CUMULATIVE"%string -> exposition = Some CounterValue)
  /\ (kind = "DELTA"%string ->
        exposition = Some (if aggregateDeltas c then CounterValue else GaugeValue))
  /\ (kind <> "GAUGE"%string -> kind <> "CUMULATIVE"%string -> kind <> "DELTA"%string ->
        exposition = None
        /\ forall t newest,
             scanPoints (ts_Points timeSeries) time_Unix_0_0 prev = Ok (t, newest) ->
             translateSeries c metricDescriptor prev timeSeries = Ok (newest, None)
             /\ forall rest,
                  translatePage c metricDescriptor (timeSeries :: rest) prev
                  = translatePage c metricDescriptor rest newest)
  /\ (forall np ts' reportTime labelKeys metricValueType metricValue labelValues metricKind,
        translateSeries c metricDescriptor prev timeSeries
        = Ok (np, Some (CollectNewConstMetric ts' reportTime labelKeys metricValueType
                          metricValue labelValues metricKind)) ->
        exposition = Some metricValueType /\ metricKind = kind).
Proof.
  intros kind exposition. subst exposition. unfold metricValueTypeOf. split_and!.
  - by intros ->.
  - by intros ->.
  - intros ->. cbn. by destruct (aggregateDeltas c).
  - intros Hg Hc Hd.
    apply String.eqb_neq in Hg, Hc, Hd. rewrite Hg, Hc, Hd.
    split; [done|]. intros t newest Hscan.
    assert (Htr : translateSeries c metricDescriptor prev timeSeries = Ok (newest, None)).
    { unfold translateSeries. rewrite Hscan. cbn [mbind result_bind].
      destruct (seriesLabels _ _). destruct (_ && _); [done|].
      fold kind. unfold metricValueTypeOf. by rewrite Hg, Hc, Hd. }
    split; [done|]. intros rest. cbn [translatePage]. rewrite Htr. cbn.
    by destruct (translatePage _ _ _ _).
  - intros np ts' t ks vt v vs mk Htr.
    destruct (scanPoints (ts_Points timeSeries) time_Unix_0_0 prev) as [[t0 newest]| |] eqn:Hscan.
    2,3: unfold translateSeries in Htr; by rewrite Hscan in Htr.
    destruct (translateSeries_newest _ _ _ _ _ _ _ _ Hscan Htr) as [_ Hcall].
    destruct (Hcall _ eq_refl) as (vt' & Hemit & Hkind).
    fold kind in Hkind. unfold metricValueTypeOf in Hkind. rewrite Hkind.
    destruct (emitSeries_scalar _ _ _ _ _ _ _ _ _ _ _ _ _ _ Hemit) as [-> ->]. done.
Qed.

End point_properties.

(** Points ending at t1, t3 and t2 with the values 1, 3 and 2: the series
    exposes 3, at t3. *)
Example newest_of_three :
  reportTimeSeriesMetrics (L := Ref.lib) Ex.collector None [Ex.series_unordered]
    (Ex.requests "projects/p1")
  = ([CollectNewConstMetric Ex.series_unordered 1709251203000000000
        ["unit"; "zone"; "project_id"; "region"]%string GaugeValue 3
        ["1"; "d"; "p1"; "eu"]%string "GAUGE"], Ok tt).
Proof. vm_compute. reflexivity. Qed.

Lemma newest_point_exposed_witness :
  exists point t,
    is_newest (L := Ref.lib) (ts_Points Ex.series_unordered) point t
    /\ (forall np e,
          translateSeries (L := Ref.lib) Ex.collector (Ex.requests "projects/p1")
            (Some Ex.point_5) Ex.series_unordered = Ok (np, e) ->
          np = Some point
          /\ forall call, e = Some call ->
               exposes (ts_ValueType Ex.series_unordered) call t point)
    /\ (forall points' point' t',
          points' ≡ₚ ts_Points Ex.series_unordered ->
          NoDup (endOf (L := Ref.lib) <$> ts_Points Ex.series_unordered) ->
          is_newest (L := Ref.lib) points' point' t' -> point' = point /\ t' = t).
Proof.
  apply (newest_point_exposed (L := Ref.lib) Ex.collector (Ex.requests "projects/p1")
           (Some Ex.point_5) Ex.series_unordered).
  - repeat (apply Forall_cons; split; [eexists; vm_compute; reflexivity|]).
    apply Forall_nil_2.
  - apply Exists_cons_hd. exists 1709251201000000000.
    split; [vm_compute; reflexivity | reflexivity].
Defined.

(** A series whose only point ends at the Unix epoch, after a series
    exposing 5: it exposes 5 again, which none of its points holds. *)
Lemma newest_point_counterexample :
  translateSeries (L := Ref.lib) Ex.collector (Ex.requests "projects/p1")
    (Some Ex.point_5) Ex.series_epoch
  = Ok (Some Ex.point_5,
        Some (CollectNewConstMetric Ex.series_epoch time_Unix_0_0
                ["unit"; "zone"; "project_id"; "region"]%string GaugeValue 5
                ["1"; "c"; "p1"; "eu"]%string "GAUGE"))
  /\ ts_Points Ex.series_epoch <> []
  /\ Forall (fun p => is_Some (endOf (L := Ref.lib) p)) (ts_Points Ex.series_epoch)
  /\ Forall (fun p => scalarOf "INT64" p <> Some 5%float) (ts_Points Ex.series_epoch).
Proof.
  split_and!.
  - vm_compute. reflexivity.
  - discriminate.
  - apply Forall_cons. split; [eexists; vm_compute; reflexivity | apply Forall_nil_2].
  - apply Forall_cons. split; [vm_compute; discriminate | apply Forall_nil_2].
Qed.

(** A series without points leaves the selection where the previous
    series left it and reports the epoch: whatever call it makes is made
    with the previous series' point. *)
Lemma translateSeries_no_points {L : GoLib} (c : MonitoringCollector)
    (metricDescriptor : MetricDescriptor) (prev : option Point) (timeSeries : TimeSeries)
    (metricValueType : ValueType) :
  ts_Points timeSeries = [] ->
  metricValueTypeOf (aggregateDeltas c) (ts_MetricKind timeSeries) = Some metricValueType ->
  monitoringDropDelegatedProjects c = false ->
  translateSeries c metricDescriptor prev timeSeries
  = (e ← emitSeries c timeSeries time_Unix_0_0 prev
           (seriesLabels metricDescriptor timeSeries).1
           (seriesLabels metricDescriptor timeSeries).2 metricValueType;
     Ok (prev, e)).
Proof.
  intros Hpoints Hkind Hdrop. unfold translateSeries.
  rewrite Hpoints, Hkind, Hdrop. cbn [scanPoints mbind result_bind andb].
  by destruct (seriesLabels metricDescriptor timeSeries).
Qed.

(** C1. On a page whose second series has no points, the collector does
    not skip that series: it decodes the point selected for the series
    before it and makes a call with that value and the epoch as time.
    When no earlier series selected a point, it dereferences a nil
    pointer.  (The design says such a series is skipped.) *)
Theorem empty_points_series_not_skipped :
  reportTimeSeriesMetrics (L := Ref.lib) Ex.collector None [Ex.series_a; Ex.series_empty]
    (Ex.requests "projects/p1")
  = ([CollectNewConstMetric Ex.series_a 1709251205000000000
        ["unit"; "zone"; "project_id"; "region"]%string GaugeValue 5
        ["1"; "a"; "p1"; "eu"]%string "GAUGE";
      CollectNewConstMetric Ex.series_empty time_Unix_0_0
        ["unit"; "zone"; "project_id"; "region"]%string GaugeValue 5
        ["1"; "b"; "p1"; "eu"]%string "GAUGE"], Ok tt)
  /\ reportTimeSeriesMetrics (L := Ref.lib) Ex.collector None [Ex.series_empty]
       (Ex.requests "projects/p1")
     = ([], Panic).
Proof. split; vm_compute; reflexivity. Qed.

(** ** Scrape orchestrator *)

Local Open Scope nat_scope.

Section fanout_properties.
Variable units : list (list action).
Hypothesis one_send : Forall (fun script => count_sends script <= 1) units.

Lemma count_sends_cons (a : action) (script : list action) :
  count_sends (a :: script) = (if is_send a then 1 else 0) + count_sends script.
Proof.
  unfold count_sends. rewrite filter_cons.
  destruct (is_send a); case_decide; done.
Qed.

Lemma count_sends_app (s1 s2 : list action) :
  count_sends (s1 ++ s2) = count_sends s1 + count_sends s2.
Proof. unfold count_sends. by rewrite filter_app, length_app. Qed.

Lemma pending_le_length (ths : list (list action)) :
  Forall (fun script => count_sends script <= 1) ths -> pending ths <= length ths.
Proof.
  unfold pending. induction 1 as [|t ths Ht _ IH]; cbn; lia.
Qed.

Lemma pending_insert (ths : list (list action)) (i : nat) (old new : list action) :
  ths !! i = Some old ->
  pending (<[i := new]> ths) + count_sends old = pending ths + count_sends new.
Proof.
  unfold pending. revert i. induction ths as [|t ths IH]; intros [|i] Hi; simplify_eq/=.
  - lia.
  - specialize (IH _ Hi). lia.
Qed.

Lemma thread_trace_snoc (i j : nat) (tr : list (nat * action)) (a : action) :
  thread_trace j (tr ++ [(i, a)])
  = thread_trace j tr ++ (if decide (i = j) then [a] else []).
Proof.
  unfold thread_trace. rewrite filter_app, fmap_app. f_equal.
  rewrite filter_cons, filter_nil. cbn. by destruct (decide (i = j)).
Qed.

Lemma sends_snoc (tr : list (nat * action)) (i : nat) (a : action) :
  sends (tr ++ [(i, a)])
  = sends tr ++ match a with Send err => [err] | _ => [] end.
Proof. unfold sends. rewrite omap_app. f_equal. by destruct a. Qed.

Lemma fanout_inv_init : fanout_inv units (fanout_init units).
Proof.
  split; cbn [fanout_init threads chan cap trace main]; try done.
  - intros i script Hi. by exists script.
  - cbn. by apply pending_le_length.
Qed.

Lemma Forall_nil_lookup (ths : list (list action)) (i : nat) (a : action) (rest : list action) :
  Forall (fun t => t = []) ths -> ths !! i = Some (a :: rest) -> False.
Proof. intros Hall Hi. eapply Forall_lookup_1 in Hall; [|done]. done. Qed.

Lemma step_thread_inv (i : nat) (st : fanout) :
  fanout_inv units st -> fanout_inv units (step_thread i st).
Proof.
  intros Hinv. unfold step_thread.
  destruct (main st) eqn:Hmain; try done;
    destruct (threads st !! i) as [[|a rest]|] eqn:Hi; try done.
  2,3: destruct Hinv as [_ _ _ _ _ Hm]; rewrite Hmain in Hm;
       exfalso; eapply Forall_nil_lookup; [apply Hm|done].
  assert (Hgen : forall ch m,
    ch = chan st ++ match a with Send err => [err] | _ => [] end ->
    length ch + pending (<[i := rest]> (threads st)) <= cap st ->
    m = Waiting \/ m = Crashed ->
    fanout_inv units {| threads := <[i := rest]> (threads st); chan := ch; cap := cap st;
                        trace := trace st ++ [(i, a)]; main := m |}).
  { intros ch m -> Hroom Hm. destruct Hinv as [Hcap Hlen Hscript Hchan _ _].
    split; cbn [threads chan cap trace main].
    - done.
    - by rewrite length_insert.
    - intros j script Hj. destruct (Hscript _ _ Hj) as (rest' & Hj' & ->).
      rewrite thread_trace_snoc. destruct (decide (i = j)) as [->|Hne].
      + rewrite list_lookup_insert_eq by (by eapply lookup_lt_Some).
        exists rest. split; [done|]. rewrite <- app_assoc. by simplify_eq.
      + rewrite list_lookup_insert_ne by done. exists rest'. by rewrite app_nil_r.
    - by rewrite sends_snoc, Hchan.
    - done.
    - by destruct Hm as [-> | ->]. }
  pose proof (pending_insert _ _ _ rest Hi) as Hpend.
  pose proof (inv_room _ _ Hinv) as Hroom.
  rewrite count_sends_cons in Hpend.
  destruct a; cbn [is_send] in Hpend.
  1,2,4: apply Hgen; [by rewrite ?app_nil_r | lia | by left].
  - case_bool_decide as Hfull.
    + apply Hgen; [done | rewrite length_app; cbn; lia | by left].
    + done.
  - apply Hgen; [by rewrite app_nil_r | lia | by right].
Qed.

Lemma step_main_inv (st : fanout) : fanout_inv units st -> fanout_inv units (step_main st).
Proof.
  intros Hinv. unfold step_main. destruct (main st) eqn:Hmain; try done.
  - destruct (forallb _ _) eqn:Hall; [|done].
    destruct Hinv. split; cbn; try done.
    apply Forall_forall. intros t Ht. rewrite forallb_forall in Hall.
    apply list_elem_of_In in Ht. specialize (Hall _ Ht). by apply bool_decide_eq_true in Hall.
  - destruct Hinv as [? ? ? ? ? Hm]. rewrite Hmain in Hm. by split; cbn.
Qed.

Lemma run_inv (sched : list nat) : forall st,
  fanout_inv units st -> fanout_inv units (run st sched).
Proof.
  unfold run. induction sched as [|k sched IH]; intros st Hinv; cbn; [done|].
  apply IH. destruct k; [by apply step_main_inv | by apply step_thread_inv].
Qed.

Lemma run_cons (st : fanout) (k : nat) (sched : list nat) :
  run st (k :: sched) = run (step st k) sched.
Proof. done. Qed.

Lemma run_app (st : fanout) (s1 s2 : list nat) : run st (s1 ++ s2) = run (run st s1) s2.
Proof. unfold run. apply foldl_app. Qed.

(** Safety: when the main goroutine has returned, every goroutine has
    done its whole script, and the returned error is the first one sent. *)
Lemma fanout_returned (st : fanout) (r : option string) :
  fanout_inv units st -> main st = Returned r ->
  (forall i script, units !! i = Some script -> thread_trace i (trace st) = script)
  /\ chan st = sends (trace st)
  /\ r = head (chan st).
Proof.
  intros [_ _ Hscript Hchan _ Hm] Hmain. rewrite Hmain in Hm. destruct Hm as [Hall ->].
  split_and!; [|done..]. intros i script Hi.
  destruct (Hscript _ _ Hi) as (rest & Hrest & ->).
  eapply Forall_lookup_1 in Hall; [|done]. by rewrite Hall, app_nil_r.
Qed.

(** A send never finds the buffer full. *)
Lemma fanout_send_has_room (st : fanout) (i : nat) (err : string) (rest : list action) :
  fanout_inv units st -> threads st !! i = Some (Send err :: rest) ->
  length (chan st) < cap st.
Proof.
  intros Hinv Hi. pose proof (inv_room _ _ Hinv) as Hroom.
  pose proof (pending_insert _ _ _ rest Hi) as Hpend.
  rewrite count_sends_cons in Hpend. cbn in Hpend. lia.
Qed.

Lemma step_crashed (st : fanout) (k : nat) : main st = Crashed -> step st k = st.
Proof. intros Hm. destruct k; cbn; unfold step_main, step_thread; by rewrite Hm. Qed.

Lemma run_crashed (sched : list nat) (st : fanout) :
  main st = Crashed -> run st sched = st.
Proof.
  unfold run. induction sched as [|k sched IH]; intros Hm; cbn; [done|].
  by rewrite step_crashed, IH.
Qed.

Lemma step_thread_other (i j : nat) (st : fanout) :
  i <> j -> threads (step_thread i st) !! j = threads st !! j.
Proof.
  intros Hne. unfold step_thread. destruct (main st); try done;
    destruct (threads st !! i) as [[|a rest]|]; try done;
    destruct a; try case_bool_decide; cbn; by rewrite ?list_lookup_insert_ne.
Qed.

Lemma step_thread_progress (i : nat) (st : fanout) (a : action) (rest : list action) :
  fanout_inv units st -> main st <> Crashed -> threads st !! i = Some (a :: rest) ->
  threads (step_thread i st) !! i = Some rest.
Proof.
  intros Hinv Hmain Hi. unfold step_thread.
  assert (Hlt : i < length (threads st)) by (by eapply lookup_lt_Some).
  destruct (main st); try done; rewrite Hi; destruct a; cbn;
    try (by rewrite list_lookup_insert_eq).
  all: pose proof (fanout_send_has_room _ _ _ _ Hinv Hi);
    rewrite bool_decide_eq_true_2 by done; cbn; by rewrite list_lookup_insert_eq.
Qed.

Lemma step_thread_done (i : nat) (st : fanout) :
  threads st !! i = Some [] -> step_thread i st = st.
Proof. intros Hi. unfold step_thread. rewrite Hi. by destruct (main st). Qed.

(** Goroutine [i], scheduled as often as it has actions left, reaches
    its end; the others are where they were. *)
Lemma run_thread_drains (i n : nat) : forall (st : fanout) (l : list action),
  fanout_inv units st -> threads st !! i = Some l -> length l <= n ->
  (main (run st (replicate n (S i))) = Crashed
   \/ threads (run st (replicate n (S i))) !! i = Some [])
  /\ (main st = Crashed -> main (run st (replicate n (S i))) = Crashed)
  /\ (forall j, j <> i -> threads (run st (replicate n (S i))) !! j = threads st !! j).
Proof.
  induction n as [|n IH]; intros st l Hinv Hi Hlen; cbn [replicate].
  - destruct l; [|cbn in Hlen; lia]. by split_and!; [right|..].
  - rewrite run_cons.
    assert (Hdec : main st = Crashed \/ main st <> Crashed)
      by (destruct (main st); (by left) || (by right)).
    destruct Hdec as [Hc|Hc].
    { rewrite step_crashed, run_crashed by done. by split_and!; [left|..]. }
    destruct l as [|a rest].
    { cbn [step]. rewrite step_thread_done by done. by apply (IH st []); [..|cbn; lia]. }
    pose proof (step_thread_progress _ _ _ _ Hinv Hc Hi) as Hstep.
    destruct (IH (step_thread i st) rest) as (Hdone & _ & Hother);
      [by apply step_thread_inv | done | cbn in Hlen; lia |].
    cbn [step]. split_and!; [done|done|]. intros j Hj. rewrite Hother by done.
    by apply step_thread_other.
Qed.

Lemma finish_from_drains (rest : list (list action)) : forall (i : nat) (st : fanout),
  drop i units = rest ->
  fanout_inv units st ->
  (main st = Crashed \/ forall j, j < i -> threads st !! j = Some []) ->
  main (run st (finish_from i rest)) = Crashed
  \/ forall j, j < length units -> threads (run st (finish_from i rest)) !! j = Some [].
Proof.
  induction rest as [|script rest IH]; intros i st Hdrop Hinv Hdone; cbn [finish_from].
  - destruct Hdone as [?|Hdone]; [by left|right]. intros j Hj. apply Hdone.
    apply (f_equal length) in Hdrop. rewrite length_drop in Hdrop. cbn in Hdrop. lia.
  - rewrite run_app.
    assert (Hi : units !! i = Some script).
    { rewrite <- (Nat.add_0_r i), <- lookup_drop, Hdrop. done. }
    destruct (inv_script _ _ Hinv _ _ Hi) as (l & Hl & Hscript).
    destruct (run_thread_drains i (length script) st l Hinv Hl) as (Hd & Hc & Hother).
    { rewrite Hscript, length_app. lia. }
    apply IH.
    + rewrite (drop_S _ _ _ Hi) in Hdrop. by simplify_eq.
    + by apply run_inv.
    + destruct Hd as [?|Hd]; [by left|]. destruct Hdone as [?|Hdone]; [left; by apply Hc|].
      right. intros j Hj. destruct (decide (j = i)) as [->|Hne]; [done|].
      rewrite Hother by done. apply Hdone. lia.
Qed.

(** Liveness: every complete execution ends with the main goroutine back,
    unless a goroutine panicked. *)
Lemma run_to_end_returns (sched : list nat) :
  let st := run_to_end units sched in
  fanout_inv units st /\ (main st = Crashed \/ exists r, main st = Returned r).
Proof.
  unfold run_to_end, finish_schedule. rewrite !run_app.
  set (st0 := run (fanout_init units) sched).
  assert (Hinv0 : fanout_inv units st0) by apply run_inv, fanout_inv_init.
  set (st1 := run st0 (finish_from 0 units)).
  assert (Hinv1 : fanout_inv units st1) by by apply run_inv.
  split; [by apply run_inv|].
  destruct (finish_from_drains units 0 st0) as [Hc|Hdone]; [done..|right; lia| |].
  { left. fold st1 in Hc. by rewrite run_crashed. }
  fold st1 in Hdone.
  assert (Hall : forallb (fun t => bool_decide (t = [])) (threads st1) = true).
  { apply forallb_forall. intros t [j Hj]%list_elem_of_In%list_elem_of_lookup.
    rewrite Hdone in Hj by (rewrite <- (inv_len _ _ Hinv1); by eapply lookup_lt_Some).
    simplify_eq. by apply bool_decide_eq_true. }
  rewrite !run_cons. cbn [run foldl step].
  destruct (main st1) eqn:Hm.
  - right. unfold step_main at 2. rewrite Hm, Hall. unfold step_main. cbn. eauto.
  - right. unfold step_main at 2. rewrite Hm. unfold step_main. cbn. eauto.
  - right. unfold step_main. rewrite Hm. cbn. rewrite Hm. eauto.
  - left. unfold step_main. rewrite Hm. cbn. by rewrite Hm.
Qed.

End fanout_properties.

Section orchestrator_properties.
Context {L : GoLib}.
Context {C : Type} `{DescriptorCache C}.

Lemma count_sends_nil : count_sends [] = 0.
Proof. done. Qed.

Lemma count_sends_emits (es : list emission) : count_sends (Emit <$> es) = 0.
Proof. induction es as [|e es IH]; [done|]. cbn [fmap list_fmap]. by rewrite count_sends_cons. Qed.

Lemma count_sends_actions_of (st : fanout) : count_sends (actions_of st) = 0.
Proof.
  unfold actions_of. induction (snd <$> trace st) as [|a l IH]; [done|].
  rewrite filter_cons. case_decide as Ha; [|done].
  by rewrite count_sends_cons, Ha.
Qed.

Lemma fetchPages_one_send c env metricDescriptor q (pages : TimeSeriesPages) :
  forall pageToken, count_sends (fetchPages c env metricDescriptor q pageToken pages) <= 1.
Proof.
  induction pages as [err| |series token next IH]; intros pageToken;
    cbn [fetchPages]; rewrite count_sends_cons; cbn [is_send].
  - rewrite count_sends_cons. cbn. lia.
  - cbn. lia.
  - destruct (reportTimeSeriesMetrics _ _ _ _) as [es r].
    rewrite count_sends_app, count_sends_emits.
    destruct r; [|rewrite count_sends_cons; cbn; lia..].
    destruct (String.eqb token ""); [cbn; lia|]. apply IH.
Qed.

Lemma descriptorUnit_one_send c env metricDescriptor startTime endTime :
  count_sends (descriptorUnit c env metricDescriptor startTime endTime) <= 1.
Proof.
  unfold descriptorUnit. destruct (queryWindow _ _ _ _) as [[? ?]|].
  - apply fetchPages_one_send.
  - rewrite count_sends_cons. cbn. lia.
Qed.

Lemma descriptorUnits_one_send c env now descriptors :
  Forall (fun script => count_sends script <= 1) (descriptorUnits c env now descriptors).
Proof.
  unfold descriptorUnits. apply Forall_fmap, Forall_forall. intros kv _.
  apply descriptorUnit_one_send.
Qed.

Lemma listPages_one_send c env prefix (pages : DescriptorPages) :
  forall n cache, count_sends (listPages c env prefix n pages cache).1.1 <= 1.
Proof.
  induction pages as [err|descriptors token next IH]; intros n cache; cbn [listPages].
  - cbn [fst]. rewrite count_sends_cons. cbn. lia.
  - destruct (main _) as [| |[err|]|]; cbn [fst];
      rewrite ?count_sends_app, ?count_sends_actions_of, ?count_sends_cons; cbn; try lia.
    destruct (String.eqb token ""); cbn [fst]; [rewrite count_sends_actions_of; lia|].
    specialize (IH (S n) (cache ++ descriptors)).
    destruct (listPages _ _ _ _ _ _) as [[acts cache'] back]. cbn [fst] in *.
    rewrite count_sends_app, count_sends_actions_of. lia.
Qed.

Lemma prefixUnit_one_send c env (cache : C) now metricsTypePrefix :
  count_sends (prefixUnit c env cache now metricsTypePrefix) <= 1.
Proof.
  unfold prefixUnit. destruct (Lookup cache now metricsTypePrefix).
  - rewrite count_sends_app, count_sends_actions_of.
    destruct (main _) as [| |[err|]|]; rewrite ?count_sends_cons; cbn; lia.
  - pose proof (listPages_one_send c env metricsTypePrefix
                  (ListMetricDescriptors env (descriptorFilter c metricsTypePrefix)) 0 []) as Hone.
    destruct (listPages _ _ _ _ _ _) as [[acts data] back]. cbn [fst] in Hone.
    destruct back; [|done]. rewrite count_sends_app, count_sends_cons. cbn. lia.
Qed.

Lemma prefixUnits_one_send c env (cache : C) now :
  Forall (fun script => count_sends script <= 1)
    (prefixUnit c env cache now <$> metricsTypePrefixes c).
Proof. apply Forall_fmap, Forall_forall. intros p _. apply prefixUnit_one_send. Qed.

Lemma run_to_end_waits (units : list (list action)) (sched : list nat) :
  Forall (fun script => count_sends script <= 1) units ->
  waits_and_returns_first_error units (run_to_end units sched).
Proof.
  intros Hone. destruct (run_to_end_returns units Hone sched) as [Hinv Hmain].
  split; [done|]. intros r Hr. by apply (fanout_returned units).
Qed.


Lemma fetchPages_query c env metricDescriptor q (pages : TimeSeriesPages) :
  forall pageToken q' pageToken',
  Fetch q' pageToken' ∈ fetchPages c env metricDescriptor q pageToken pages -> q' = q.
Proof.
  induction pages as [err| |series token next IH]; intros pageToken q' pageToken';
    cbn [fetchPages]; intros [Heq|Hin]%elem_of_cons; try by simplify_eq.
  - by apply list_elem_of_singleton in Hin.
  - by apply elem_of_nil in Hin.
  - destruct (reportTimeSeriesMetrics _ _ _ _) as [es r].
    apply elem_of_app in Hin as [Hin|Hin].
    + apply list_elem_of_fmap in Hin as (e & ? & _). done.
    + destruct r.
      * destruct (String.eqb token ""); [by apply elem_of_nil in Hin|]. by eapply IH.
      * by apply list_elem_of_singleton in Hin.
      * by apply list_elem_of_singleton in Hin.
Qed.

Lemma queryWindow_shift c metricDescriptor startTime endTime s e :
  queryWindow c metricDescriptor startTime endTime = Some (s, e) ->
  s = (startTime + shiftOf c metricDescriptor)%Z /\ e = (endTime + shiftOf c metricDescriptor)%Z.
Proof.
  unfold queryWindow, shiftOf, time_Add.
  destruct (md_Metadata metricDescriptor) as [meta|]; [|intros; simplify_eq; lia].
  destruct (_ && _); [|intros; simplify_eq; lia].
  destruct (time_ParseDuration _); intros; simplify_eq; lia.
Qed.

Lemma uniqueDescriptors_foldl (descriptors : list MetricDescriptor) :
  forall (m : gmap string MetricDescriptor) ty d,
  foldl (fun m descriptor => <[md_Type descriptor := descriptor]> m) m descriptors !! ty = Some d ->
  m !! ty = Some d \/ (d ∈ descriptors /\ md_Type d = ty).
Proof.
  induction descriptors as [|x descriptors IH]; intros m ty d; cbn [foldl]; [by left|].
  intros [Hm|[Hin Hty]]%IH.
  - destruct (decide (md_Type x = ty)) as [<-|Hne].
    + rewrite lookup_insert_eq in Hm. simplify_eq. right. split; [by left|done].
    + rewrite lookup_insert_ne in Hm by done. by left.
  - right. split; [by right|done].
Qed.

Lemma uniqueDescriptors_is_Some (descriptors : list MetricDescriptor) :
  forall (m : gmap string MetricDescriptor) ty,
  is_Some (foldl (fun m descriptor => <[md_Type descriptor := descriptor]> m) m descriptors !! ty)
  <-> is_Some (m !! ty) \/ ty ∈ md_Type <$> descriptors.
Proof.
  induction descriptors as [|x descriptors IH]; intros m ty; cbn [foldl fmap list_fmap].
  - rewrite elem_of_nil. tauto.
  - rewrite IH, lookup_insert_is_Some, elem_of_cons.
    destruct (decide (md_Type x = ty)) as [Heq|Hne].
    + split; [intros _; right; by left|intros _; left; by left].
    + split.
      * intros [[?|[_ ?]]|?]; [done|by left|right; by right].
      * intros [?|[?|?]]; [left; by right|done|by right].
Qed.

(** X12. Within one batch the collector starts exactly one goroutine per
    distinct descriptor type, whatever order the map is ranged over. *)
Lemma one_unit_per_type_in_batch {Laws : GoLibLaws L} c env now (descriptors : list MetricDescriptor) :
  let started := (go_range (uniqueDescriptors descriptors)).*1 in
  NoDup started
  /\ (forall ty, ty ∈ started <-> ty ∈ md_Type <$> descriptors)
  /\ length (descriptorUnits c env now descriptors) = length started.
Proof.
  cbn zeta. split_and!.
  - rewrite (go_range_perm _ _). apply NoDup_fst_map_to_list.
  - intros ty. rewrite (go_range_perm _ _), list_elem_of_fmap.
    unfold uniqueDescriptors. split.
    + intros ([ty' d] & -> & Hin%elem_of_map_to_list). cbn.
      assert (Hs : is_Some (foldl (fun m descriptor => <[md_Type descriptor := descriptor]> m)
                             (∅ : gmap string MetricDescriptor) descriptors !! ty')) by eauto.
      apply uniqueDescriptors_is_Some in Hs as [Hs|Hs]; [|done].
      rewrite lookup_empty in Hs. by destruct Hs.
    + intros Hty.
      destruct (proj2 (uniqueDescriptors_is_Some descriptors ∅ ty)) as [d Hd]; [by right|].
      exists (ty, d). split; [done|]. by apply elem_of_map_to_list.
  - unfold descriptorUnits. by rewrite !length_fmap.
Qed.

(** C10. Every goroutine of a batch is started with the same window, end
    = now - offset and start = end - interval; the window a descriptor's
    calls carry is that window moved by the descriptor's own ingest delay
    and by nothing else, so a descriptor without an applicable delay
    queries the unshifted window whatever its siblings declare. *)
Theorem ingest_delay_shift_is_local {Laws : GoLibLaws L} (c : MonitoringCollector)
    (env : Env) (now : Instant) (descriptors : list MetricDescriptor) :
  (min_int64 < metricsOffset c <= max_int64)%Z ->
  (min_int64 < metricsInterval c <= max_int64)%Z ->
  let endTime := (now - metricsOffset c)%Z in
  let startTime := (endTime - metricsInterval c)%Z in
  (forall unit, unit ∈ descriptorUnits c env now descriptors <->
     exists ty d, uniqueDescriptors descriptors !! ty = Some d
                  /\ unit = descriptorUnit c env d startTime endTime)
  /\ (forall d q pageToken,
        Fetch q pageToken ∈ descriptorUnit c env d startTime endTime ->
        q_IntervalStartTime q = (startTime + shiftOf c d)%Z
        /\ q_IntervalEndTime q = (endTime + shiftOf c d)%Z)
  /\ (forall d,
        (metricsIngestDelay c = false \/ md_Metadata d = None
         \/ (IngestDelay <$> md_Metadata d) = Some ""%string) ->
        shiftOf c d = 0%Z).
Proof.
  intros Hoff Hint endTime startTime.
  assert (Hneg : forall z, (min_int64 < z <= max_int64)%Z -> wrap_int64 (z * -1) = (- z)%Z).
  { intros z Hz. unfold wrap_int64, min_int64, max_int64, two_64, two_63 in *.
    rewrite Z.mod_small; lia. }
  split_and!.
  - intros unit. unfold descriptorUnits, time_Add. rewrite !Hneg by done.
    replace (now + - metricsOffset c)%Z with endTime by (unfold endTime; lia).
    replace (endTime + - metricsInterval c)%Z with startTime by (unfold startTime; lia).
    rewrite list_elem_of_fmap. split.
    + intros ([ty d] & -> & Hin). exists ty, d. split; [|done].
      rewrite (go_range_perm _ _) in Hin. by apply elem_of_map_to_list.
    + intros (ty & d & Hd & ->). exists (ty, d). split; [done|].
      rewrite (go_range_perm _ _). by apply elem_of_map_to_list.
  - intros d q pageToken. unfold descriptorUnit.
    destruct (queryWindow c d startTime endTime) as [[s e]|] eqn:Hw.
    + intros ->%fetchPages_query. cbn. by apply queryWindow_shift.
    + intros Hin%list_elem_of_singleton. done.
  - intros d. unfold shiftOf. intros [->|[->|Hempty]]; [|done|].
    + by destruct (md_Metadata d).
    + destruct (md_Metadata d) as [meta|]; [|done]. cbn in Hempty. simplify_eq.
      rewrite Hempty. cbn. by rewrite andb_false_r.
Qed.

End orchestrator_properties.

Lemma ingest_delay_shift_is_local_witness :
  (forall unit,
     unit ∈ descriptorUnits (L := Ref.lib) Ex.collector Ex.two_pages Ex.now
              [Ex.latency; Ex.requests "projects/p1"] <->
     exists ty d,
       uniqueDescriptors [Ex.latency; Ex.requests "projects/p1"] !! ty = Some d
       /\ unit = descriptorUnit (L := Ref.lib) Ex.collector Ex.two_pages d
                   (Ex.now - 0 - 300000000000)%Z (Ex.now - 0)%Z)
  /\ (forall d q pageToken,
        Fetch q pageToken ∈ descriptorUnit (L := Ref.lib) Ex.collector Ex.two_pages d
                              (Ex.now - 0 - 300000000000)%Z (Ex.now - 0)%Z ->
        q_IntervalStartTime q
        = (Ex.now - 0 - 300000000000 + shiftOf (L := Ref.lib) Ex.collector d)%Z
        /\ q_IntervalEndTime q = (Ex.now - 0 + shiftOf (L := Ref.lib) Ex.collector d)%Z)
  /\ (forall d,
        (metricsIngestDelay Ex.collector = false \/ md_Metadata d = None
         \/ (IngestDelay <$> md_Metadata d) = Some ""%string) ->
        shiftOf (L := Ref.lib) Ex.collector d = 0%Z).
Proof.
  apply (ingest_delay_shift_is_local (L := Ref.lib) (Laws := ref_laws)
           Ex.collector Ex.two_pages Ex.now [Ex.latency; Ex.requests "projects/p1"]).
  - vm_compute. split; [reflexivity | discriminate].
  - vm_compute. split; [reflexivity | discriminate].
Defined.

(** A descriptor with an ingest delay of 210 s next to one without: the
    first queries the window moved back by 210 s, the second the window
    ending now. *)
Example shifted_and_unshifted_windows :
  descriptorUnits (L := Ref.lib) Ex.collector Ex.two_pages Ex.now
    [Ex.latency; Ex.requests "projects/p1"]
  = [[Fetch Ex.requests_query ""];
     [Fetch {| q_Filter := "metric.type=" +:+ quoted_s "custom.googleapis.com/app/latency";
               q_IntervalStartTime := (Ex.now - 300000000000 - 210000000000)%Z;
               q_IntervalEndTime := (Ex.now - 210000000000)%Z;
               q_Aggregation := None |} ""]].
Proof. vm_compute. reflexivity. Qed.

(** C2. With the descriptor cache cold and one type listed on two pages
    of the descriptor listing, the scrape makes two time-series calls for
    that type, one per page; with both descriptors in the cache it makes
    one.  (The design says one call per distinct type in either case.) *)
Theorem duplicate_type_across_pages_fetched_twice :
  (main (reportMonitoringMetrics (L := Ref.lib) Ex.collector Ex.two_pages
           (NewMonitoringCollector_cache 0 false) Ex.now [])
   = Returned None
   /\ Ex.fetches (reportMonitoringMetrics (L := Ref.lib) Ex.collector Ex.two_pages
                    (NewMonitoringCollector_cache 0 false) Ex.now [])
      = [Fetch Ex.requests_query ""; Fetch Ex.requests_query ""])
  /\ (main (reportMonitoringMetrics (L := Ref.lib) Ex.collector Ex.two_pages
              Ex.warm_cache Ex.now [])
      = Returned None
      /\ Ex.fetches (reportMonitoringMetrics (L := Ref.lib) Ex.collector Ex.two_pages
                       Ex.warm_cache Ex.now [])
         = [Fetch Ex.requests_query ""]).
Proof. repeat split; vm_compute; reflexivity. Qed.

Local Open Scope Z_scope.

(** * Further properties *)

(** ** Metric names and histogram buckets *)

Section string_properties.

Lemma prefix_spec (p s : string) :
  String.prefix p s = true <-> exists post, s = p +:+ post.
Proof.
  revert s. induction p as [|c p IH]; intros s; cbn [String.prefix].
  - split; [intros _; by exists s | by destruct s].
  - destruct s as [|c' s].
    + split; [done | intros [post Hpost]; discriminate].
    + cbn [String.prefix]. destruct (ascii_dec c c') as [<-|Hne].
      * rewrite IH. split; intros [post Hpost]; exists post.
        -- cbn. by rewrite Hpost.
        -- cbn in Hpost. by injection Hpost.
      * split; [done|]. intros [post Hpost]. cbn in Hpost. by injection Hpost.
Qed.

Lemma strings_Contains_spec (s substr : string) :
  strings_Contains s substr = true <-> exists pre post, s = pre +:+ substr +:+ post.
Proof.
  induction s as [|c s IH]; cbn [strings_Contains].
  - rewrite orb_false_r, prefix_spec. split.
    + intros [post Hpost]. by exists EmptyString, post.
    + intros (pre & post & Hs). destruct pre; [by exists post | discriminate].
  - rewrite orb_true_iff, prefix_spec, IH. split.
    + intros [[post Hpost]|(pre & post & ->)].
      * by exists EmptyString, post.
      * by exists (String c pre), post.
    + intros (pre & post & Hs). destruct pre as [|c' pre]; cbn in Hs.
      * left. by exists post.
      * right. exists pre, post. by injection Hs.
Qed.

Lemma firstSegment_no_slash (s : string) : has_slash (firstSegment s) = false.
Proof.
  induction s as [|c s IH]; [done|]. cbn [firstSegment].
  destruct (Ascii.eqb c slash) eqn:Hc; [done|]. cbn [has_slash]. by rewrite Hc, IH.
Qed.

Lemma firstSegment_split (s : string) :
  s = firstSegment s \/ exists rest, s = firstSegment s +:+ String slash rest.
Proof.
  induction s as [|c s IH]; [by left|]. cbn [firstSegment].
  destruct (Ascii.eqb_spec c slash) as [->|Hne].
  - right. by exists s.
  - destruct IH as [IH|[rest IH]].
    + left. by f_equal.
    + right. exists rest. change (String c s = String c (firstSegment s +:+ String slash rest)).
      by f_equal.
Qed.

Lemma firstSegment_unique (seg rest : string) :
  has_slash seg = false ->
  firstSegment seg = seg /\ firstSegment (seg +:+ String slash rest) = seg.
Proof.
  induction seg as [|c seg IH]; cbn [has_slash]; intros Hno.
  - split; reflexivity.
  - apply orb_false_elim in Hno as [Hc Hno]. destruct (IH Hno) as [IH1 IH2].
    change (firstSegment (String c seg) = String c seg
            /\ firstSegment (String c (seg +:+ String slash rest)) = String c seg).
    cbn [firstSegment]. rewrite Hc. by rewrite IH1, IH2.
Qed.

(** X1. A name counts as a vendor metric exactly when the text before its
    first slash (the whole name when it has none) contains the vendor's
    domain. *)
Theorem isGoogleMetric_iff (name : string) :
  isGoogleMetric name = true <->
  exists seg, has_slash seg = false
    /\ (name = seg \/ exists rest, name = seg +:+ String slash rest)
    /\ exists pre post, seg = pre +:+ "googleapis.com" +:+ post.
Proof.
  rewrite isGoogleMetric_firstSegment, strings_Contains_spec. split.
  - intros Hdom. exists (firstSegment name).
    split_and!; [apply firstSegment_no_slash | apply firstSegment_split | done].
  - intros (seg & Hno & Hname & Hdom).
    destruct (firstSegment_unique seg EmptyString Hno) as [Hseg _].
    destruct Hname as [->|[rest ->]].
    + by rewrite Hseg.
    + by rewrite (proj2 (firstSegment_unique seg rest Hno)).
Qed.

Lemma firstSegment_app_slash (a b : string) :
  firstSegment (a +:+ String slash b) = firstSegment a.
Proof.
  induction a as [|c a IH].
  - reflexivity.
  - change (firstSegment (String c (a +:+ String slash b)) = firstSegment (String c a)).
    cbn [firstSegment]. destruct (Ascii.eqb c slash); [done|]. by rewrite IH.
Qed.

(** X2. Appending a path to a name does not change whether it counts as a
    vendor metric: what follows a slash is never looked at. *)
Theorem isGoogleMetric_path_extension (a b : string) :
  isGoogleMetric (a +:+ String slash b) = isGoogleMetric a.
Proof. by rewrite !isGoogleMetric_firstSegment, firstSegment_app_slash. Qed.

End string_properties.

Section histogram_extra.
Context {L : GoLib}.

Lemma fill_keys_length (f : Z -> float) (n : nat) : forall (i : Z) (keys : list float),
  length (fill_keys f i n keys) = length keys.
Proof.
  induction n as [|n IH]; intros i keys; cbn [fill_keys]; [done|].
  by rewrite IH, length_insert.
Qed.

Lemma make_fill_panic (f : Z -> float) (num : Z) :
  min_int64 <= num <= max_int64 ->
  num <= -2 \/ max_int64 - 1 <= num ->
  (keys ← make_float64s (wrap_int64 (num + 2));
   set_last (fill_keys f 0 (Z.to_nat (num + 1)) keys) math_Inf_1) = Panic.
Proof.
  intros Hnum Hbad. rewrite (make_fill_outcome f num Hnum).
  destruct Hbad as [Hlow|Hhigh].
  - by destruct (Z.leb_spec (-1) num); [lia|].
  - destruct (makeslice_ok (num + 2)) eqn:Hok; [|by rewrite andb_false_r].
    apply makeslice_ok_range in Hok. unfold max_int64, two_63 in *. lia.
Qed.

(** X3. For linear and exponential buckets the builder panics whenever the
    number of finite buckets is at most -2 (there is no last boundary to
    set) or so large that the slice length wraps around; and it never
    returns an error for these two layouts. *)
Theorem histogram_panics_on_bad_bucket_number (dist : Distribution) (num : Z) :
  numFiniteBucketsOf (dist_BucketOptions dist) = Some num ->
  min_int64 <= num <= max_int64 ->
  (num <= -2 \/ max_int64 - 1 <= num -> generateHistogramBuckets dist = Panic)
  /\ (forall msg, generateHistogramBuckets dist <> Err msg).
Proof.
  intros Hvariant Hnum.
  assert (Hgen : forall f : Z -> float,
    let r := (bucketKeys ← (bucketKeys ← (keys ← make_float64s (wrap_int64 (num + 2));
                                            Ok (fill_keys f 0 (Z.to_nat (num + 1)) keys));
                             set_last bucketKeys math_Inf_1);
              Ok (cumulate (BucketCounts dist) bucketKeys 0 [] 0)) in
    (num <= -2 \/ max_int64 - 1 <= num -> r = Panic) /\ forall msg, r <> Err msg).
  { intros f. pose proof (make_fill_panic f num Hnum) as Hp. cbn zeta.
    unfold make_float64s in *. destruct (makeslice_ok _); cbn [mbind result_bind] in *.
    - unfold set_last in *. destruct (length _); cbn [mbind result_bind] in *.
      + split; [done | done].
      + split; [|done]. intros Hbad. by apply Hp in Hbad.
    - split; [done | done]. }
  unfold generateHistogramBuckets, histogramBucketKeys.
  unfold numFiniteBucketsOf in Hvariant.
  destruct (ExplicitBuckets (dist_BucketOptions dist)); [done|].
  destruct (LinearBuckets (dist_BucketOptions dist)) as [l|].
  - injection Hvariant as <-. apply Hgen.
  - destruct (ExponentialBuckets (dist_BucketOptions dist)) as [x|]; [|done].
    injection Hvariant as <-. apply Hgen.
Qed.

Lemma foldr_add_nonneg (l : list Z) : Forall (fun c => 0 <= c) l -> 0 <= foldr Z.add 0 l.
Proof. induction 1; cbn; lia. Qed.

Lemma foldr_add_take_le (l : list Z) (i j : nat) :
  Forall (fun c => 0 <= c) l -> (i <= j)%nat ->
  foldr Z.add 0 (take i l) <= foldr Z.add 0 (take j l).
Proof.
  intros Hl. revert i j. induction Hl as [|c l Hc Hl IH]; intros i j Hij.
  - by rewrite !take_nil.
  - destruct i as [|i], j as [|j]; cbn; try lia.
    + pose proof (foldr_add_nonneg (take j l) (Forall_take _ _ _ Hl)). lia.
    + specialize (IH i j). lia.
Qed.

Lemma runningTotal_mono (counts : list Z) (i j : nat) :
  Forall (fun c => 0 <= c) counts -> foldr Z.add 0 counts < two_64 -> (i <= j)%nat ->
  runningTotal counts i <= runningTotal counts j.
Proof.
  intros Hpos Hsum Hij. unfold runningTotal, uint64_sum, wrap_uint64.
  pose proof (foldr_add_take_le counts i j Hpos Hij).
  pose proof (foldr_add_take_le counts j (length counts) Hpos) as Hj.
  rewrite (take_ge counts (length counts)) in Hj by done.
  pose proof (foldr_add_nonneg (take i counts) (Forall_take _ _ _ Hpos)).
  destruct (decide (j <= length counts)%nat) as [Hjl|Hjl].
  - specialize (Hj Hjl). rewrite !Z.mod_small; unfold two_64 in *; lia.
  - rewrite (take_ge counts j) in * by lia. rewrite !Z.mod_small; unfold two_64 in *; lia.
Qed.

(** X4. With pairwise different boundaries, source counts that are not
    negative and a total below 2^64, the counts of the returned map never
    decrease from one boundary to a later one. *)
Theorem histogram_counts_monotone (dist : Distribution) (keys : list float)
    (buckets : bucket_map) (i j : nat) (a b : float) :
  histogramBucketKeys dist = Ok keys ->
  generateHistogramBuckets dist = Ok buckets ->
  distinct_keys keys ->
  Forall (fun c => 0 <= c) (BucketCounts dist) ->
  foldr Z.add 0 (BucketCounts dist) < two_64 ->
  keys !! i = Some a -> keys !! j = Some b -> (i <= j)%nat ->
  bm_load buckets a <= bm_load buckets b.
Proof.
  intros Hkeys. unfold generateHistogramBuckets. rewrite Hkeys. cbn [mbind result_bind].
  intros [= <-] Hdist Hpos Hsum Hi Hj Hij.
  pose proof (cumulate_distinct (BucketCounts dist) keys [] Hdist) as Hcum.
  cbn [length entries_from app] in Hcum.
  replace (runningTotal (BucketCounts dist) 0) with 0 in Hcum by done.
  rewrite Hcum, (bm_load_entries _ _ _ _ Hdist Hi), (bm_load_entries _ _ _ _ Hdist Hj).
  apply runningTotal_mono; [done..|lia].
Qed.

Lemma cumulate_ext (counts counts' : list Z) (keys : list float) :
  forall (i : nat) (buckets : bucket_map) (last : Z),
  (forall j, (i <= j < i + length keys)%nat -> counts !! j = counts' !! j) ->
  cumulate counts keys i buckets last = cumulate counts' keys i buckets last.
Proof.
  induction keys as [|b keys IH]; intros i buckets last Hsame; cbn [cumulate]; [done|].
  rewrite <- (Hsame i) by (cbn; lia).
  destruct (counts !! i); apply IH; intros j Hj; apply Hsame; cbn; lia.
Qed.

(** X5. Source counts at indices from the number of boundaries on are
    never read: cutting them off gives the same result. *)
Theorem histogram_ignores_surplus_counts (dist : Distribution) (keys : list float) :
  histogramBucketKeys dist = Ok keys ->
  generateHistogramBuckets (truncateCounts (length keys) dist)
  = generateHistogramBuckets dist.
Proof.
  intros Hkeys. unfold generateHistogramBuckets.
  assert (Hk : histogramBucketKeys (truncateCounts (length keys) dist)
               = histogramBucketKeys dist) by done.
  rewrite Hk, Hkeys. cbn [mbind result_bind truncateCounts BucketCounts]. f_equal.
  apply cumulate_ext. intros j Hj. apply lookup_take_lt. lia.
Qed.

Lemma bm_store_keys (m : bucket_map) (k : float) (v : Z) :
  (length (bm_store m k v) <= S (length m))%nat
  /\ forall e, e ∈ bm_store m k v -> e ∈ m \/ e = (k, v).
Proof.
  induction m as [|[k' v'] m [IHlen IHin]]; cbn [bm_store].
  - split; [done|]. intros e ->%list_elem_of_singleton. by right.
  - destruct (PrimFloat.eqb k' k); cbn [length].
    + split; [lia|]. intros e [->|He]%elem_of_cons; [by right|left; by right].
    + split; [lia|]. intros e [->|He]%elem_of_cons; [left; by left|].
      destruct (IHin _ He); [left; by right|by right].
Qed.

Lemma cumulate_keys (counts : list Z) (keys : list float) :
  forall (i : nat) (buckets : bucket_map) (last : Z),
  (length (cumulate counts keys i buckets last) <= length buckets + length keys)%nat
  /\ forall e, e ∈ cumulate counts keys i buckets last -> e ∈ buckets \/ e.1 ∈ keys.
Proof.
  induction keys as [|b keys IH]; intros i buckets last; cbn [cumulate length].
  - split; [lia|]. by left.
  - destruct (counts !! i) as [c|].
    + destruct (IH (S i) (bm_store buckets b (wrap_uint64 (wrap_uint64 c + last)))
                  (bm_load (bm_store buckets b (wrap_uint64 (wrap_uint64 c + last))) b))
        as [Hlen Hin].
      destruct (bm_store_keys buckets b (wrap_uint64 (wrap_uint64 c + last))) as [Hl Hi].
      split; [lia|]. intros e [He|He]%Hin; [|right; by right].
      destruct (Hi _ He) as [?| ->]; [by left|right; by left].
    + destruct (IH (S i) (bm_store buckets b last) last) as [Hlen Hin].
      destruct (bm_store_keys buckets b last) as [Hl Hi].
      split; [lia|]. intros e [He|He]%Hin; [|right; by right].
      destruct (Hi _ He) as [?| ->]; [by left|right; by left].
Qed.

Lemma entries_from_keys (counts : list Z) (keys : list float) (i : nat) :
  (entries_from counts keys i).*1 = keys.
Proof.
  revert i. induction keys as [|b keys IH]; intros i; cbn; [done|]. by rewrite IH.
Qed.

(** X6. The returned bucket set has no key that is not a boundary and no
    more entries than there are boundaries; for pairwise different
    boundaries its keys are exactly the boundaries. *)
Theorem histogram_keys_are_boundaries (dist : Distribution) (keys : list float)
    (buckets : bucket_map) :
  histogramBucketKeys dist = Ok keys ->
  generateHistogramBuckets dist = Ok buckets ->
  (forall k v, (k, v) ∈ buckets -> k ∈ keys)
  /\ (length buckets <= length keys)%nat
  /\ (distinct_keys keys -> buckets.*1 = keys).
Proof.
  intros Hkeys. unfold generateHistogramBuckets. rewrite Hkeys. cbn [mbind result_bind].
  intros [= <-].
  destruct (cumulate_keys (BucketCounts dist) keys 0 [] 0) as [Hlen Hin].
  split_and!.
  - intros k v [He|He]%Hin; [by apply elem_of_nil in He|done].
  - cbn in Hlen. lia.
  - intros Hdist.
    pose proof (cumulate_distinct (BucketCounts dist) keys [] Hdist) as Hcum.
    cbn [length entries_from app] in Hcum.
    replace (runningTotal (BucketCounts dist) 0) with 0 in Hcum by done.
    by rewrite Hcum, entries_from_keys.
Qed.

End histogram_extra.

(** ** Time series translator *)

Section translator_extra.
Context {L : GoLib}.

Lemma seriesLabels_labels_ok {Laws : GoLibLaws L} (metricDescriptor : MetricDescriptor)
    (timeSeries : TimeSeries) :
  labels_ok (firstSeen metricDescriptor timeSeries)
    (seriesLabels metricDescriptor timeSeries).1
    (seriesLabels metricDescriptor timeSeries).2.
Proof.
  rewrite seriesLabels_unfold.
  assert (H0 : labels_ok {[ "unit"%string := md_Unit metricDescriptor ]}
                 ["unit"%string] [md_Unit metricDescriptor]).
  { split.
    - apply NoDup_singleton.
    - done.
    - intros k. rewrite list_elem_of_singleton, lookup_singleton_is_Some. split; by intros ->.
    - intros [|i] k; [|done]. intros [= <-]. by rewrite lookup_singleton_eq. }
  destruct (addLabels_map (metric_Labels (ts_Metric timeSeries)) _ _ _ H0)
    as (ms & mvs & -> & _ & H1).
  destruct (addLabels_map (resource_Labels (ts_Resource timeSeries)) _ _ _ H1)
    as (rs & rvs & -> & _ & H2).
  destruct (addLabels_map (systemLabelsOf timeSeries) _ _ _ H2)
    as (ss & svs & -> & _ & H3).
  done.
Qed.

(** X7. Read as a set of key-value pairs, the labels of a series do not
    depend on the order in which the maps are enumerated: they are the
    unit, the metric labels, the resource labels and the system labels,
    merged with the earlier group winning. *)
Theorem label_set_is_first_seen {Laws : GoLibLaws L} (metricDescriptor : MetricDescriptor)
    (timeSeries : TimeSeries) :
  list_to_map (zip (seriesLabels metricDescriptor timeSeries).1
                   (seriesLabels metricDescriptor timeSeries).2)
  = firstSeen metricDescriptor timeSeries.
Proof.
  destruct (seriesLabels_labels_ok metricDescriptor timeSeries) as [Hnd Hlen Hkeys Hvals].
  set (ks := (seriesLabels metricDescriptor timeSeries).1) in *.
  set (vs := (seriesLabels metricDescriptor timeSeries).2) in *.
  assert (Hfst : (zip ks vs).*1 = ks) by (apply fst_zip; lia).
  apply map_eq. intros k.
  destruct (firstSeen metricDescriptor timeSeries !! k) as [v|] eqn:Hk.
  - apply elem_of_list_to_map; [by rewrite Hfst|].
    assert (k ∈ ks) as [i Hi]%list_elem_of_lookup by (apply Hkeys; eauto).
    apply list_elem_of_lookup. exists i.
    apply lookup_zip_with_Some. exists k, v. split_and!; [done..|].
    by rewrite (Hvals _ _ Hi).
  - apply not_elem_of_list_to_map. rewrite Hfst, Hkeys, Hk. by intros [? ?].
Qed.

Lemma dropDelegatedProject_spec (project : string) (labelKeys labelValues : list string) :
  forall idx,
  dropDelegatedProject project labelKeys labelValues idx = true
  <-> exists j, labelKeys !! j = Some "project_id"%string
                /\ default ""%string (labelValues !! (idx + j)%nat) <> project.
Proof.
  induction labelKeys as [|val rest IH]; intros idx; cbn [dropDelegatedProject].
  - split; [done|]. by intros [j [? _]].
  - destruct (String.eqb_spec val "project_id") as [->|Hne]; cbn [andb].
    + destruct (String.eqb_spec (default ""%string (labelValues !! idx)) project) as [Heq|Hneq];
        cbn [negb].
      * rewrite IH. split.
        -- intros (j & Hj & Hv). exists (S j). split; [done|].
           by rewrite <- Nat.add_succ_comm.
        -- intros ([|j] & Hj & Hv).
           ++ by rewrite Nat.add_0_r in Hv.
           ++ exists j. split; [done|]. by rewrite Nat.add_succ_comm.
      * split; [|done]. intros _. exists 0%nat. split; [done|]. by rewrite Nat.add_0_r.
    + rewrite IH. split.
      * intros (j & Hj & Hv). exists (S j). split; [done|]. by rewrite <- Nat.add_succ_comm.
      * intros ([|j] & Hj & Hv); [by simplify_eq/=|].
        exists j. split; [done|]. by rewrite Nat.add_succ_comm.
Qed.

Lemma dropDelegatedProject_firstSeen {Laws : GoLibLaws L} (project : string)
    (metricDescriptor : MetricDescriptor) (timeSeries : TimeSeries) :
  dropDelegatedProject project (seriesLabels metricDescriptor timeSeries).1
    (seriesLabels metricDescriptor timeSeries).2 0 = true
  <-> exists p, firstSeen metricDescriptor timeSeries !! "project_id" = Some p /\ p <> project.
Proof.
  destruct (seriesLabels_labels_ok metricDescriptor timeSeries) as [Hnd Hlen Hkeys Hvals].
  rewrite dropDelegatedProject_spec. split.
  - intros (j & Hj & Hv). cbn in Hv. rewrite (Hvals _ _ Hj) in Hv.
    destruct (proj1 (Hkeys "project_id"%string)) as [p Hp]; [by eapply list_elem_of_lookup_2|].
    exists p. split; [done|]. by rewrite Hp in Hv.
  - intros (p & Hp & Hne).
    assert ("project_id"%string ∈ (seriesLabels metricDescriptor timeSeries).1)
      as [j Hj]%list_elem_of_lookup by (apply Hkeys; eauto).
    exists j. split; [done|]. cbn. by rewrite (Hvals _ _ Hj), Hp.
Qed.

(** X8. With the delegated-project filter on, a series whose first-seen
    [project_id] label differs from the collector's project makes no
    call; a series without that label, or with the collector's project,
    is translated as if the filter were off. *)
Theorem delegated_project_filter {Laws : GoLibLaws L} (c : MonitoringCollector)
    (metricDescriptor : MetricDescriptor) (prev : option Point) (timeSeries : TimeSeries)
    (t : Instant) (newest : option Point) :
  monitoringDropDelegatedProjects c = true ->
  scanPoints (ts_Points timeSeries) time_Unix_0_0 prev = Ok (t, newest) ->
  (forall p, firstSeen metricDescriptor timeSeries !! "project_id" = Some p ->
     p <> projectID c ->
     translateSeries c metricDescriptor prev timeSeries = Ok (newest, None))
  /\ (firstSeen metricDescriptor timeSeries !! "project_id" = None
      \/ firstSeen metricDescriptor timeSeries !! "project_id" = Some (projectID c) ->
      translateSeries c metricDescriptor prev timeSeries
      = translateSeries (withoutProjectFilter c) metricDescriptor prev timeSeries).
Proof.
  intros Hflag Hscan.
  pose proof (dropDelegatedProject_firstSeen (projectID c) metricDescriptor timeSeries) as Hdrop.
  unfold translateSeries. rewrite Hscan, Hflag. cbn [mbind result_bind andb
    withoutProjectFilter monitoringDropDelegatedProjects projectID aggregateDeltas].
  destruct (seriesLabels metricDescriptor timeSeries) as [ks vs]. cbn [fst snd] in Hdrop.
  split.
  - intros p Hp Hne. rewrite (proj2 Hdrop); [done|]. by exists p.
  - intros Hkeep.
    destruct (dropDelegatedProject (projectID c) ks vs 0) eqn:Hd; [|done].
    destruct (proj1 Hdrop eq_refl) as (p & Hp & Hne).
    destruct Hkeep as [Hk|Hk]; rewrite Hk in Hp; by simplify_eq.
Qed.

Lemma scanPoints_error (pre : list Point) (bad : Point) (rest : list Point) :
  Forall (fun p => is_Some (endOf p)) pre -> endOf bad = None ->
  forall (t0 : Instant) (p0 : option Point),
  scanPoints (pre ++ bad :: rest) t0 p0 = Err (endTimeError bad).
Proof.
  intros Hpre Hbad. induction Hpre as [|p pre [te Hte] _ IH]; intros t0 p0; cbn [app scanPoints].
  - unfold endOf in Hbad. by rewrite Hbad.
  - unfold endOf in Hte. rewrite Hte. destruct (time_After te t0); apply IH.
Qed.

Lemma translatePage_app_error (c : MonitoringCollector) (metricDescriptor : MetricDescriptor)
    (pre : list TimeSeries) (timeSeries : TimeSeries) (rest : list TimeSeries) (msg : string) :
  (forall prev, translateSeries c metricDescriptor prev timeSeries = Err msg) ->
  forall (prev : option Point) (calls : list emission),
  translatePage c metricDescriptor pre prev = (calls, Ok tt) ->
  translatePage c metricDescriptor (pre ++ timeSeries :: rest) prev = (calls, Err msg).
Proof.
  intros Hbad. induction pre as [|x pre IH]; intros prev calls; cbn [app translatePage].
  - intros [= <-]. by rewrite Hbad.
  - destruct (translateSeries c metricDescriptor prev x) as [[np e]| |]; [|done..].
    destruct (translatePage c metricDescriptor pre np) as [es r] eqn:Hpre.
    intros [= <- ->]. by rewrite (IH np es).
Qed.

(** X9. A point whose interval end does not parse makes the translator
    return an error naming that end time, whatever the kind of its series
    and the filter settings; the calls made for earlier series of the
    page stand, and no later series is looked at. *)
Theorem unparseable_end_time_aborts_page (c : MonitoringCollector)
    (metricDescriptor : MetricDescriptor) (before : list TimeSeries) (timeSeries : TimeSeries)
    (after : list TimeSeries) (parsed : list Point) (bad : Point) (unread : list Point)
    (calls : list emission) :
  ts_Points timeSeries = parsed ++ bad :: unread ->
  Forall (fun p => is_Some (endOf p)) parsed ->
  endOf bad = None ->
  reportTimeSeriesMetrics c None before metricDescriptor = (calls, Ok tt) ->
  reportTimeSeriesMetrics c None (before ++ timeSeries :: after) metricDescriptor
  = (calls, Err (endTimeError bad)).
Proof.
  intros Hpoints Hparsed Hbad. unfold reportTimeSeriesMetrics.
  apply translatePage_app_error. intros prev. unfold translateSeries.
  by rewrite Hpoints, (scanPoints_error _ _ _ Hparsed Hbad).
Qed.

(** X10. A series whose value kind is none of BOOL, INT64, DOUBLE and
    DISTRIBUTION makes no call and dereferences no point: it is passed
    over even when no point was ever selected. *)
Theorem unknown_value_type_skipped (c : MonitoringCollector)
    (metricDescriptor : MetricDescriptor) (prev : option Point) (timeSeries : TimeSeries)
    (t : Instant) (newest : option Point) (rest : list TimeSeries) :
  ts_ValueType timeSeries ∉ ["BOOL"; "INT64"; "DOUBLE"; "DISTRIBUTION"]%string ->
  scanPoints (ts_Points timeSeries) time_Unix_0_0 prev = Ok (t, newest) ->
  translateSeries c metricDescriptor prev timeSeries = Ok (newest, None)
  /\ translatePage c metricDescriptor (timeSeries :: rest) prev
     = translatePage c metricDescriptor rest newest.
Proof.
  intros Hvt Hscan.
  assert (Hemit : forall ks vs vt, emitSeries c timeSeries t newest ks vs vt = Ok None).
  { intros ks vs vt. rewrite !not_elem_of_cons in Hvt.
    destruct Hvt as (Hb & Hi & Hd & Hh & _).
    apply String.eqb_neq in Hb, Hi, Hd, Hh.
    unfold emitSeries. by rewrite Hb, Hi, Hd, Hh. }
  assert (Htr : translateSeries c metricDescriptor prev timeSeries = Ok (newest, None)).
  { unfold translateSeries. rewrite Hscan. cbn [mbind result_bind].
    destruct (seriesLabels _ _). destruct (_ && _); [done|].
    destruct (metricValueTypeOf _ _); [|done]. by rewrite Hemit. }
  split; [done|]. cbn [translatePage]. rewrite Htr. cbn.
  by destruct (translatePage _ _ _ _).
Qed.

Lemma emitSeries_seriesOf c timeSeries t newest ks vs vt e :
  emitSeries c timeSeries t newest ks vs vt = Ok (Some e) -> seriesOf e = timeSeries.
Proof.
  unfold emitSeries.
  destruct (String.eqb (ts_ValueType timeSeries) "BOOL").
  { destruct newest as [p|]; cbn; [|done].
    destruct (BoolValue (Value p)); cbn; intros; by simplify_eq. }
  destruct (String.eqb (ts_ValueType timeSeries) "INT64").
  { destruct newest as [p|]; cbn; [|done].
    destruct (Int64Value (Value p)); cbn; intros; by simplify_eq. }
  destruct (String.eqb (ts_ValueType timeSeries) "DOUBLE").
  { destruct newest as [p|]; cbn; [|done].
    destruct (DoubleValue (Value p)); cbn; intros; by simplify_eq. }
  destruct (String.eqb (ts_ValueType timeSeries) "DISTRIBUTION"); [|done].
  destruct newest as [p|]; cbn; [|done].
  destruct (DistributionValue (Value p)) as [dist|]; cbn; [|done].
  destruct (generateHistogramBuckets dist); intros; by simplify_eq.
Qed.

Lemma translateSeries_seriesOf c metricDescriptor prev timeSeries np e :
  translateSeries c metricDescriptor prev timeSeries = Ok (np, Some e) ->
  seriesOf e = timeSeries.
Proof.
  unfold translateSeries.
  destruct (scanPoints _ _ _) as [[t newest]| |]; cbn [mbind result_bind]; [|done..].
  destruct (seriesLabels _ _) as [ks vs]. destruct (_ && _); [done|].
  destruct (metricValueTypeOf _ _) as [vt|]; [|done].
  destruct (emitSeries _ _ _ _ _ _ _) as [[e'|]| |] eqn:Hemit; cbn; try done.
  intros [= <- <-]. by eapply emitSeries_seriesOf.
Qed.

(** X11. The translator makes at most one call per series, for series of
    the page and in page order: the series of its calls are the page with
    some series left out. *)
Theorem one_call_per_series (c : MonitoringCollector) (newMetrics : option string)
    (page : list TimeSeries) (metricDescriptor : MetricDescriptor) :
  seriesOf <$> (reportTimeSeriesMetrics c newMetrics page metricDescriptor).1
    `sublist_of` page.
Proof.
  unfold reportTimeSeriesMetrics. destruct newMetrics; [apply sublist_nil_l|].
  generalize (@None Point). induction page as [|timeSeries page IH]; intros prev;
    cbn [translatePage]; [done|].
  destruct (translateSeries c metricDescriptor prev timeSeries) as [[np e]| |] eqn:Htr;
    [|apply sublist_nil_l..].
  specialize (IH np). destruct (translatePage c metricDescriptor page np) as [es r].
  cbn [fst] in *. destruct e as [e|].
  - change (seriesOf e :: (seriesOf <$> es) `sublist_of` timeSeries :: page).
    rewrite (translateSeries_seriesOf _ _ _ _ _ _ Htr). by apply sublist_skip.
  - change (seriesOf <$> es `sublist_of` timeSeries :: page). by apply sublist_cons.
Qed.

End translator_extra.

(** ** Fan-out *)

Local Open Scope nat_scope.

Section fanout_extra.
Variable units : list (list action).

Lemma count_sends_zero (script : list action) :
  count_sends script = 0 <-> ~ fails script.
Proof.
  unfold fails. induction script as [|a script IH].
  - split; [|done]. intros _ [err Herr]. by apply elem_of_nil in Herr.
  - rewrite count_sends_cons. destruct a; cbn [is_send].
    1,2,4,5: rewrite Nat.add_0_l, IH; split; intros Hno [e' He];
      apply Hno; exists e'; [by apply elem_of_cons in He as [|] | by right].
    split; [lia|]. intros Hno. exfalso. apply Hno. exists err. by left.
Qed.

Lemma pending_zero (ths : list (list action)) :
  pending ths = 0 <-> Forall (fun script => ~ fails script) ths.
Proof.
  unfold pending. induction ths as [|t ths IH]; cbn [fmap list_fmap sum_list foldr].
  - split; [by constructor|done].
  - rewrite Forall_cons, <- IH, <- count_sends_zero. cbn. lia.
Qed.

Lemma pending_all_nil (ths : list (list action)) :
  Forall (fun t => t = []) ths -> pending ths = 0.
Proof. unfold pending. induction 1 as [|t ths -> _ IH]; cbn; [done|]. by rewrite IH. Qed.

(** The sends done and the sends to come add up to the sends of the
    scripts. *)
Lemma step_conserves_sends (st : fanout) (k : nat) :
  length (chan (step st k)) + pending (threads (step st k))
  = length (chan st) + pending (threads st).
Proof.
  destruct k as [|i]; cbn [step].
  - unfold step_main. destruct (main st); try done. by destruct (forallb _ _).
  - unfold step_thread. destruct (main st); try done;
      destruct (threads st !! i) as [[|a rest]|] eqn:Hi; try done;
      pose proof (pending_insert _ _ _ rest Hi) as Hp; rewrite count_sends_cons in Hp;
      destruct a; try case_bool_decide; cbn [is_send threads chan] in *;
      rewrite ?length_app; cbn [length]; lia.
Qed.

Lemma run_conserves_sends (sched : list nat) : forall st,
  length (chan (run st sched)) + pending (threads (run st sched))
  = length (chan st) + pending (threads st).
Proof.
  induction sched as [|k sched IH]; intros st; [done|].
  by rewrite run_cons, IH, step_conserves_sends.
Qed.

Lemma mjoin_insert_perm (ths : list (list action)) (i : nat) (a : action) (rest : list action) :
  ths !! i = Some (a :: rest) -> mjoin ths ≡ₚ a :: mjoin (<[i := rest]> ths).
Proof.
  revert i. induction ths as [|t ths IH]; intros [|i] Hi; simplify_eq/=; [done|].
  rewrite (IH _ Hi). by rewrite Permutation_middle.
Qed.

(** What was done and what is left to do are, together, the scripts. *)
Lemma step_conserves_actions (st : fanout) (k : nat) :
  (snd <$> trace (step st k)) ++ mjoin (threads (step st k))
  ≡ₚ (snd <$> trace st) ++ mjoin (threads st).
Proof.
  destruct k as [|i]; cbn [step].
  - unfold step_main. destruct (main st); try done. by destruct (forallb _ _).
  - unfold step_thread. destruct (main st); try done;
      destruct (threads st !! i) as [[|a rest]|] eqn:Hi; try done;
      pose proof (mjoin_insert_perm _ _ _ _ Hi) as Hp;
      destruct a; try case_bool_decide; cbn [threads trace]; try done;
      rewrite fmap_app, <- app_assoc; cbn [fmap list_fmap snd app];
      by rewrite Hp.
Qed.

Lemma run_conserves_actions (sched : list nat) : forall st,
  (snd <$> trace (run st sched)) ++ mjoin (threads (run st sched))
  ≡ₚ (snd <$> trace st) ++ mjoin (threads st).
Proof.
  induction sched as [|k sched IH]; intros st; [done|].
  by rewrite run_cons, IH, step_conserves_actions.
Qed.

Lemma mjoin_all_nil (ths : list (list action)) :
  Forall (fun t => t = []) ths -> mjoin ths = [].
Proof. induction 1 as [|t ths -> _ IH]; [done|]. by cbn. Qed.

Lemma run_to_end_threads_done (sched : list nat) (r : option string) :
  Forall (fun script => count_sends script <= 1) units ->
  main (run_to_end units sched) = Returned r ->
  Forall (fun t => t = []) (threads (run_to_end units sched))
  /\ r = head (chan (run_to_end units sched)).
Proof.
  intros Hone Hr. destruct (run_to_end_returns units Hone sched) as [[_ _ _ _ _ Hm] _].
  by rewrite Hr in Hm.
Qed.

Lemma run_to_end_sends (sched : list nat) (r : option string) :
  Forall (fun script => count_sends script <= 1) units ->
  main (run_to_end units sched) = Returned r ->
  length (chan (run_to_end units sched)) = pending units
  /\ (r = None <-> Forall (fun script => ~ fails script) units).
Proof.
  intros Hone Hr. destruct (run_to_end_threads_done sched r Hone Hr) as [Hdone ->].
  pose proof (run_conserves_sends (sched ++ finish_schedule units) (fanout_init units)) as Hc.
  fold (run_to_end units sched) in Hc. rewrite (pending_all_nil _ Hdone) in Hc.
  cbn [fanout_init chan threads length] in Hc. split; [lia|].
  rewrite <- pending_zero. destruct (chan (run_to_end units sched)); cbn in *; split; (done || lia).
Qed.

Lemma run_to_end_actions (sched : list nat) (r : option string) :
  Forall (fun script => count_sends script <= 1) units ->
  main (run_to_end units sched) = Returned r ->
  snd <$> trace (run_to_end units sched) ≡ₚ mjoin units.
Proof.
  intros Hone Hr. destruct (run_to_end_threads_done sched r Hone Hr) as [Hdone _].
  pose proof (run_conserves_actions (sched ++ finish_schedule units) (fanout_init units)) as Hc.
  fold (run_to_end units sched) in Hc. rewrite (mjoin_all_nil _ Hdone), app_nil_r in Hc.
  by rewrite Hc.
Qed.

Lemma run_to_end_error_origin (sched : list nat) (err : string) :
  Forall (fun script => count_sends script <= 1) units ->
  main (run_to_end units sched) = Returned (Some err) ->
  exists script, script ∈ units /\ Send err ∈ script.
Proof.
  intros Hone Hr.
  destruct (run_to_end_returns units Hone sched) as [Hinv _].
  destruct (fanout_returned units _ _ Hinv Hr) as (_ & Hchan & Hhead).
  assert (Hin : err ∈ sends (trace (run_to_end units sched))).
  { rewrite <- Hchan. destruct (chan (run_to_end units sched)); simplify_eq/=. by left. }
  unfold sends in Hin. apply list_elem_of_omap in Hin as ([i a] & Hia & Ha).
  destruct a; simplify_eq/=.
  assert (Hs : Send err ∈ snd <$> trace (run_to_end units sched)).
  { apply list_elem_of_fmap. by exists (i, Send err). }
  rewrite (run_to_end_actions sched _ Hone Hr) in Hs.
  apply list_elem_of_join in Hs as (script & ? & ?). by exists script.
Qed.

Lemma step_trace_subset (st : fanout) (k : nat) (a : action) :
  a ∈ snd <$> trace (step st k) -> a ∈ (snd <$> trace st) ++ mjoin (threads st).
Proof.
  intros Ha. rewrite <- (step_conserves_actions st k). apply elem_of_app. by left.
Qed.

Lemma run_trace_subset (sched : list nat) (st : fanout) (a : action) :
  a ∈ snd <$> trace (run st sched) -> a ∈ (snd <$> trace st) ++ mjoin (threads st).
Proof.
  intros Ha. rewrite <- (run_conserves_actions sched st). apply elem_of_app. by left.
Qed.

Lemma run_to_end_trace_subset (sched : list nat) (a : action) :
  a ∈ snd <$> trace (run_to_end units sched) -> exists script, script ∈ units /\ a ∈ script.
Proof.
  intros Ha. apply run_trace_subset in Ha. cbn [fanout_init trace threads fmap list_fmap app] in Ha.
  apply list_elem_of_join in Ha as (script & ? & ?). by exists script.
Qed.

(** A panic is on the trace exactly when the process is dead. *)
Lemma step_crash_trace (st : fanout) (k : nat) :
  (main st = Crashed <-> Crash ∈ snd <$> trace st) ->
  (main (step st k) = Crashed <-> Crash ∈ snd <$> trace (step st k)).
Proof.
  intros Hst. destruct k as [|i]; cbn [step].
  - unfold step_main. destruct (main st) eqn:Hm; rewrite ?Hm.
    + destruct (forallb _ _); cbn [set_main main trace]; rewrite ?Hm; by rewrite <- Hst.
    + cbn [set_main main trace]. by rewrite <- Hst.
    + done.
    + done.
  - unfold step_thread. destruct (main st) eqn:Hm; rewrite ?Hm; try done;
      destruct (threads st !! i) as [[|a rest]|] eqn:Hi; rewrite ?Hm; try done;
      destruct a; try case_bool_decide; cbn [main trace]; rewrite ?Hm; try done;
      rewrite fmap_app, elem_of_app, <- Hst; cbn [fmap list_fmap snd];
      rewrite list_elem_of_singleton; split; (done || (by intros [|]) || (by right)).
Qed.

Lemma run_crash_trace (sched : list nat) : forall st,
  (main st = Crashed <-> Crash ∈ snd <$> trace st) ->
  (main (run st sched) = Crashed <-> Crash ∈ snd <$> trace (run st sched)).
Proof.
  induction sched as [|k sched IH]; intros st Hst; [done|].
  rewrite run_cons. by apply IH, step_crash_trace.
Qed.

Lemma run_to_end_crash_trace (sched : list nat) :
  main (run_to_end units sched) = Crashed <-> Crash ∈ snd <$> trace (run_to_end units sched).
Proof.
  apply run_crash_trace. cbn. split; [done|]. intros Hin. by apply elem_of_nil in Hin.
Qed.

Lemma run_to_end_crashes_iff (sched : list nat) :
  Forall (fun script => count_sends script <= 1) units ->
  main (run_to_end units sched) = Crashed <-> exists script, script ∈ units /\ Crash ∈ script.
Proof.
  intros Hone. split.
  - intros Hc. by apply (run_to_end_trace_subset sched), run_to_end_crash_trace.
  - intros (script & Hs & Hcrash).
    destruct (run_to_end_returns units Hone sched) as [_ [Hc|[r Hr]]]; [done|].
    exfalso. pose proof (run_to_end_actions sched r Hone Hr) as Hperm.
    assert (Hin : Crash ∈ snd <$> trace (run_to_end units sched)).
    { rewrite Hperm. apply list_elem_of_join. by exists script. }
    apply run_to_end_crash_trace in Hin. by rewrite Hr in Hin.
Qed.

End fanout_extra.

Local Open Scope Z_scope.

(** ** Scrape orchestrator *)

Section units_extra.
Context {L : GoLib}.
Context {C : Type} `{DescriptorCache C}.

Lemma string_app_assoc (a b c : string) : (a +:+ b) +:+ c = a +:+ (b +:+ c).
Proof.
  induction a as [|x a IH]; [done|].
  change (String x ((a +:+ b) +:+ c) = String x (a +:+ b +:+ c)). by f_equal.
Qed.

Lemma string_app_nil_r (a : string) : a +:+ "" = a.
Proof.
  induction a as [|x a IH]; [done|].
  change (String x (a +:+ "") = String x a). by f_equal.
Qed.

Lemma timeSeriesFilter_foldl (ty : string) (efs : list MetricFilter) : forall base : string,
  foldl (fun filter ef =>
           if strings_HasPrefix ty (mf_TargetedMetricPrefix ef)
           then filter +:+ " AND (" +:+ FilterQuery ef +:+ ")"
           else filter) base efs
  = base +:+ foldr String.append "" (filterClause <$> filter (fun ef => targets ty ef = true) efs).
Proof.
  induction efs as [|ef efs IH]; intros base; cbn [foldl].
  - cbn. by rewrite string_app_nil_r.
  - rewrite IH. unfold targets at 2. rewrite filter_cons.
    destruct (strings_HasPrefix ty (mf_TargetedMetricPrefix ef)) eqn:Hp.
    + rewrite decide_True by (unfold targets; by rewrite Hp).
      cbn [fmap list_fmap foldr]. unfold filterClause at 2.
      by rewrite !string_app_assoc.
    + rewrite decide_False by (unfold targets; by rewrite Hp). done.
Qed.

(** X13. The query filter of a descriptor is the filter it would have with
    no extra filters configured, followed by one [AND (...)] clause for
    each configured extra filter whose prefix the metric type starts
    with, in configuration order; the other extra filters leave no
    trace. *)
Theorem extra_filters_appended_in_order (c : MonitoringCollector)
    (metricDescriptor : MetricDescriptor) :
  timeSeriesFilter c metricDescriptor
  = timeSeriesFilter (withoutExtraFilters c) metricDescriptor
    +:+ foldr String.append ""
          (filterClause <$> filter (fun ef => targets (md_Type metricDescriptor) ef = true)
                              (metricsFilters c)).
Proof.
  unfold timeSeriesFilter. rewrite timeSeriesFilter_foldl.
  cbn [withoutExtraFilters metricsFilters monitoringDropDelegatedProjects projectID foldl].
  done.
Qed.

Lemma stops_last_nil : stops_last [].
Proof. intros pre a post Heq. by destruct pre. Qed.

Lemma stops_last_singleton (a : action) : stops_last [a].
Proof.
  intros pre b post Heq _. destruct pre as [|x pre]; [by simplify_eq/=|].
  simplify_eq/=. by destruct pre.
Qed.

Lemma stops_last_cons (a : action) (script : list action) :
  is_stop a = false -> stops_last script -> stops_last (a :: script).
Proof.
  intros Ha Hs pre b post Heq Hb. destruct pre as [|x pre]; simplify_eq/=.
  - congruence.
  - by eapply Hs.
Qed.

Lemma stops_last_app (quiet script : list action) :
  Forall (fun a => is_stop a = false) quiet -> stops_last script ->
  stops_last (quiet ++ script).
Proof.
  induction 1 as [|a quiet Ha _ IH]; intros Hs; [done|].
  cbn [app]. apply stops_last_cons; [done|]. by apply IH.
Qed.

Lemma emits_quiet (es : list emission) : Forall (fun a => is_stop a = false) (Emit <$> es).
Proof. induction es; constructor; done. Qed.

Lemma fetchPages_stops_last c env metricDescriptor q (pages : TimeSeriesPages) :
  forall pageToken, stops_last (fetchPages c env metricDescriptor q pageToken pages).
Proof.
  induction pages as [err| |series token next IH]; intros pageToken; cbn [fetchPages].
  - apply stops_last_cons; [done|]. apply stops_last_singleton.
  - apply stops_last_singleton.
  - apply stops_last_cons; [done|].
    destruct (reportTimeSeriesMetrics _ _ _ _) as [es r].
    apply stops_last_app; [apply emits_quiet|].
    destruct r; try apply stops_last_singleton.
    destruct (String.eqb token ""); [apply stops_last_nil|apply IH].
Qed.

(** X14. A descriptor's goroutine does nothing after it has sent an error
    or panicked: no further [Do()] call, no further call on the
    time-series metrics, no second send. *)
Theorem descriptor_goroutine_stops_at_first_error (c : MonitoringCollector) (env : Env)
    (metricDescriptor : MetricDescriptor) (startTime endTime : Instant) :
  stops_last (descriptorUnit c env metricDescriptor startTime endTime).
Proof.
  unfold descriptorUnit. destruct (queryWindow _ _ _ _) as [[s e]|].
  - apply fetchPages_stops_last.
  - apply stops_last_singleton.
Qed.

Lemma fetchTokens_emits (es : list emission) : fetchTokens (Emit <$> es) = [].
Proof. induction es; done. Qed.

Lemma fetchTokens_app (l k : list action) : fetchTokens (l ++ k) = fetchTokens l ++ fetchTokens k.
Proof. apply omap_app. Qed.

Lemma fetchTokens_fetch q pageToken (l : list action) :
  fetchTokens (Fetch q pageToken :: l) = pageToken :: fetchTokens l.
Proof. done. Qed.

Lemma fetchPages_tokens c env metricDescriptor q (pages : TimeSeriesPages) :
  forall pageToken,
  let script := fetchPages c env metricDescriptor q pageToken pages in
  fetchTokens script `prefix_of` pageToken :: pageTokens pages
  /\ head (fetchTokens script) = Some pageToken
  /\ (Forall (fun a => is_stop a = false) script ->
      fetchTokens script = pageToken :: pageTokens pages).
Proof.
  induction pages as [err| |series token next IH]; intros pageToken; cbn [fetchPages pageTokens].
  - cbn. split_and!; [done|done|]. intros Hq. by inversion Hq as [|?? _ Hq']; inversion Hq'.
  - cbn. done.
  - destruct (reportTimeSeriesMetrics _ _ _ _) as [es r].
    rewrite fetchTokens_fetch, fetchTokens_app, fetchTokens_emits. cbn [app].
    destruct r as [[]|err|].
    + destruct (String.eqb token "").
      * cbn. done.
      * destruct (IH token) as (Hpre & Hhd & Hall). split_and!.
        -- by apply prefix_cons.
        -- done.
        -- intros Hq. f_equal. apply Hall.
           inversion Hq as [|?? _ Hq']. by apply Forall_app in Hq' as [_ ?].
    + cbn. split_and!; [apply prefix_cons, prefix_nil|done|].
      intros Hq. exfalso. inversion Hq as [|?? _ Hq'].
      apply Forall_app in Hq' as [_ Hq']. by inversion Hq'.
    + cbn. split_and!; [apply prefix_cons, prefix_nil|done|].
      intros Hq. exfalso. inversion Hq as [|?? _ Hq'].
      apply Forall_app in Hq' as [_ Hq']. by inversion Hq'.
Qed.

(** X15. The [Do()] calls of a descriptor's goroutine start without a page
    token and then carry, in order, the [NextPageToken]s the API handed
    out: no page is skipped or requested twice, and the goroutine stops
    at the first empty token.  Where nothing failed, every page was
    requested. *)
Theorem calls_follow_page_tokens (c : MonitoringCollector) (env : Env)
    (metricDescriptor : MetricDescriptor) (startTime endTime : Instant)
    (q : TimeSeriesQuery) (pageToken : string) :
  Fetch q pageToken ∈ descriptorUnit c env metricDescriptor startTime endTime ->
  fetchTokens (descriptorUnit c env metricDescriptor startTime endTime)
    `prefix_of` ""%string :: pageTokens (ListTimeSeries env q)
  /\ head (fetchTokens (descriptorUnit c env metricDescriptor startTime endTime))
     = Some ""%string
  /\ (Forall (fun a => is_stop a = false)
        (descriptorUnit c env metricDescriptor startTime endTime) ->
      fetchTokens (descriptorUnit c env metricDescriptor startTime endTime)
      = ""%string :: pageTokens (ListTimeSeries env q)).
Proof.
  unfold descriptorUnit. destruct (queryWindow _ _ _ _) as [[s e]|].
  - intros Hin. apply fetchPages_query in Hin as ->. apply fetchPages_tokens.
  - intros Hin. apply list_elem_of_singleton in Hin. discriminate.
Qed.

Lemma descriptorUnit_window c env metricDescriptor startTime endTime q pageToken :
  Fetch q pageToken ∈ descriptorUnit c env metricDescriptor startTime endTime ->
  q_IntervalEndTime q - q_IntervalStartTime q = endTime - startTime.
Proof.
  unfold descriptorUnit. destruct (queryWindow _ _ _ _) as [[s e]|] eqn:Hw.
  - intros Hin. apply fetchPages_query in Hin as ->.
    apply queryWindow_shift in Hw as [-> ->]. cbn. lia.
  - intros Hin. apply list_elem_of_singleton in Hin. discriminate.
Qed.

Lemma descriptorUnits_elem c env now descriptors (script : list action) :
  script ∈ descriptorUnits c env now descriptors ->
  exists d, script = descriptorUnit c env d
              (time_Add (time_Add now (wrap_int64 (metricsOffset c * -1)))
                 (wrap_int64 (metricsInterval c * -1)))
              (time_Add now (wrap_int64 (metricsOffset c * -1))).
Proof.
  unfold descriptorUnits. intros Hin. apply list_elem_of_fmap in Hin as ([ty d] & -> & _).
  by exists d.
Qed.

Lemma actions_of_elem (st : fanout) (a : action) :
  a ∈ actions_of st <-> a ∈ snd <$> trace st /\ is_send a = false.
Proof. unfold actions_of. rewrite list_elem_of_filter. tauto. Qed.

(** What a prefix goroutine does is a send, a store, or an action of one
    of the descriptor goroutines of one of its batches. *)
Lemma listPages_elem c env prefix (pages : DescriptorPages) (a : action) :
  forall n cache, a ∈ (listPages c env prefix n pages cache).1.1 ->
  is_send a = true
  \/ exists t descriptors script,
       script ∈ descriptorUnits c env t descriptors /\ a ∈ script.
Proof.
  induction pages as [err|descriptors token next IH]; intros n cache; cbn [listPages].
  - cbn. intros Hin. apply list_elem_of_singleton in Hin as ->. by left.
  - set (st := metricDescriptorsFunction _ _ _ _ _).
    assert (Hst : a ∈ actions_of st ->
              exists t ds script, script ∈ descriptorUnits c env t ds /\ a ∈ script).
    { intros [Hin _]%actions_of_elem. apply run_to_end_trace_subset in Hin.
      destruct Hin as (script & ? & ?). by eexists _, _, script. }
    destruct (main st) as [| |[err|]|]; cbn [fst snd]; try (intros Hin; right; by apply Hst).
    + rewrite elem_of_app, list_elem_of_singleton. intros [Hin| ->]; [right; by apply Hst|by left].
    + destruct (String.eqb token ""); cbn [fst snd]; [intros Hin; right; by apply Hst|].
      specialize (IH (S n) (cache ++ descriptors)).
      destruct (listPages c env prefix (S n) next (cache ++ descriptors)) as [[acts cache'] back].
      cbn [fst snd] in *. rewrite elem_of_app. intros [Hin|Hin]; [right; by apply Hst|by apply IH].
Qed.

Lemma prefixUnit_elem c env (cache : C) now metricsTypePrefix (a : action) :
  a ∈ prefixUnit c env cache now metricsTypePrefix ->
  is_send a = true
  \/ (exists data, a = StoreDescriptors metricsTypePrefix data)
  \/ exists t descriptors script,
       script ∈ descriptorUnits c env t descriptors /\ a ∈ script.
Proof.
  unfold prefixUnit. destruct (Lookup cache now metricsTypePrefix) as [cached|].
  - rewrite elem_of_app. intros [[Hin _]%actions_of_elem|Hin].
    + apply run_to_end_trace_subset in Hin. destruct Hin as (script & ? & ?).
      right; right. by eexists _, _, script.
    + destruct (main _) as [| |[err|]|]; try by apply elem_of_nil in Hin.
      apply list_elem_of_singleton in Hin as ->. by left.
  - pose proof (listPages_elem c env metricsTypePrefix
      (ListMetricDescriptors env (descriptorFilter c metricsTypePrefix)) a 0%nat []) as Hl.
    destruct (listPages _ _ _ _ _ _) as [[acts data] back]. cbn [fst snd] in Hl.
    destruct back.
    + rewrite elem_of_app, list_elem_of_singleton. intros [Hin| ->].
      * destruct (Hl Hin) as [?|?]; [by left|by right; right].
      * right; left. by eexists.
    + intros Hin. destruct (Hl Hin) as [?|?]; [by left|by right; right].
Qed.

(** X16. Every time-series request of a scrape, under whichever prefix,
    from a listed or a cached descriptor, with or without an ingest
    delay, asks for a window exactly one request interval long. *)
Theorem every_request_spans_the_interval (c : MonitoringCollector) (env : Env)
    (cache : C) (now : Instant) (sched : list nat) :
  min_int64 < metricsInterval c <= max_int64 ->
  Forall (fun a => match a with
                   | Fetch q _ =>
                       q_IntervalEndTime q - q_IntervalStartTime q = metricsInterval c
                   | _ => True
                   end)
    (snd <$> trace (reportMonitoringMetrics c env cache now sched)).
Proof.
  intros Hint. apply Forall_forall. intros a Hin. destruct a as [q tok| | | |]; try done.
  apply run_to_end_trace_subset in Hin as (script & Hscript & Hin).
  apply list_elem_of_fmap in Hscript as (metricsTypePrefix & -> & _).
  apply prefixUnit_elem in Hin as [Hin|[[data Hin]|(t & ds & script & Hs & Hin)]]; try done.
  apply descriptorUnits_elem in Hs as [d ->].
  apply descriptorUnit_window in Hin. rewrite Hin. unfold time_Add.
  rewrite (wrap_int64_small (metricsInterval c * -1)); unfold min_int64, max_int64 in *; lia.
Qed.

End units_extra.

Section batch_extra.
Context {L : GoLib}.
Context {C : Type} `{DescriptorCache C}.

Lemma uniqueDescriptors_snoc (descriptors : list MetricDescriptor) (d : MetricDescriptor) :
  uniqueDescriptors (descriptors ++ [d]) = <[md_Type d := d]> (uniqueDescriptors descriptors).
Proof. unfold uniqueDescriptors. by rewrite foldl_app. Qed.

(** X17. [uniqueDescriptors] files under each type the descriptor of that
    type that comes last in the batch, and nothing else. *)
Theorem uniqueDescriptors_keeps_last_listed (descriptors : list MetricDescriptor)
    (ty : string) (d : MetricDescriptor) :
  uniqueDescriptors descriptors !! ty = Some d <->
  exists before after,
    descriptors = before ++ d :: after
    /\ md_Type d = ty
    /\ Forall (fun later => md_Type later <> ty) after.
Proof.
  induction descriptors as [|x descriptors IH] using rev_ind.
  - split; [done|]. intros (before & after & Heq & _). by destruct before.
  - rewrite uniqueDescriptors_snoc. destruct (decide (md_Type x = ty)) as [Hx|Hx].
    + rewrite Hx, lookup_insert_eq. split.
      * intros [= <-]. exists descriptors, []. by split_and!.
      * intros (before & after & Heq & Hd & Hafter).
        destruct after as [|y after _] using rev_ind.
        -- apply app_inj_tail in Heq as [_ ->]. done.
        -- rewrite app_comm_cons, app_assoc in Heq. apply app_inj_tail in Heq as [_ ->].
           apply Forall_app in Hafter as [_ Hy]. by inversion Hy.
    + rewrite lookup_insert_ne by done. rewrite IH. split.
      * intros (before & after & -> & Hd & Hafter).
        exists before, (after ++ [x]). split_and!; [by rewrite <- app_assoc|done|].
        apply Forall_app. split; [done|]. by constructor.
      * intros (before & after & Heq & Hd & Hafter).
        destruct after as [|y after _] using rev_ind.
        -- apply app_inj_tail in Heq as [_ ->]. done.
        -- rewrite app_comm_cons, app_assoc in Heq. apply app_inj_tail in Heq as [-> ->].
           apply Forall_app in Hafter as [Hafter _]. by exists before, after.
Qed.

Lemma run_to_end_error_of_a_unit (units : list (list action)) (sched : list nat) :
  Forall (fun script => count_sends script <= 1)%nat units ->
  returns_error_of_a_unit units (run_to_end units sched).
Proof.
  intros Hone r Hr. destruct r as [err|].
  - by apply (run_to_end_error_origin units sched).
  - destruct (run_to_end_sends units sched None Hone Hr) as [_ Hnone].
    intros script Hin. by eapply Forall_forall in Hin; [|by apply Hnone].
Qed.

(** X18. The error a scrape returns was sent by one of its prefix
    goroutines, and the scrape returns no error only if none of them
    sent one; the same holds of a descriptor batch and the goroutines
    of its descriptors.  No error is made up and none is lost
    altogether. *)
Theorem returned_error_comes_from_a_goroutine (c : MonitoringCollector) (env : Env)
    (cache : C) (now : Instant) (sched : list nat)
    (batchTime : Instant) (descriptors : list MetricDescriptor) (batchSched : list nat) :
  returns_error_of_a_unit
    (prefixUnit c env cache now <$> metricsTypePrefixes c)
    (reportMonitoringMetrics c env cache now sched)
  /\ returns_error_of_a_unit
       (descriptorUnits c env batchTime descriptors)
       (metricDescriptorsFunction c env batchTime descriptors batchSched).
Proof.
  split.
  - apply run_to_end_error_of_a_unit, prefixUnits_one_send.
  - apply run_to_end_error_of_a_unit, descriptorUnits_one_send.
Qed.

Lemma run_to_end_crashes_or_returns (units : list (list action)) (sched : list nat) :
  Forall (fun script => count_sends script <= 1)%nat units ->
  crashes_iff_a_unit_panics units (run_to_end units sched).
Proof.
  intros Hone. pose proof (run_to_end_crashes_iff units sched Hone) as Hcrash.
  split; [done|]. split.
  - intros [r Hr] script Hin Hc.
    assert (main (run_to_end units sched) = Crashed) as Hdead
      by (apply Hcrash; by exists script).
    congruence.
  - intros Hquiet. destruct (run_to_end_returns units Hone sched) as [_ [Hc|Hr]]; [|done].
    apply Hcrash in Hc as (script & Hin & Hc). by destruct (Hquiet script Hin).
Qed.

(** X19. Whatever the interleaving, a scrape ends in a crash exactly when
    one of its prefix goroutines panics and returns exactly when none
    does, and so does a descriptor batch with its descriptor goroutines:
    a panic is never swallowed, and nothing else keeps the call from
    returning (no send blocks for good, the wait always ends). *)
Theorem crashes_exactly_when_a_goroutine_panics (c : MonitoringCollector) (env : Env)
    (cache : C) (now : Instant) (sched : list nat)
    (batchTime : Instant) (descriptors : list MetricDescriptor) (batchSched : list nat) :
  crashes_iff_a_unit_panics
    (prefixUnit c env cache now <$> metricsTypePrefixes c)
    (reportMonitoringMetrics c env cache now sched)
  /\ crashes_iff_a_unit_panics
       (descriptorUnits c env batchTime descriptors)
       (metricDescriptorsFunction c env batchTime descriptors batchSched).
Proof.
  split.
  - apply run_to_end_crashes_or_returns, prefixUnits_one_send.
  - apply run_to_end_crashes_or_returns, descriptorUnits_one_send.
Qed.

Lemma run_to_end_same_outcome (units : list (list action)) (sched sched' : list nat) :
  Forall (fun script => count_sends script <= 1)%nat units ->
  same_outcome (run_to_end units sched) (run_to_end units sched').
Proof.
  intros Hone. unfold same_outcome.
  destruct (run_to_end_returns units Hone sched) as [_ [Hc|[r Hr]]];
    destruct (run_to_end_returns units Hone sched') as [_ [Hc'|[r' Hr']]].
  - by rewrite Hc, Hc'.
  - apply run_to_end_crashes_iff in Hc; [|done].
    apply (run_to_end_crashes_iff units sched') in Hc; [|done]. congruence.
  - apply run_to_end_crashes_iff in Hc'; [|done].
    apply (run_to_end_crashes_iff units sched) in Hc'; [|done]. congruence.
  - rewrite Hr, Hr'. split.
    + destruct (run_to_end_sends units sched r Hone Hr) as [_ ->].
      by destruct (run_to_end_sends units sched' r' Hone Hr') as [_ ->].
    + by rewrite (run_to_end_actions units sched r Hone Hr),
                 (run_to_end_actions units sched' r' Hone Hr').
Qed.


End batch_extra.

Section cache_extra.
Context {L : GoLib}.
Context {C : Type} `{DescriptorCache C}.

Lemma fetchPages_no_store c env metricDescriptor q (pages : TimeSeriesPages) :
  forall pageToken,
  Forall (fun a => is_store a = false) (fetchPages c env metricDescriptor q pageToken pages).
Proof.
  induction pages as [err| |series token next IH]; intros pageToken; cbn [fetchPages].
  - by repeat constructor.
  - by repeat constructor.
  - constructor; [done|]. destruct (reportTimeSeriesMetrics _ _ _ _) as [es r].
    apply Forall_app. split; [by apply Forall_fmap, Forall_true|].
    destruct r; try by repeat constructor.
    destruct (String.eqb token ""); [constructor|apply IH].
Qed.

Lemma descriptorUnit_no_store c env metricDescriptor startTime endTime :
  Forall (fun a => is_store a = false) (descriptorUnit c env metricDescriptor startTime endTime).
Proof.
  unfold descriptorUnit. destruct (queryWindow _ _ _ _) as [[s e]|].
  - apply fetchPages_no_store.
  - by repeat constructor.
Qed.

Lemma batch_no_store c env t descriptors sched :
  Forall (fun a => is_store a = false)
    (actions_of (metricDescriptorsFunction c env t descriptors sched)).
Proof.
  apply Forall_forall. intros a [Hin _]%actions_of_elem.
  apply run_to_end_trace_subset in Hin as (script & Hs & Hin).
  apply descriptorUnits_elem in Hs as [d ->].
  by eapply Forall_forall in Hin; [|apply descriptorUnit_no_store].
Qed.

Lemma batch_crash c env t descriptors sched :
  let st := metricDescriptorsFunction c env t descriptors sched in
  (main st = Crashed /\ Crash ∈ actions_of st)
  \/ (exists r, main st = Returned r) /\ Crash ∉ actions_of st.
Proof.
  intros st.
  destruct (run_to_end_returns _ (descriptorUnits_one_send c env t descriptors) sched)
    as [_ [Hc|[r Hr]]]; fold (metricDescriptorsFunction c env t descriptors sched) in *.
  - left. split; [done|]. apply actions_of_elem. split; [|done].
    by apply run_to_end_crash_trace.
  - right. split; [by exists r|]. intros [Hin _]%actions_of_elem.
    apply run_to_end_crash_trace in Hin.
    unfold metricDescriptorsFunction in Hr. congruence.
Qed.

Lemma listPages_spec c env prefix (pages : DescriptorPages) :
  forall n cache,
  let '(acts, data, back) := listPages c env prefix n pages cache in
  data = cache ++ concat (take (pagesWalked c env prefix n pages) (listing pages))
  /\ Forall (fun a => is_store a = false) acts
  /\ (if back then Crash ∉ acts else Crash ∈ acts).
Proof.
  induction pages as [err|descriptors token next IH]; intros n cache;
    cbn [listPages pagesWalked listing].
  - cbn. rewrite app_nil_r. split_and!; [done|by repeat constructor|].
    intros Hin. apply list_elem_of_singleton in Hin. discriminate.
  - pose proof (batch_no_store c env (clock env prefix n) descriptors (schedule env prefix n)) as Hns.
    pose proof (batch_crash c env (clock env prefix n) descriptors (schedule env prefix n)) as Hcr.
    cbn zeta in Hcr.
    set (st := metricDescriptorsFunction _ _ _ _ _) in *.
    destruct Hcr as [[Hc Hin]|[[r Hr] Hnin]].
    + rewrite Hc. cbn [take concat]. rewrite app_nil_r. done.
    + rewrite Hr. destruct r as [err|].
      * cbn [take concat]. rewrite app_nil_r. split_and!; [done| |].
        -- apply Forall_app. split; [done|by repeat constructor].
        -- rewrite elem_of_app, list_elem_of_singleton. intros [?|?]; [done|discriminate].
      * destruct (String.eqb token "").
        -- cbn [take concat]. rewrite app_nil_r. done.
        -- specialize (IH (S n) (cache ++ descriptors)).
           destruct (listPages c env prefix (S n) next (cache ++ descriptors))
             as [[acts data] back].
           destruct IH as (-> & Hst & Hback). cbn [take concat].
           split_and!; [by rewrite <- app_assoc|by apply Forall_app|].
           destruct back.
           ++ rewrite elem_of_app. by intros [?|?].
           ++ apply elem_of_app. by right.
Qed.

(** X21. The descriptor cache is written only by a prefix goroutine that
    missed it, once, as the last thing the goroutine does, and only if no
    descriptor goroutine panicked.  What is stored under the prefix are
    the descriptors of the pages that reached the callback, in listing
    order, or nil if there were none; so after an error half-way the
    pages listed so far are cached as if they were the whole listing. *)
Theorem cache_written_once_after_listing (c : MonitoringCollector) (env : Env)
    (cache : C) (now : Instant) (metricsTypePrefix : string) :
  let script := prefixUnit c env cache now metricsTypePrefix in
  let pages := ListMetricDescriptors env (descriptorFilter c metricsTypePrefix) in
  let walked := concat (take (pagesWalked c env metricsTypePrefix 0 pages) (listing pages)) in
  match Lookup cache now metricsTypePrefix with
  | Some _ => Forall (fun a => is_store a = false) script
  | None =>
      (Crash ∈ script /\ Forall (fun a => is_store a = false) script)
      \/ ((Crash ∉ script)
          /\ exists acts,
               script = acts ++ [StoreDescriptors metricsTypePrefix
                                   (match walked with [] => None | _ => Some walked end)]
               /\ Forall (fun a => is_store a = false) acts)
  end.
Proof.
  intros script pages walked. unfold prefixUnit in script.
  destruct (Lookup cache now metricsTypePrefix) as [cached|].
  - apply Forall_app. split; [apply batch_no_store|].
    destruct (main _) as [| |[err|]|]; by repeat constructor.
  - pose proof (listPages_spec c env metricsTypePrefix pages 0%nat []) as Hspec.
    fold pages in script.
    destruct (listPages c env metricsTypePrefix 0 pages []) as [[acts data] back].
    destruct Hspec as (Hdata & Hst & Hback). cbn [app] in Hdata. fold walked in Hdata.
    subst data. destruct back; [right|by left].
    split; [|by exists acts].
    unfold script. rewrite elem_of_app, list_elem_of_singleton. intros [?|?]; [done|discriminate].
Qed.

(** X22. With ingest delays on, a descriptor whose declared ingest delay
    does not parse gets no [Do()] call at all, and its batch returns an
    error (or crashes) however the other descriptors fare. *)
Theorem unparseable_ingest_delay_fails_batch {Laws : GoLibLaws L}
    (c : MonitoringCollector) (env : Env) (now : Instant)
    (descriptors : list MetricDescriptor) (sched : list nat)
    (ty : string) (d : MetricDescriptor) (meta : MetricDescriptorMetadata) :
  uniqueDescriptors descriptors !! ty = Some d ->
  metricsIngestDelay c = true ->
  md_Metadata d = Some meta ->
  IngestDelay meta <> ""%string ->
  time_ParseDuration (IngestDelay meta) = None ->
  (forall startTime endTime,
     fetchTokens (descriptorUnit c env d startTime endTime) = [])
  /\ main (metricDescriptorsFunction c env now descriptors sched) <> Returned None.
Proof.
  intros Hd Hon Hmeta Hdelay Hparse.
  assert (Hunit : forall startTime endTime,
            descriptorUnit c env d startTime endTime
            = [Send ("time: invalid duration " +:+ quoted_s (IngestDelay meta))]).
  { intros s e. unfold descriptorUnit, queryWindow. rewrite Hmeta, Hon, Hparse.
    apply String.eqb_neq in Hdelay. by rewrite Hdelay. }
  split; [intros s e; by rewrite Hunit|].
  intros Hr.
  destruct (run_to_end_sends _ sched None (descriptorUnits_one_send c env now descriptors) Hr)
    as [_ Hnone].
  pose proof (proj1 Hnone eq_refl) as Hall.
  apply go_range_elem in Hd.
  apply (Forall_fmap (fun kv => descriptorUnit c env kv.2 _ _)) in Hall.
  eapply Forall_forall in Hall; [|exact Hd].
  apply Hall. eexists. cbn [snd]. rewrite Hunit. by left.
Qed.

End cache_extra.

Section crash_extra.
Context {L : GoLib}.

Lemma histogram_error_iff (dist : Distribution) (msg : string) :
  generateHistogramBuckets dist = Err msg <->
  ExplicitBuckets (dist_BucketOptions dist) = None
  /\ LinearBuckets (dist_BucketOptions dist) = None
  /\ ExponentialBuckets (dist_BucketOptions dist) = None
  /\ msg = "Unknown distribution buckets"%string.
Proof.
  unfold generateHistogramBuckets, histogramBucketKeys, make_float64s, set_last.
  destruct (ExplicitBuckets _) as [e|]; [|destruct (LinearBuckets _) as [l|];
    [|destruct (ExponentialBuckets _) as [x|]]].
  - destruct (makeslice_ok _); cbn [mbind result_bind]; [|split; [done|by intros (?&?)]].
    destruct (length _); cbn [mbind result_bind]; split; (done || by intros (?&?)).
  - destruct (makeslice_ok _); cbn [mbind result_bind]; [|split; [done|by intros (?&?&?)]].
    destruct (length _); cbn [mbind result_bind]; split; (done || by intros (?&?&?)).
  - destruct (makeslice_ok _); cbn [mbind result_bind]; [|split; [done|by intros (?&?&?&?)]].
    destruct (length _); cbn [mbind result_bind]; split; (done || by intros (?&?&?&?)).
  - cbn [mbind result_bind]. split.
    + by intros [= <-].
    + by intros (_&_&_&->).
Qed.

(** X23. A series of value type DISTRIBUTION whose newest point carries a
    distribution is passed over without a call and without an error
    exactly when the bucket options of the distribution name none of the
    three bucket layouts. *)
Theorem distribution_discarded_iff_no_layout (c : MonitoringCollector)
    (timeSeries : TimeSeries) (newestEndTime : Instant) (point : Point) (dist : Distribution)
    (labelKeys labelValues : list string) (metricValueType : ValueType) :
  ts_ValueType timeSeries = "DISTRIBUTION"%string ->
  DistributionValue (Value point) = Some dist ->
  emitSeries c timeSeries newestEndTime (Some point) labelKeys labelValues metricValueType
  = Ok None
  <-> ExplicitBuckets (dist_BucketOptions dist) = None
      /\ LinearBuckets (dist_BucketOptions dist) = None
      /\ ExponentialBuckets (dist_BucketOptions dist) = None.
Proof.
  intros Hvt Hdist. unfold emitSeries. rewrite Hvt.
  change (String.eqb "DISTRIBUTION" "BOOL") with false.
  change (String.eqb "DISTRIBUTION" "INT64") with false.
  change (String.eqb "DISTRIBUTION" "DOUBLE") with false.
  change (String.eqb "DISTRIBUTION" "DISTRIBUTION") with true.
  cbn [deref mbind result_bind]. rewrite Hdist. cbn [deref mbind result_bind].
  destruct (generateHistogramBuckets dist) as [buckets|msg|] eqn:Hg.
  - split; [done|]. intros (?&?&?).
    assert (generateHistogramBuckets dist = Err "Unknown distribution buckets") as Herr
      by by apply histogram_error_iff.
    congruence.
  - split; [|done]. intros _. apply histogram_error_iff in Hg. tauto.
  - split; [done|]. intros (?&?&?).
    assert (generateHistogramBuckets dist = Err "Unknown distribution buckets") as Herr
      by by apply histogram_error_iff.
    congruence.
Qed.

Lemma emitSeries_nil_point (c : MonitoringCollector) (timeSeries : TimeSeries)
    (newestEndTime : Instant) (labelKeys labelValues : list string)
    (metricValueType : ValueType) :
  ts_ValueType timeSeries ∈ ["BOOL"; "INT64"; "DOUBLE"; "DISTRIBUTION"]%string ->
  emitSeries c timeSeries newestEndTime None labelKeys labelValues metricValueType = Panic.
Proof.
  intros Hvt. unfold emitSeries.
  repeat (apply elem_of_cons in Hvt as [->|Hvt]; [done|]).
  by apply elem_of_nil in Hvt.
Qed.

Lemma translatePage_first_empty (c : MonitoringCollector) (metricDescriptor : MetricDescriptor)
    (timeSeries : TimeSeries) (rest : list TimeSeries) (metricValueType : ValueType) :
  ts_Points timeSeries = [] ->
  metricValueTypeOf (aggregateDeltas c) (ts_MetricKind timeSeries) = Some metricValueType ->
  ts_ValueType timeSeries ∈ ["BOOL"; "INT64"; "DOUBLE"; "DISTRIBUTION"]%string ->
  monitoringDropDelegatedProjects c = false ->
  reportTimeSeriesMetrics c None (timeSeries :: rest) metricDescriptor = ([], Panic).
Proof.
  intros Hpoints Hkind Hvt Hdrop. unfold reportTimeSeriesMetrics. cbn [translatePage].
  rewrite (translateSeries_no_points c metricDescriptor None timeSeries metricValueType)
    by done.
  by rewrite emitSeries_nil_point.
Qed.

(** X24. If the first series of the first page answered for a descriptor
    has no points, while its metric kind and value type are ones the
    collector exposes (and the delegated-project filter is off), the
    descriptor's goroutine dereferences a nil point and the whole batch
    crashes, under every interleaving. *)
Theorem empty_first_series_crashes_batch {Laws : GoLibLaws L}
    (c : MonitoringCollector) (env : Env) (now : Instant)
    (descriptors : list MetricDescriptor) (sched : list nat)
    (ty : string) (d : MetricDescriptor) (q : TimeSeriesQuery)
    (timeSeries : TimeSeries) (rest : list TimeSeries) (token : string)
    (next : TimeSeriesPages) (metricValueType : ValueType) :
  uniqueDescriptors descriptors !! ty = Some d ->
  head (descriptorUnit c env d
          (time_Add (time_Add now (wrap_int64 (metricsOffset c * -1)))
             (wrap_int64 (metricsInterval c * -1)))
          (time_Add now (wrap_int64 (metricsOffset c * -1))))
  = Some (Fetch q "") ->
  ListTimeSeries env q = TSPage (timeSeries :: rest) token next ->
  newMetricsError env d = None ->
  ts_Points timeSeries = [] ->
  metricValueTypeOf (aggregateDeltas c) (ts_MetricKind timeSeries) = Some metricValueType ->
  ts_ValueType timeSeries ∈ ["BOOL"; "INT64"; "DOUBLE"; "DISTRIBUTION"]%string ->
  monitoringDropDelegatedProjects c = false ->
  main (metricDescriptorsFunction c env now descriptors sched) = Crashed.
Proof.
  intros Hd Hhead Hpages Hnew Hpoints Hkind Hvt Hdrop.
  apply run_to_end_crashes_iff; [apply descriptorUnits_one_send|].
  eexists. split.
  - unfold descriptorUnits. apply list_elem_of_fmap. exists (ty, d).
    split; [done|]. by apply go_range_elem.
  - cbn [snd]. revert Hhead. unfold descriptorUnit.
    destruct (queryWindow _ _ _ _) as [[s e]|]; [|done].
    set (q' := {| q_Filter := _ |}).
    destruct (ListTimeSeries env q') eqn:Hq'; cbn [fetchPages head]; intros [= <-];
      rewrite Hpages in Hq'; try done.
    injection Hq' as <- <- <-. rewrite Hnew.
    rewrite (translatePage_first_empty c d timeSeries rest metricValueType) by done.
    cbn. right. by left.
Qed.

End crash_extra.

(** ** Self-metrics *)

Section collect_extra.
Context {L : GoLib}.
Context {C : Type} `{DescriptorCache C}.

Lemma float_one_not_zero : 1%float <> 0%float.
Proof.
  intros Heq. apply (f_equal (fun x => PrimFloat.eqb x 0)) in Heq.
  vm_compute in Heq. discriminate.
Qed.

(** X25. What [Collect] reports about a scrape is what its goroutines did:
    it comes back exactly when no prefix goroutine panics; it then counts
    one scrape, and it sets the error gauge to 1 and counts one scrape
    error exactly when some prefix goroutine sent an error, and sets the
    gauge to 0 and leaves the error counter alone otherwise. *)
Theorem collect_reports_goroutine_errors (c : MonitoringCollector) (env : Env) (cache : C)
    (m : selfMetrics) (clk : scrapeClock) (sched : list nat) :
  let units := prefixUnit c env cache (lookedUp clk) <$> metricsTypePrefixes c in
  match Collect c env cache m clk sched with
  | None => exists script, script ∈ units /\ Crash ∈ script
  | Some m' =>
      (forall script, script ∈ units -> Crash ∉ script)
      /\ scrapesTotalMetric m' = counter_Inc (scrapesTotalMetric m)
      /\ ((exists script, script ∈ units /\ fails script)
          /\ lastScrapeErrorMetric m' = 1%float
          /\ scrapeErrorsTotalMetric m' = counter_Inc (scrapeErrorsTotalMetric m)
          \/ (forall script, script ∈ units -> ~ fails script)
             /\ lastScrapeErrorMetric m' = 0%float
             /\ scrapeErrorsTotalMetric m' = scrapeErrorsTotalMetric m)
  end.
Proof.
  intros units. unfold Collect, reportMonitoringMetrics. fold units.
  pose proof (prefixUnits_one_send c env cache (lookedUp clk)) as Hone.
  pose proof (run_to_end_crashes_iff units sched Hone) as Hcrash.
  pose proof (run_to_end_error_origin units sched) as Horigin.
  pose proof (run_to_end_sends units sched) as Hsends.
  destruct (run_to_end_returns units Hone sched) as [_ Hend]. cbn zeta in Hend.
  destruct (main (run_to_end units sched)) as [| |err|] eqn:Hmain.
  - by destruct Hend as [?|[? ?]].
  - by destruct Hend as [?|[? ?]].
  - cbn [scrapesTotalMetric lastScrapeErrorMetric scrapeErrorsTotalMetric]. split_and!.
    + intros script Hin Hc. assert (Returned err = Crashed); [|done].
      apply Hcrash. by exists script.
    + done.
    + destruct err as [err|].
      * left. split_and!; [|done..].
        destruct (Horigin err Hone eq_refl) as (script & ? & ?).
        exists script. split; [done|]. by exists err.
      * right. split_and!; [|done..].
        destruct (Hsends None Hone eq_refl) as [_ Hnone].
        intros script Hin. by eapply Forall_forall in Hin; [|by apply Hnone].
  - by apply Hcrash.
Qed.

Lemma counter_Inc_small (v : Z) : 0 <= v < two_64 - 1 -> counter_Inc v = v + 1.
Proof.
  intros Hv. unfold counter_Inc, wrap_uint64. apply Z.mod_small. unfold two_64 in *. lia.
Qed.

Lemma collects_snoc (c : MonitoringCollector) (scrapes : list scrape) (s : scrape)
    (m : selfMetrics) :
  collects c (scrapes ++ [s]) m
  = (m' ← collects c scrapes m; Collect c (s_env s) (s_cache s) m' (s_clock s) (s_sched s)).
Proof. unfold collects. by rewrite foldl_app. Qed.

Lemma Collect_counters (c : MonitoringCollector) (s : scrape) (m m' : selfMetrics) :
  Collect c (s_env s) (s_cache s) m (s_clock s) (s_sched s) = Some m' ->
  scrapesTotalMetric m' = counter_Inc (scrapesTotalMetric m)
  /\ scrapeErrorsTotalMetric m'
     = (if scrapeFails c s then counter_Inc (scrapeErrorsTotalMetric m)
        else scrapeErrorsTotalMetric m)
  /\ lastScrapeErrorMetric m' = (if scrapeFails c s then 1%float else 0%float).
Proof.
  unfold Collect, scrapeFails.
  destruct (main _) as [| |[err|]|]; intros [= <-]; done.
Qed.

(** X26. Over any run of fewer than 2^64 scrapes from a fresh collector,
    none of which crashed, the scrape counter is the number of scrapes,
    the error counter the number of scrapes that returned an error (so
    never more than the scrape counter), and the error gauge tells
    whether the last scrape did. *)
Theorem scrape_counters_count_scrapes (c : MonitoringCollector) (scrapes : list scrape)
    (m : selfMetrics) :
  collects c scrapes newSelfMetrics = Some m ->
  Z.of_nat (length scrapes) < two_64 ->
  scrapesTotalMetric m = Z.of_nat (length scrapes)
  /\ scrapeErrorsTotalMetric m
     = Z.of_nat (length (filter (fun s => scrapeFails c s = true) scrapes))
  /\ scrapeErrorsTotalMetric m <= scrapesTotalMetric m
  /\ lastScrapeErrorMetric m
     = match last scrapes with
       | Some s => if scrapeFails c s then 1%float else 0%float
       | None => 0%float
       end.
Proof.
  revert m. induction scrapes as [|s scrapes IH] using rev_ind; intros m.
  - intros [= <-] _. done.
  - rewrite collects_snoc, length_app, filter_app, length_app, last_snoc. cbn [length].
    destruct (collects c scrapes newSelfMetrics) as [m0|] eqn:Hm0; [|done].
    cbn [mbind option_bind]. intros Hm Hlen.
    destruct (IH m0 eq_refl) as (Hs & He & Hle & _); [lia|].
    apply Collect_counters in Hm as (-> & -> & ->).
    pose proof (length_filter (fun s => scrapeFails c s = true) scrapes) as Hfl.
    rewrite filter_cons, filter_nil.
    rewrite counter_Inc_small by (unfold two_64 in *; lia).
    destruct (scrapeFails c s) eqn:Hf.
    + rewrite decide_True by done. cbn [length].
      rewrite counter_Inc_small by (unfold two_64 in *; lia). split_and!; [lia|lia|lia|done].
    + rewrite decide_False by done. cbn [length]. split_and!; [lia|lia|lia|done].
Qed.

Lemma fetchTokens_none (script : list action) :
  Forall (fun a => fetchTokens [a] = []) script -> fetchTokens script = [].
Proof.
  induction 1 as [|a script Ha _ IH]; [done|].
  change (a :: script) with ([a] ++ script). by rewrite fetchTokens_app, Ha, IH.
Qed.

Lemma sum_list_zero {A} (f : A -> nat) (l : list A) :
  Forall (fun x => f x = 0%nat) l -> sum_list (f <$> l) = 0%nat.
Proof. induction 1 as [|x l Hx _ IH]; [done|]. cbn. by rewrite Hx, IH. Qed.

(** X27. A descriptor listing that fails at its first request is not
    counted as an API call: if every prefix misses the cache and its
    listing fails at once, the scrape makes no [Do()] call, comes back
    with the error gauge at 1, and leaves the API-call counter where it
    was. *)
Theorem failed_listing_is_not_counted (c : MonitoringCollector) (env : Env) (cache : C)
    (m : selfMetrics) (clk : scrapeClock) (sched : list nat) :
  metricsTypePrefixes c <> [] ->
  (forall metricsTypePrefix, metricsTypePrefix ∈ metricsTypePrefixes c ->
     Lookup cache (lookedUp clk) metricsTypePrefix = None
     /\ exists err,
          ListMetricDescriptors env (descriptorFilter c metricsTypePrefix) = MDErr err) ->
  exists m',
    Collect c env cache m clk sched = Some m'
    /\ apiCallsTotalMetric m' = apiCallsTotalMetric m
    /\ lastScrapeErrorMetric m' = 1%float
    /\ fetchTokens (snd <$> trace (reportMonitoringMetrics c env cache (lookedUp clk) sched))
       = [].
Proof.
  intros Hsome Hall.
  set (units := prefixUnit c env cache (lookedUp clk) <$> metricsTypePrefixes c).
  assert (Hunits : forall script, script ∈ units ->
            exists metricsTypePrefix err,
              script = [Send err; StoreDescriptors metricsTypePrefix None]).
  { intros script (metricsTypePrefix & -> & Hin)%list_elem_of_fmap.
    destruct (Hall _ Hin) as (Hmiss & err & Herr).
    exists metricsTypePrefix, err. unfold prefixUnit. by rewrite Hmiss, Herr. }
  pose proof (prefixUnits_one_send c env cache (lookedUp clk)) as Hone. fold units in Hone.
  assert (Hcalls : fetchTokens (snd <$> trace (run_to_end units sched)) = []).
  { apply fetchTokens_none, Forall_forall. intros a Ha.
    apply run_to_end_trace_subset in Ha as (script & Hs & Ha).
    destruct (Hunits _ Hs) as (p & err & ->).
    repeat (apply elem_of_cons in Ha as [->|Ha]; [done|]). by apply elem_of_nil in Ha. }
  assert (Hwalked : sum_list ((fun metricsTypePrefix =>
                       match Lookup cache (lookedUp clk) metricsTypePrefix with
                       | Some _ => 0%nat
                       | None =>
                           pagesWalked c env metricsTypePrefix 0
                             (ListMetricDescriptors env (descriptorFilter c metricsTypePrefix))
                       end) <$> metricsTypePrefixes c) = 0%nat).
  { apply sum_list_zero, Forall_forall. intros p Hp.
    by destruct (Hall p Hp) as (-> & err & ->). }
  destruct (run_to_end_returns units Hone sched) as [_ [Hc|[r Hr]]].
  - apply run_to_end_crashes_iff in Hc as (script & Hs & Hc); [|done].
    destruct (Hunits _ Hs) as (p & err & ->).
    repeat (apply elem_of_cons in Hc as [?|Hc]; [done|]). by apply elem_of_nil in Hc.
  - destruct r as [err|].
    + eexists. unfold Collect, reportMonitoringMetrics. fold units. rewrite Hr.
      split; [done|]. cbn [apiCallsTotalMetric lastScrapeErrorMetric].
      unfold apiCallsOf. rewrite Hcalls, Hwalked. done.
    + exfalso. destruct (run_to_end_sends units sched None Hone Hr) as [_ Hnone].
      pose proof (proj1 Hnone eq_refl) as Hquiet.
      assert (exists p, p ∈ metricsTypePrefixes c) as [p Hp0].
      { revert Hsome. destruct (metricsTypePrefixes c) as [|p ps]; [done|].
        intros _. exists p. by left. }
      assert (Hp : prefixUnit c env cache (lookedUp clk) p ∈ units).
      { apply list_elem_of_fmap. by exists p. }
      eapply Forall_forall in Hquiet; [|exact Hp].
      destruct (Hunits _ Hp) as (q & err & Heq). apply Hquiet. exists err.
      rewrite Heq. by left.
Qed.

End collect_extra.

(** ** Instances *)

(** Linear buckets with -2 finite buckets. *)
Lemma histogram_panics_on_bad_bucket_number_witness :
  numFiniteBucketsOf (dist_BucketOptions (Ex.linearBuckets (-2) 0 1 [3])) = Some (-2)
  /\ generateHistogramBuckets (L := Ref.lib) (Ex.linearBuckets (-2) 0 1 [3]) = Panic
  /\ (forall msg, generateHistogramBuckets (L := Ref.lib) (Ex.linearBuckets (-2) 0 1 [3])
                  <> Err msg).
Proof.
  assert (Hnum : min_int64 <= -2 <= max_int64) by (vm_compute; split; discriminate).
  destruct (histogram_panics_on_bad_bucket_number (L := Ref.lib)
              (Ex.linearBuckets (-2) 0 1 [3]) (-2) eq_refl Hnum) as [Hpanic Herr].
  split; [reflexivity|]. split; [apply Hpanic; left; lia|exact Herr].
Defined.

(** Explicit bounds 1 and 2 with the counts 3, 4 and 5. *)
Lemma histogram_counts_monotone_witness :
  generateHistogramBuckets (L := Ref.lib) (Ex.explicitBuckets [1%float; 2%float] [3; 4; 5])
  = Ok [(1%float, 3); (2%float, 7); (math_Inf_1, 12)]
  /\ bm_load [(1%float, 3); (2%float, 7); (math_Inf_1, 12)] 1%float
     <= bm_load [(1%float, 3); (2%float, 7); (math_Inf_1, 12)] math_Inf_1.
Proof.
  assert (Hkeys : histogramBucketKeys (L := Ref.lib)
                    (Ex.explicitBuckets [1%float; 2%float] [3; 4; 5])
                  = Ok [1%float; 2%float; math_Inf_1]) by (vm_compute; reflexivity).
  assert (Hbuckets : generateHistogramBuckets (L := Ref.lib)
                       (Ex.explicitBuckets [1%float; 2%float] [3; 4; 5])
                     = Ok [(1%float, 3); (2%float, 7); (math_Inf_1, 12)])
    by (vm_compute; reflexivity).
  split; [exact Hbuckets|].
  apply (histogram_counts_monotone (L := Ref.lib) _ _ _ 0%nat 2%nat _ _ Hkeys Hbuckets
           (distinct_keysb_correct [1%float; 2%float; math_Inf_1] eq_refl)).
  - cbn. repeat constructor; lia.
  - vm_compute. reflexivity.
  - reflexivity.
  - reflexivity.
  - lia.
Defined.

(** Two bounds, hence three boundaries, and four counts. *)
Lemma histogram_ignores_surplus_counts_witness :
  histogramBucketKeys (L := Ref.lib) (Ex.explicitBuckets [1%float; 2%float] [3; 4; 5; 6])
  = Ok [1%float; 2%float; math_Inf_1]
  /\ generateHistogramBuckets (L := Ref.lib)
       (truncateCounts 3 (Ex.explicitBuckets [1%float; 2%float] [3; 4; 5; 6]))
     = generateHistogramBuckets (L := Ref.lib)
         (Ex.explicitBuckets [1%float; 2%float] [3; 4; 5; 6]).
Proof.
  assert (Hkeys : histogramBucketKeys (L := Ref.lib)
                    (Ex.explicitBuckets [1%float; 2%float] [3; 4; 5; 6])
                  = Ok [1%float; 2%float; math_Inf_1]) by (vm_compute; reflexivity).
  split; [exact Hkeys|].
  exact (histogram_ignores_surplus_counts (L := Ref.lib) _ _ Hkeys).
Defined.

(** Equal bounds: two boundaries, one entry less. *)
Lemma histogram_keys_are_boundaries_witness :
  generateHistogramBuckets (L := Ref.lib) (Ex.explicitBuckets [1%float; 1%float] [3; 4; 5])
  = Ok [(1%float, 7); (math_Inf_1, 12)]
  /\ (forall k v, (k, v) ∈ [(1%float, 7); (math_Inf_1, 12)] ->
                  k ∈ [1%float; 1%float; math_Inf_1])
  /\ (length [(1%float, 7); (math_Inf_1, 12)] <= length [1%float; 1%float; math_Inf_1])%nat.
Proof.
  assert (Hkeys : histogramBucketKeys (L := Ref.lib)
                    (Ex.explicitBuckets [1%float; 1%float] [3; 4; 5])
                  = Ok [1%float; 1%float; math_Inf_1]) by (vm_compute; reflexivity).
  assert (Hbuckets : generateHistogramBuckets (L := Ref.lib)
                       (Ex.explicitBuckets [1%float; 1%float] [3; 4; 5])
                     = Ok [(1%float, 7); (math_Inf_1, 12)])
    by (vm_compute; reflexivity).
  destruct (histogram_keys_are_boundaries (L := Ref.lib) _ _ _ Hkeys Hbuckets)
    as (Hin & Hlen & _).
  split; [exact Hbuckets|]. split; [exact Hin|exact Hlen].
Defined.

Lemma label_set_is_first_seen_witness :
  list_to_map (zip (seriesLabels (L := Ref.lib) (Ex.requests "projects/p1") Ex.series_a).1
                   (seriesLabels (L := Ref.lib) (Ex.requests "projects/p1") Ex.series_a).2)
  = firstSeen (L := Ref.lib) (Ex.requests "projects/p1") Ex.series_a.
Proof.
  exact (label_set_is_first_seen (L := Ref.lib) (Laws := ref_laws)
           (Ex.requests "projects/p1") Ex.series_a).
Defined.

(** The series of project [p1] seen by the strict collector of [p1]. *)
Lemma delegated_project_filter_witness :
  monitoringDropDelegatedProjects Cases.strict = true
  /\ (forall p,
        firstSeen (L := Ref.lib) (Ex.requests "projects/p1") Ex.series_a
          !! "project_id"%string = Some p ->
        p <> projectID Cases.strict ->
        translateSeries (L := Ref.lib) Cases.strict (Ex.requests "projects/p1") None Ex.series_a
        = Ok (Some Ex.point_5, None))
  /\ (firstSeen (L := Ref.lib) (Ex.requests "projects/p1") Ex.series_a
        !! "project_id"%string = None
      \/ firstSeen (L := Ref.lib) (Ex.requests "projects/p1") Ex.series_a
           !! "project_id"%string = Some (projectID Cases.strict) ->
      translateSeries (L := Ref.lib) Cases.strict (Ex.requests "projects/p1") None Ex.series_a
      = translateSeries (L := Ref.lib) (withoutProjectFilter Cases.strict)
          (Ex.requests "projects/p1") None Ex.series_a).
Proof.
  split; [reflexivity|].
  apply (delegated_project_filter (L := Ref.lib) (Laws := ref_laws) Cases.strict
           (Ex.requests "projects/p1") None Ex.series_a 1709251205000000000
           (Some Ex.point_5)).
  - reflexivity.
  - vm_compute. reflexivity.
Defined.

(** A page of two series, the second with an undated point after a dated
    one. *)
Lemma unparseable_end_time_aborts_page_witness :
  endOf (L := Ref.lib) (Ex.int64Point "yesterday" 1) = None
  /\ reportTimeSeriesMetrics (L := Ref.lib) Ex.collector None
       ([Ex.series_a] ++ Cases.series_undated :: [Ex.series_unordered])
       (Ex.requests "projects/p1")
     = ([CollectNewConstMetric Ex.series_a 1709251205000000000
           ["unit"; "zone"; "project_id"; "region"]%string GaugeValue 5
           ["1"; "a"; "p1"; "eu"]%string "GAUGE"],
        Err (endTimeError (Ex.int64Point "yesterday" 1))).
Proof.
  assert (Hbad : endOf (L := Ref.lib) (Ex.int64Point "yesterday" 1) = None)
    by (vm_compute; reflexivity).
  split; [exact Hbad|].
  apply (unparseable_end_time_aborts_page (L := Ref.lib) Ex.collector
           (Ex.requests "projects/p1") [Ex.series_a] Cases.series_undated
           [Ex.series_unordered] [Ex.point_5] (Ex.int64Point "yesterday" 1)
           [Ex.int64Point "2024-03-01T00:00:09Z" 9]).
  - reflexivity.
  - apply Forall_cons. split; [eexists; vm_compute; reflexivity|apply Forall_nil_2].
  - exact Hbad.
  - vm_compute. reflexivity.
Defined.

(** A series of strings before a series of integers. *)
Lemma unknown_value_type_skipped_witness :
  translateSeries (L := Ref.lib) Ex.collector (Ex.requests "projects/p1") None
    Cases.series_string
  = Ok (Some Ex.point_5, None)
  /\ translatePage (L := Ref.lib) Ex.collector (Ex.requests "projects/p1")
       (Cases.series_string :: [Ex.series_a]) None
     = translatePage (L := Ref.lib) Ex.collector (Ex.requests "projects/p1")
         [Ex.series_a] (Some Ex.point_5).
Proof.
  apply (unknown_value_type_skipped (L := Ref.lib) Ex.collector (Ex.requests "projects/p1")
           None Cases.series_string 1709251205000000000 (Some Ex.point_5) [Ex.series_a]).
  - rewrite !not_elem_of_cons. split_and!; try discriminate. apply not_elem_of_nil.
  - vm_compute. reflexivity.
Defined.

(** A distribution without layout is passed over. *)
Lemma distribution_discarded_iff_no_layout_witness :
  emitSeries (L := Ref.lib) Ex.collector Cases.series_dist 1709251205000000000
    (Some Cases.point_dist) ["unit"%string] ["ms"%string] GaugeValue
  = Ok None
  <-> ExplicitBuckets (dist_BucketOptions Cases.no_layout) = None
      /\ LinearBuckets (dist_BucketOptions Cases.no_layout) = None
      /\ ExponentialBuckets (dist_BucketOptions Cases.no_layout) = None.
Proof.
  exact (distribution_discarded_iff_no_layout (L := Ref.lib) Ex.collector Cases.series_dist
           1709251205000000000 Cases.point_dist Cases.no_layout
           ["unit"%string] ["ms"%string] GaugeValue eq_refl eq_refl).
Defined.

(** Two pages: a call without token, then one with the token [t2]. *)
Lemma calls_follow_page_tokens_witness :
  fetchTokens (descriptorUnit (L := Ref.lib) Ex.collector Cases.paged
                 (Ex.requests "projects/p1") (Ex.now - 300000000000) Ex.now)
  = [""; "t2"]%string
  /\ fetchTokens (descriptorUnit (L := Ref.lib) Ex.collector Cases.paged
                    (Ex.requests "projects/p1") (Ex.now - 300000000000) Ex.now)
       `prefix_of` ""%string :: pageTokens (ListTimeSeries Cases.paged Ex.requests_query)
  /\ head (fetchTokens (descriptorUnit (L := Ref.lib) Ex.collector Cases.paged
                          (Ex.requests "projects/p1") (Ex.now - 300000000000) Ex.now))
     = Some ""%string.
Proof.
  assert (Hin : Fetch Ex.requests_query "" ∈
                descriptorUnit (L := Ref.lib) Ex.collector Cases.paged
                  (Ex.requests "projects/p1") (Ex.now - 300000000000) Ex.now)
    by (vm_compute; constructor).
  destruct (calls_follow_page_tokens (L := Ref.lib) Ex.collector Cases.paged
              (Ex.requests "projects/p1") (Ex.now - 300000000000) Ex.now
              Ex.requests_query "" Hin) as (Hpre & Hhead & _).
  split; [vm_compute; reflexivity|]. split; [exact Hpre|exact Hhead].
Defined.

(** The two calls of the cold scrape over two descriptor pages. *)
Lemma every_request_spans_the_interval_witness :
  min_int64 < metricsInterval Ex.collector <= max_int64
  /\ Forall (fun a => match a with
                      | Fetch q _ =>
                          q_IntervalEndTime q - q_IntervalStartTime q
                          = metricsInterval Ex.collector
                      | _ => True
                      end)
       (snd <$> trace (reportMonitoringMetrics (L := Ref.lib) Ex.collector Ex.two_pages
                         (NewMonitoringCollector_cache 0 false) Ex.now [])).
Proof.
  assert (Hint : min_int64 < metricsInterval Ex.collector <= max_int64)
    by (vm_compute; split; [reflexivity|discriminate]).
  split; [exact Hint|].
  exact (every_request_spans_the_interval (L := Ref.lib) Ex.collector Ex.two_pages
           (NewMonitoringCollector_cache 0 false) Ex.now [] Hint).
Defined.

(** A batch that lists one type twice and another once. *)
Lemma one_unit_per_type_in_batch_witness :
  NoDup (go_range (GoLib := Ref.lib)
           (uniqueDescriptors [Ex.requests "projects/p1"; Ex.latency;
                               Ex.requests "projects/p2"])).*1
  /\ (forall ty,
        ty ∈ (go_range (GoLib := Ref.lib)
                (uniqueDescriptors [Ex.requests "projects/p1"; Ex.latency;
                                    Ex.requests "projects/p2"])).*1
        <-> ty ∈ md_Type <$> [Ex.requests "projects/p1"; Ex.latency;
                              Ex.requests "projects/p2"])
  /\ length (descriptorUnits (L := Ref.lib) Ex.collector Ex.two_pages Ex.now
               [Ex.requests "projects/p1"; Ex.latency; Ex.requests "projects/p2"])
     = length (go_range (GoLib := Ref.lib)
                 (uniqueDescriptors [Ex.requests "projects/p1"; Ex.latency;
                                     Ex.requests "projects/p2"])).*1.
Proof.
  exact (one_unit_per_type_in_batch (L := Ref.lib) (Laws := ref_laws) Ex.collector
           Ex.two_pages Ex.now
           [Ex.requests "projects/p1"; Ex.latency; Ex.requests "projects/p2"]).
Defined.

(** A descriptor with the ingest delay [soon] next to a sound one. *)
Lemma unparseable_ingest_delay_fails_batch_witness :
  time_ParseDuration (GoLib := Ref.lib) "soon" = None
  /\ (forall startTime endTime,
        fetchTokens (descriptorUnit (L := Ref.lib) Ex.collector Ex.two_pages Cases.delayed
                       startTime endTime) = [])
  /\ main (metricDescriptorsFunction (L := Ref.lib) Ex.collector Ex.two_pages Ex.now
             [Cases.delayed; Ex.requests "projects/p1"] [])
     <> Returned None.
Proof.
  assert (Hparse : time_ParseDuration (GoLib := Ref.lib) "soon" = None)
    by (vm_compute; reflexivity).
  split; [exact Hparse|].
  apply (unparseable_ingest_delay_fails_batch (L := Ref.lib) (Laws := ref_laws)
           Ex.collector Ex.two_pages Ex.now [Cases.delayed; Ex.requests "projects/p1"] []
           "custom.googleapis.com/app/queue" Cases.delayed {| IngestDelay := "soon" |}).
  - vm_compute. reflexivity.
  - reflexivity.
  - reflexivity.
  - discriminate.
  - exact Hparse.
Defined.

(** A page whose first series has no points. *)
Lemma empty_first_series_crashes_batch_witness :
  ts_Points Ex.series_empty = []
  /\ main (metricDescriptorsFunction (L := Ref.lib) Ex.collector Cases.empty_first Ex.now
             [Ex.requests "projects/p1"] [])
     = Crashed.
Proof.
  split; [reflexivity|].
  apply (empty_first_series_crashes_batch (L := Ref.lib) (Laws := ref_laws)
           Ex.collector Cases.empty_first Ex.now [Ex.requests "projects/p1"] []
           "custom.googleapis.com/app/requests" (Ex.requests "projects/p1")
           Ex.requests_query Ex.series_empty [Ex.series_a] "" TSNil GaugeValue).
  - vm_compute. reflexivity.
  - vm_compute. reflexivity.
  - reflexivity.
  - reflexivity.
  - reflexivity.
  - reflexivity.
  - rewrite !elem_of_cons. right; left. reflexivity.
  - reflexivity.
Defined.

(** Two scrapes, the second of which fails. *)
Lemma scrape_counters_count_scrapes_witness :
  exists m,
    collects (L := Ref.lib) Ex.collector Cases.good_then_bad newSelfMetrics = Some m
    /\ scrapesTotalMetric m = 2
    /\ scrapeErrorsTotalMetric m = 1
    /\ apiCallsTotalMetric m = 4
    /\ lastScrapeErrorMetric m = 1%float.
Proof.
  destruct (collects (L := Ref.lib) Ex.collector Cases.good_then_bad newSelfMetrics)
    as [m|] eqn:Hm; [|vm_compute in Hm; discriminate].
  exists m. split; [reflexivity|].
  assert (Hlen : Z.of_nat (length Cases.good_then_bad) < two_64) by (vm_compute; reflexivity).
  destruct (scrape_counters_count_scrapes (L := Ref.lib) Ex.collector Cases.good_then_bad
              m Hm Hlen) as (Hs & He & _ & Hl).
  split; [exact Hs|]. split; [rewrite He; vm_compute; reflexivity|].
  split; [vm_compute in Hm; by injection Hm as <-|].
  rewrite Hl. vm_compute. reflexivity.
Defined.

(** One prefix, no cache, and a listing that fails. *)
Lemma failed_listing_is_not_counted_witness :
  exists m',
    Collect (L := Ref.lib) Ex.collector Cases.unlisted (NewMonitoringCollector_cache 0 false)
      newSelfMetrics Cases.two_seconds []
    = Some m'
    /\ apiCallsTotalMetric m' = apiCallsTotalMetric newSelfMetrics
    /\ lastScrapeErrorMetric m' = 1%float
    /\ fetchTokens (snd <$> trace (reportMonitoringMetrics (L := Ref.lib) Ex.collector
                                     Cases.unlisted (NewMonitoringCollector_cache 0 false)
                                     (lookedUp Cases.two_seconds) []))
       = [].
Proof.
  apply (failed_listing_is_not_counted (L := Ref.lib) Ex.collector Cases.unlisted
           (NewMonitoringCollector_cache 0 false) newSelfMetrics Cases.two_seconds []).
  - discriminate.
  - intros metricsTypePrefix _. split; [reflexivity|]. by exists "listing failed"%string.
Defined.
